(** * View handling of the SQL layer (sql/sql_view.cc)

    A shallow embedding of the functions of [sql/sql_view.cc] and the
    properties of view creation, resolution, removal and of the key check
    for updates through a view.

    The TABLE_LIST objects of a statement live in a heap addressed by
    pointers; the lists that the code follows through [next_global],
    [next_local] and [embedding] are read off that heap.  Functions of
    other files ([parse_file.cc], [sql_lex.cc], [sql_base.cc], the
    privilege checks, the parser) are parameters of the development. *)

From Stdlib Require Import ZArith String Ascii List Bool Lia.
From stdpp Require Import base option gmap strings list.

Open Scope Z_scope.

(** ** Enumerations *)

Inductive frm_type_enum : Type := FRMTYPE_ERROR | FRMTYPE_TABLE | FRMTYPE_VIEW.

Inductive enum_view_create_mode : Type :=
  VIEW_CREATE_NEW | VIEW_ALTER | VIEW_CREATE_OR_REPLACE.

Inductive view_algorithm : Type :=
  VIEW_ALGORITHM_UNDEFINED | VIEW_ALGORITHM_TMPTABLE | VIEW_ALGORITHM_MERGE.

Inductive view_check_option : Type :=
  VIEW_CHECK_NONE | VIEW_CHECK_LOCAL | VIEW_CHECK_CASCADED.

Inductive enum_sql_command : Type :=
  | SQLCOM_SELECT | SQLCOM_INSERT | SQLCOM_UPDATE | SQLCOM_DELETE
  | SQLCOM_SHOW_CREATE | SQLCOM_CREATE_VIEW | SQLCOM_DROP_VIEW
  | SQLCOM_OTHER (n : nat).

Inductive tmp_table_type : Type := NO_TMP_TABLE | TMP_TABLE | TRANSACTIONAL_TMP_TABLE.

Inductive sub_select_type : Type :=
  UNSPECIFIED_TYPE | UNION_TYPE | DERIVED_TABLE_TYPE.

Inductive enum_acl : Type :=
  CREATE_VIEW_ACL | DROP_ACL | SELECT_ACL | SHOW_VIEW_ACL | VIEW_ANY_ACL.

#[global] Instance frm_type_eq_dec : EqDecision frm_type_enum.
Proof. solve_decision. Defined.
#[global] Instance create_mode_eq_dec : EqDecision enum_view_create_mode.
Proof. solve_decision. Defined.
#[global] Instance view_algorithm_eq_dec : EqDecision view_algorithm.
Proof. solve_decision. Defined.
#[global] Instance view_check_eq_dec : EqDecision view_check_option.
Proof. solve_decision. Defined.
#[global] Instance sql_command_eq_dec : EqDecision enum_sql_command.
Proof. solve_decision. Defined.
#[global] Instance tmp_table_eq_dec : EqDecision tmp_table_type.
Proof. solve_decision. Defined.

(** ** Diagnostics

    [my_error], [my_message] and [push_warning] are recorded in the order
    of the calls, with the code and the arguments of the message. *)

Inductive er_code : Type :=
  | ER_VIEW_SELECT_CLAUSE | ER_VIEW_SELECT_DERIVED | ER_VIEW_SELECT_VARIABLE
  | ER_TABLEACCESS_DENIED_ERROR | ER_VIEW_SELECT_TMPTABLE | ER_NO_SUCH_TABLE
  | ER_VIEW_WRONG_LIST | ER_DUP_FIELDNAME | ER_COLUMNACCESS_DENIED_ERROR
  | ER_TABLE_EXISTS_ERROR | ER_WRONG_OBJECT | ER_VIEW_NONUPD_CHECK
  | ER_WARN_VIEW_MERGE | ER_VIEW_NO_EXPLAIN | ER_BAD_TABLE_ERROR
  | ER_WARN_VIEW_WITHOUT_KEY | ER_NON_UPDATABLE_TABLE.

Inductive diag_level : Type := LEVEL_ERROR | WARN_LEVEL_WARN | WARN_LEVEL_NOTE.

Record diag : Type := Diag {
  d_level : diag_level;
  d_code : er_code;
  d_args : list string
}.

#[global] Instance er_code_eq_dec : EqDecision er_code.
Proof. solve_decision. Defined.
#[global] Instance diag_level_eq_dec : EqDecision diag_level.
Proof. solve_decision. Defined.
#[global] Instance diag_eq_dec : EqDecision diag.
Proof. solve_decision. Defined.

(** ** Tables, keys, items *)

(** Address of a TABLE_LIST object. *)
Definition ptr : Type := nat.

(** Identity of a Field object of an opened table. *)
Definition Field : Type := nat.

(** Identity of a condition (an Item tree used as WHERE clause). *)
Definition Cond : Type := nat.

(** A cell of type [TABLE_LIST*]: the [query_tables] member of a LEX (of
    the statement, or of the view resolved at a node) or the [next_global]
    member of a TABLE_LIST.  [prev_global] and [query_tables_last] hold the
    address of such a cell. *)
Inductive tl_loc : Type :=
  | In_query_tables (owner : option ptr)
  | In_next_global (p : ptr).

Inductive join_list_ref : Type :=
  | Join_list_of_select (sel : nat)
  | Join_list_of_nested (p : ptr).

Record KEY : Type := Build_KEY {
  flags : Z;
  key_part : list Field   (* the field of each KEY_PART_INFO; key_parts is its length *)
}.

Record TABLE : Type := Build_TABLE {
  s_tmp_table : tmp_table_type;
  key_info : list KEY;    (* s->keys is its length *)
  field : list Field      (* the null-terminated array of the fields *)
}.

(** Modelled from the spec: the class Item is not among the sources.  An
    entry of the field translation maps a position to "a direct,
    unmodified reference to a single underlying storage column" or to
    another expression: [Item::filed_for_view_update()] gives the
    Item_field in the first case and null in the second; the Item_field is
    represented by the Field it points to. *)
Record Item : Type := Build_Item {
  name : string;
  field_for_view_update : option Field
}.

Definition filed_for_view_update (item : Item) : option Field :=
  field_for_view_update item.

Definition set_name (n : string) (item : Item) : Item :=
  {| name := n; field_for_view_update := field_for_view_update item |}.

Record NESTED_JOIN : Type := Build_NESTED_JOIN {
  nj_join_list : list ptr
}.

(** The members of st_select_lex the code reads or writes. *)
Record SELECT_LEX : Type := Build_SELECT_LEX {
  sl_options : Z;
  sl_where : option Cond;
  sl_table_list_first : option ptr;  (* table_list.first *)
  sl_top_join_list : list ptr;
  sl_item_list : list Item;
  sl_select_limit : Z;
  sl_select_number : nat;
  sl_linkage : sub_select_type
}.

Definition set_sl_options (v : Z) (r : SELECT_LEX) : SELECT_LEX :=
  {| sl_options := v; sl_where := sl_where r;
     sl_table_list_first := sl_table_list_first r;
     sl_top_join_list := sl_top_join_list r; sl_item_list := sl_item_list r;
     sl_select_limit := sl_select_limit r;
     sl_select_number := sl_select_number r; sl_linkage := sl_linkage r |}.

Definition set_sl_select_number (v : nat) (r : SELECT_LEX) : SELECT_LEX :=
  {| sl_options := sl_options r; sl_where := sl_where r;
     sl_table_list_first := sl_table_list_first r;
     sl_top_join_list := sl_top_join_list r; sl_item_list := sl_item_list r;
     sl_select_limit := sl_select_limit r; sl_select_number := v;
     sl_linkage := sl_linkage r |}.

Definition set_sl_linkage (v : sub_select_type) (r : SELECT_LEX) : SELECT_LEX :=
  {| sl_options := sl_options r; sl_where := sl_where r;
     sl_table_list_first := sl_table_list_first r;
     sl_top_join_list := sl_top_join_list r; sl_item_list := sl_item_list r;
     sl_select_limit := sl_select_limit r;
     sl_select_number := sl_select_number r; sl_linkage := v |}.

Definition set_sl_item_list (v : list Item) (r : SELECT_LEX) : SELECT_LEX :=
  {| sl_options := sl_options r; sl_where := sl_where r;
     sl_table_list_first := sl_table_list_first r;
     sl_top_join_list := sl_top_join_list r; sl_item_list := v;
     sl_select_limit := sl_select_limit r;
     sl_select_number := sl_select_number r; sl_linkage := sl_linkage r |}.

(** The members of st_lex the code reads or writes. *)
Record LEX : Type := Build_LEX {
  lex_sql_command : enum_sql_command;
  lex_describe : Z;
  lex_query_tables : option ptr;  (* head of the global table list *)
  lex_query_tables_last : tl_loc;  (* the cell holding the terminating null *)
  lex_derived_tables : Z;
  lex_safe_to_cache_query : bool;
  lex_subqueries : bool;
  lex_select_lex : SELECT_LEX;
  lex_next_selects : list SELECT_LEX;  (* the selects reached by select_lex.next_select() *)
  lex_has_subselects : bool;  (* &select_lex != all_selects_list *)
  lex_create_view_algorithm : view_algorithm;
  lex_create_view_check : view_check_option;
  lex_view_list : list string;
  lex_proc_list_first : bool;  (* proc_list.first is not null *)
  lex_result : bool;  (* result is not null: SELECT ... INTO *)
  lex_variables_used : bool;
  lex_param_list_elements : nat;
  lex_drop_if_exists : bool;
  lex_view_prepare_mode : bool;
  lex_can_be_merged : bool;  (* answer of LEX::can_be_merged() *)
  lex_can_use_merged : bool;  (* answer of LEX::can_use_merged() *)
  lex_can_not_use_merged : bool  (* answer of LEX::can_not_use_merged() *)
}.

Definition set_lex_query_tables (v : option ptr) (r : LEX) : LEX :=
  {| lex_sql_command := lex_sql_command r; lex_describe := lex_describe r;
     lex_query_tables := v; lex_query_tables_last := lex_query_tables_last r;
     lex_derived_tables := lex_derived_tables r;
     lex_safe_to_cache_query := lex_safe_to_cache_query r;
     lex_subqueries := lex_subqueries r; lex_select_lex := lex_select_lex r;
     lex_next_selects := lex_next_selects r;
     lex_has_subselects := lex_has_subselects r;
     lex_create_view_algorithm := lex_create_view_algorithm r;
     lex_create_view_check := lex_create_view_check r;
     lex_view_list := lex_view_list r;
     lex_proc_list_first := lex_proc_list_first r;
     lex_result := lex_result r; lex_variables_used := lex_variables_used r;
     lex_param_list_elements := lex_param_list_elements r;
     lex_drop_if_exists := lex_drop_if_exists r;
     lex_view_prepare_mode := lex_view_prepare_mode r;
     lex_can_be_merged := lex_can_be_merged r;
     lex_can_use_merged := lex_can_use_merged r;
     lex_can_not_use_merged := lex_can_not_use_merged r |}.

Definition set_lex_query_tables_last (v : tl_loc) (r : LEX) : LEX :=
  {| lex_sql_command := lex_sql_command r; lex_describe := lex_describe r;
     lex_query_tables := lex_query_tables r; lex_query_tables_last := v;
     lex_derived_tables := lex_derived_tables r;
     lex_safe_to_cache_query := lex_safe_to_cache_query r;
     lex_subqueries := lex_subqueries r; lex_select_lex := lex_select_lex r;
     lex_next_selects := lex_next_selects r;
     lex_has_subselects := lex_has_subselects r;
     lex_create_view_algorithm := lex_create_view_algorithm r;
     lex_create_view_check := lex_create_view_check r;
     lex_view_list := lex_view_list r;
     lex_proc_list_first := lex_proc_list_first r;
     lex_result := lex_result r; lex_variables_used := lex_variables_used r;
     lex_param_list_elements := lex_param_list_elements r;
     lex_drop_if_exists := lex_drop_if_exists r;
     lex_view_prepare_mode := lex_view_prepare_mode r;
     lex_can_be_merged := lex_can_be_merged r;
     lex_can_use_merged := lex_can_use_merged r;
     lex_can_not_use_merged := lex_can_not_use_merged r |}.

Definition set_lex_derived_tables (v : Z) (r : LEX) : LEX :=
  {| lex_sql_command := lex_sql_command r; lex_describe := lex_describe r;
     lex_query_tables := lex_query_tables r;
     lex_query_tables_last := lex_query_tables_last r;
     lex_derived_tables := v;
     lex_safe_to_cache_query := lex_safe_to_cache_query r;
     lex_subqueries := lex_subqueries r; lex_select_lex := lex_select_lex r;
     lex_next_selects := lex_next_selects r;
     lex_has_subselects := lex_has_subselects r;
     lex_create_view_algorithm := lex_create_view_algorithm r;
     lex_create_view_check := lex_create_view_check r;
     lex_view_list := lex_view_list r;
     lex_proc_list_first := lex_proc_list_first r;
     lex_result := lex_result r; lex_variables_used := lex_variables_used r;
     lex_param_list_elements := lex_param_list_elements r;
     lex_drop_if_exists := lex_drop_if_exists r;
     lex_view_prepare_mode := lex_view_prepare_mode r;
     lex_can_be_merged := lex_can_be_merged r;
     lex_can_use_merged := lex_can_use_merged r;
     lex_can_not_use_merged := lex_can_not_use_merged r |}.

Definition set_lex_safe_to_cache_query (v : bool) (r : LEX) : LEX :=
  {| lex_sql_command := lex_sql_command r; lex_describe := lex_describe r;
     lex_query_tables := lex_query_tables r;
     lex_query_tables_last := lex_query_tables_last r;
     lex_derived_tables := lex_derived_tables r;
     lex_safe_to_cache_query := v; lex_subqueries := lex_subqueries r;
     lex_select_lex := lex_select_lex r;
     lex_next_selects := lex_next_selects r;
     lex_has_subselects := lex_has_subselects r;
     lex_create_view_algorithm := lex_create_view_algorithm r;
     lex_create_view_check := lex_create_view_check r;
     lex_view_list := lex_view_list r;
     lex_proc_list_first := lex_proc_list_first r;
     lex_result := lex_result r; lex_variables_used := lex_variables_used r;
     lex_param_list_elements := lex_param_list_elements r;
     lex_drop_if_exists := lex_drop_if_exists r;
     lex_view_prepare_mode := lex_view_prepare_mode r;
     lex_can_be_merged := lex_can_be_merged r;
     lex_can_use_merged := lex_can_use_merged r;
     lex_can_not_use_merged := lex_can_not_use_merged r |}.

Definition set_lex_subqueries (v : bool) (r : LEX) : LEX :=
  {| lex_sql_command := lex_sql_command r; lex_describe := lex_describe r;
     lex_query_tables := lex_query_tables r;
     lex_query_tables_last := lex_query_tables_last r;
     lex_derived_tables := lex_derived_tables r;
     lex_safe_to_cache_query := lex_safe_to_cache_query r;
     lex_subqueries := v; lex_select_lex := lex_select_lex r;
     lex_next_selects := lex_next_selects r;
     lex_has_subselects := lex_has_subselects r;
     lex_create_view_algorithm := lex_create_view_algorithm r;
     lex_create_view_check := lex_create_view_check r;
     lex_view_list := lex_view_list r;
     lex_proc_list_first := lex_proc_list_first r;
     lex_result := lex_result r; lex_variables_used := lex_variables_used r;
     lex_param_list_elements := lex_param_list_elements r;
     lex_drop_if_exists := lex_drop_if_exists r;
     lex_view_prepare_mode := lex_view_prepare_mode r;
     lex_can_be_merged := lex_can_be_merged r;
     lex_can_use_merged := lex_can_use_merged r;
     lex_can_not_use_merged := lex_can_not_use_merged r |}.

Definition set_lex_select_lex (v : SELECT_LEX) (r : LEX) : LEX :=
  {| lex_sql_command := lex_sql_command r; lex_describe := lex_describe r;
     lex_query_tables := lex_query_tables r;
     lex_query_tables_last := lex_query_tables_last r;
     lex_derived_tables := lex_derived_tables r;
     lex_safe_to_cache_query := lex_safe_to_cache_query r;
     lex_subqueries := lex_subqueries r; lex_select_lex := v;
     lex_next_selects := lex_next_selects r;
     lex_has_subselects := lex_has_subselects r;
     lex_create_view_algorithm := lex_create_view_algorithm r;
     lex_create_view_check := lex_create_view_check r;
     lex_view_list := lex_view_list r;
     lex_proc_list_first := lex_proc_list_first r;
     lex_result := lex_result r; lex_variables_used := lex_variables_used r;
     lex_param_list_elements := lex_param_list_elements r;
     lex_drop_if_exists := lex_drop_if_exists r;
     lex_view_prepare_mode := lex_view_prepare_mode r;
     lex_can_be_merged := lex_can_be_merged r;
     lex_can_use_merged := lex_can_use_merged r;
     lex_can_not_use_merged := lex_can_not_use_merged r |}.

Definition set_lex_create_view_algorithm (v : view_algorithm) (r : LEX) : LEX :=
  {| lex_sql_command := lex_sql_command r; lex_describe := lex_describe r;
     lex_query_tables := lex_query_tables r;
     lex_query_tables_last := lex_query_tables_last r;
     lex_derived_tables := lex_derived_tables r;
     lex_safe_to_cache_query := lex_safe_to_cache_query r;
     lex_subqueries := lex_subqueries r; lex_select_lex := lex_select_lex r;
     lex_next_selects := lex_next_selects r;
     lex_has_subselects := lex_has_subselects r;
     lex_create_view_algorithm := v;
     lex_create_view_check := lex_create_view_check r;
     lex_view_list := lex_view_list r;
     lex_proc_list_first := lex_proc_list_first r;
     lex_result := lex_result r; lex_variables_used := lex_variables_used r;
     lex_param_list_elements := lex_param_list_elements r;
     lex_drop_if_exists := lex_drop_if_exists r;
     lex_view_prepare_mode := lex_view_prepare_mode r;
     lex_can_be_merged := lex_can_be_merged r;
     lex_can_use_merged := lex_can_use_merged r;
     lex_can_not_use_merged := lex_can_not_use_merged r |}.

Definition set_lex_view_prepare_mode (v : bool) (r : LEX) : LEX :=
  {| lex_sql_command := lex_sql_command r; lex_describe := lex_describe r;
     lex_query_tables := lex_query_tables r;
     lex_query_tables_last := lex_query_tables_last r;
     lex_derived_tables := lex_derived_tables r;
     lex_safe_to_cache_query := lex_safe_to_cache_query r;
     lex_subqueries := lex_subqueries r; lex_select_lex := lex_select_lex r;
     lex_next_selects := lex_next_selects r;
     lex_has_subselects := lex_has_subselects r;
     lex_create_view_algorithm := lex_create_view_algorithm r;
     lex_create_view_check := lex_create_view_check r;
     lex_view_list := lex_view_list r;
     lex_proc_list_first := lex_proc_list_first r;
     lex_result := lex_result r; lex_variables_used := lex_variables_used r;
     lex_param_list_elements := lex_param_list_elements r;
     lex_drop_if_exists := lex_drop_if_exists r; lex_view_prepare_mode := v;
     lex_can_be_merged := lex_can_be_merged r;
     lex_can_use_merged := lex_can_use_merged r;
     lex_can_not_use_merged := lex_can_not_use_merged r |}.

(** The members of st_table_list the code reads or writes. *)
Record TABLE_LIST : Type := Build_TABLE_LIST {
  db : string;  (* schema of the table or view *)
  table_name : string;
  alias : string;
  next_local : option ptr;  (* next table of the same FROM clause *)
  next_global : option ptr;  (* next table of the whole statement *)
  prev_global : option tl_loc;  (* the cell that points to this element *)
  table : option TABLE;  (* opened table *)
  select_lex : nat;  (* the SELECT_LEX the reference belongs to *)
  view : option LEX;  (* LEX of the view, set once the node is resolved *)
  view_db : string;
  view_name : string;
  query : string;  (* text of the defining query *)
  md5 : string;
  source : string;
  timestamp : string;
  updatable_view : Z;  (* ulonglong flag stored in the .frm *)
  algorithm : view_algorithm;
  with_check : view_check_option;
  revision : Z;  (* ulonglong *)
  file_version : Z;
  belong_to_view : option ptr;  (* top-most view the table was pulled in by *)
  embedding : option ptr;  (* nested join the table is a member of *)
  join_list : option join_list_ref;
  nested_join : option NESTED_JOIN;
  outer_join : Z;
  schema_table : bool;  (* non-null ST_SCHEMA_TABLE pointer *)
  lock_type : nat;
  skip_temporary : bool;
  prelocking_placeholder : bool;
  effective_algorithm : view_algorithm;
  effective_with_check : view_check_option;
  updatable : bool;
  ancestor : option ptr;
  multitable_view : bool;
  where_ : option Cond;  (* the member called where in the source *)
  derived : option nat;  (* SELECT_LEX_UNIT of a materialized view *)
  field_translation : option (list Item);
  table_in_first_from_clause : bool
}.

Definition set_table (v : option TABLE) (r : TABLE_LIST) : TABLE_LIST :=
  {| db := db r; table_name := table_name r; alias := alias r;
     next_local := next_local r; next_global := next_global r;
     prev_global := prev_global r; table := v; select_lex := select_lex r;
     view := view r; view_db := view_db r; view_name := view_name r;
     query := query r; md5 := md5 r; source := source r;
     timestamp := timestamp r; updatable_view := updatable_view r;
     algorithm := algorithm r; with_check := with_check r;
     revision := revision r; file_version := file_version r;
     belong_to_view := belong_to_view r; embedding := embedding r;
     join_list := join_list r; nested_join := nested_join r;
     outer_join := outer_join r; schema_table := schema_table r;
     lock_type := lock_type r; skip_temporary := skip_temporary r;
     prelocking_placeholder := prelocking_placeholder r;
     effective_algorithm := effective_algorithm r;
     effective_with_check := effective_with_check r;
     updatable := updatable r; ancestor := ancestor r;
     multitable_view := multitable_view r; where_ := where_ r;
     derived := derived r; field_translation := field_translation r;
     table_in_first_from_clause := table_in_first_from_clause r |}.

Definition set_next_local (v : option ptr) (r : TABLE_LIST) : TABLE_LIST :=
  {| db := db r; table_name := table_name r; alias := alias r;
     next_local := v; next_global := next_global r;
     prev_global := prev_global r; table := table r;
     select_lex := select_lex r; view := view r; view_db := view_db r;
     view_name := view_name r; query := query r; md5 := md5 r;
     source := source r; timestamp := timestamp r;
     updatable_view := updatable_view r; algorithm := algorithm r;
     with_check := with_check r; revision := revision r;
     file_version := file_version r; belong_to_view := belong_to_view r;
     embedding := embedding r; join_list := join_list r;
     nested_join := nested_join r; outer_join := outer_join r;
     schema_table := schema_table r; lock_type := lock_type r;
     skip_temporary := skip_temporary r;
     prelocking_placeholder := prelocking_placeholder r;
     effective_algorithm := effective_algorithm r;
     effective_with_check := effective_with_check r;
     updatable := updatable r; ancestor := ancestor r;
     multitable_view := multitable_view r; where_ := where_ r;
     derived := derived r; field_translation := field_translation r;
     table_in_first_from_clause := table_in_first_from_clause r |}.

Definition set_next_global (v : option ptr) (r : TABLE_LIST) : TABLE_LIST :=
  {| db := db r; table_name := table_name r; alias := alias r;
     next_local := next_local r; next_global := v;
     prev_global := prev_global r; table := table r;
     select_lex := select_lex r; view := view r; view_db := view_db r;
     view_name := view_name r; query := query r; md5 := md5 r;
     source := source r; timestamp := timestamp r;
     updatable_view := updatable_view r; algorithm := algorithm r;
     with_check := with_check r; revision := revision r;
     file_version := file_version r; belong_to_view := belong_to_view r;
     embedding := embedding r; join_list := join_list r;
     nested_join := nested_join r; outer_join := outer_join r;
     schema_table := schema_table r; lock_type := lock_type r;
     skip_temporary := skip_temporary r;
     prelocking_placeholder := prelocking_placeholder r;
     effective_algorithm := effective_algorithm r;
     effective_with_check := effective_with_check r;
     updatable := updatable r; ancestor := ancestor r;
     multitable_view := multitable_view r; where_ := where_ r;
     derived := derived r; field_translation := field_translation r;
     table_in_first_from_clause := table_in_first_from_clause r |}.

Definition set_prev_global (v : option tl_loc) (r : TABLE_LIST) : TABLE_LIST :=
  {| db := db r; table_name := table_name r; alias := alias r;
     next_local := next_local r; next_global := next_global r;
     prev_global := v; table := table r; select_lex := select_lex r;
     view := view r; view_db := view_db r; view_name := view_name r;
     query := query r; md5 := md5 r; source := source r;
     timestamp := timestamp r; updatable_view := updatable_view r;
     algorithm := algorithm r; with_check := with_check r;
     revision := revision r; file_version := file_version r;
     belong_to_view := belong_to_view r; embedding := embedding r;
     join_list := join_list r; nested_join := nested_join r;
     outer_join := outer_join r; schema_table := schema_table r;
     lock_type := lock_type r; skip_temporary := skip_temporary r;
     prelocking_placeholder := prelocking_placeholder r;
     effective_algorithm := effective_algorithm r;
     effective_with_check := effective_with_check r;
     updatable := updatable r; ancestor := ancestor r;
     multitable_view := multitable_view r; where_ := where_ r;
     derived := derived r; field_translation := field_translation r;
     table_in_first_from_clause := table_in_first_from_clause r |}.

Definition set_select_lex (v : nat) (r : TABLE_LIST) : TABLE_LIST :=
  {| db := db r; table_name := table_name r; alias := alias r;
     next_local := next_local r; next_global := next_global r;
     prev_global := prev_global r; table := table r; select_lex := v;
     view := view r; view_db := view_db r; view_name := view_name r;
     query := query r; md5 := md5 r; source := source r;
     timestamp := timestamp r; updatable_view := updatable_view r;
     algorithm := algorithm r; with_check := with_check r;
     revision := revision r; file_version := file_version r;
     belong_to_view := belong_to_view r; embedding := embedding r;
     join_list := join_list r; nested_join := nested_join r;
     outer_join := outer_join r; schema_table := schema_table r;
     lock_type := lock_type r; skip_temporary := skip_temporary r;
     prelocking_placeholder := prelocking_placeholder r;
     effective_algorithm := effective_algorithm r;
     effective_with_check := effective_with_check r;
     updatable := updatable r; ancestor := ancestor r;
     multitable_view := multitable_view r; where_ := where_ r;
     derived := derived r; field_translation := field_translation r;
     table_in_first_from_clause := table_in_first_from_clause r |}.

Definition set_view (v : option LEX) (r : TABLE_LIST) : TABLE_LIST :=
  {| db := db r; table_name := table_name r; alias := alias r;
     next_local := next_local r; next_global := next_global r;
     prev_global := prev_global r; table := table r;
     select_lex := select_lex r; view := v; view_db := view_db r;
     view_name := view_name r; query := query r; md5 := md5 r;
     source := source r; timestamp := timestamp r;
     updatable_view := updatable_view r; algorithm := algorithm r;
     with_check := with_check r; revision := revision r;
     file_version := file_version r; belong_to_view := belong_to_view r;
     embedding := embedding r; join_list := join_list r;
     nested_join := nested_join r; outer_join := outer_join r;
     schema_table := schema_table r; lock_type := lock_type r;
     skip_temporary := skip_temporary r;
     prelocking_placeholder := prelocking_placeholder r;
     effective_algorithm := effective_algorithm r;
     effective_with_check := effective_with_check r;
     updatable := updatable r; ancestor := ancestor r;
     multitable_view := multitable_view r; where_ := where_ r;
     derived := derived r; field_translation := field_translation r;
     table_in_first_from_clause := table_in_first_from_clause r |}.

Definition set_view_db (v : string) (r : TABLE_LIST) : TABLE_LIST :=
  {| db := db r; table_name := table_name r; alias := alias r;
     next_local := next_local r; next_global := next_global r;
     prev_global := prev_global r; table := table r;
     select_lex := select_lex r; view := view r; view_db := v;
     view_name := view_name r; query := query r; md5 := md5 r;
     source := source r; timestamp := timestamp r;
     updatable_view := updatable_view r; algorithm := algorithm r;
     with_check := with_check r; revision := revision r;
     file_version := file_version r; belong_to_view := belong_to_view r;
     embedding := embedding r; join_list := join_list r;
     nested_join := nested_join r; outer_join := outer_join r;
     schema_table := schema_table r; lock_type := lock_type r;
     skip_temporary := skip_temporary r;
     prelocking_placeholder := prelocking_placeholder r;
     effective_algorithm := effective_algorithm r;
     effective_with_check := effective_with_check r;
     updatable := updatable r; ancestor := ancestor r;
     multitable_view := multitable_view r; where_ := where_ r;
     derived := derived r; field_translation := field_translation r;
     table_in_first_from_clause := table_in_first_from_clause r |}.

Definition set_view_name (v : string) (r : TABLE_LIST) : TABLE_LIST :=
  {| db := db r; table_name := table_name r; alias := alias r;
     next_local := next_local r; next_global := next_global r;
     prev_global := prev_global r; table := table r;
     select_lex := select_lex r; view := view r; view_db := view_db r;
     view_name := v; query := query r; md5 := md5 r; source := source r;
     timestamp := timestamp r; updatable_view := updatable_view r;
     algorithm := algorithm r; with_check := with_check r;
     revision := revision r; file_version := file_version r;
     belong_to_view := belong_to_view r; embedding := embedding r;
     join_list := join_list r; nested_join := nested_join r;
     outer_join := outer_join r; schema_table := schema_table r;
     lock_type := lock_type r; skip_temporary := skip_temporary r;
     prelocking_placeholder := prelocking_placeholder r;
     effective_algorithm := effective_algorithm r;
     effective_with_check := effective_with_check r;
     updatable := updatable r; ancestor := ancestor r;
     multitable_view := multitable_view r; where_ := where_ r;
     derived := derived r; field_translation := field_translation r;
     table_in_first_from_clause := table_in_first_from_clause r |}.

Definition set_query (v : string) (r : TABLE_LIST) : TABLE_LIST :=
  {| db := db r; table_name := table_name r; alias := alias r;
     next_local := next_local r; next_global := next_global r;
     prev_global := prev_global r; table := table r;
     select_lex := select_lex r; view := view r; view_db := view_db r;
     view_name := view_name r; query := v; md5 := md5 r; source := source r;
     timestamp := timestamp r; updatable_view := updatable_view r;
     algorithm := algorithm r; with_check := with_check r;
     revision := revision r; file_version := file_version r;
     belong_to_view := belong_to_view r; embedding := embedding r;
     join_list := join_list r; nested_join := nested_join r;
     outer_join := outer_join r; schema_table := schema_table r;
     lock_type := lock_type r; skip_temporary := skip_temporary r;
     prelocking_placeholder := prelocking_placeholder r;
     effective_algorithm := effective_algorithm r;
     effective_with_check := effective_with_check r;
     updatable := updatable r; ancestor := ancestor r;
     multitable_view := multitable_view r; where_ := where_ r;
     derived := derived r; field_translation := field_translation r;
     table_in_first_from_clause := table_in_first_from_clause r |}.

Definition set_md5 (v : string) (r : TABLE_LIST) : TABLE_LIST :=
  {| db := db r; table_name := table_name r; alias := alias r;
     next_local := next_local r; next_global := next_global r;
     prev_global := prev_global r; table := table r;
     select_lex := select_lex r; view := view r; view_db := view_db r;
     view_name := view_name r; query := query r; md5 := v;
     source := source r; timestamp := timestamp r;
     updatable_view := updatable_view r; algorithm := algorithm r;
     with_check := with_check r; revision := revision r;
     file_version := file_version r; belong_to_view := belong_to_view r;
     embedding := embedding r; join_list := join_list r;
     nested_join := nested_join r; outer_join := outer_join r;
     schema_table := schema_table r; lock_type := lock_type r;
     skip_temporary := skip_temporary r;
     prelocking_placeholder := prelocking_placeholder r;
     effective_algorithm := effective_algorithm r;
     effective_with_check := effective_with_check r;
     updatable := updatable r; ancestor := ancestor r;
     multitable_view := multitable_view r; where_ := where_ r;
     derived := derived r; field_translation := field_translation r;
     table_in_first_from_clause := table_in_first_from_clause r |}.

Definition set_source (v : string) (r : TABLE_LIST) : TABLE_LIST :=
  {| db := db r; table_name := table_name r; alias := alias r;
     next_local := next_local r; next_global := next_global r;
     prev_global := prev_global r; table := table r;
     select_lex := select_lex r; view := view r; view_db := view_db r;
     view_name := view_name r; query := query r; md5 := md5 r; source := v;
     timestamp := timestamp r; updatable_view := updatable_view r;
     algorithm := algorithm r; with_check := with_check r;
     revision := revision r; file_version := file_version r;
     belong_to_view := belong_to_view r; embedding := embedding r;
     join_list := join_list r; nested_join := nested_join r;
     outer_join := outer_join r; schema_table := schema_table r;
     lock_type := lock_type r; skip_temporary := skip_temporary r;
     prelocking_placeholder := prelocking_placeholder r;
     effective_algorithm := effective_algorithm r;
     effective_with_check := effective_with_check r;
     updatable := updatable r; ancestor := ancestor r;
     multitable_view := multitable_view r; where_ := where_ r;
     derived := derived r; field_translation := field_translation r;
     table_in_first_from_clause := table_in_first_from_clause r |}.

Definition set_updatable_view (v : Z) (r : TABLE_LIST) : TABLE_LIST :=
  {| db := db r; table_name := table_name r; alias := alias r;
     next_local := next_local r; next_global := next_global r;
     prev_global := prev_global r; table := table r;
     select_lex := select_lex r; view := view r; view_db := view_db r;
     view_name := view_name r; query := query r; md5 := md5 r;
     source := source r; timestamp := timestamp r; updatable_view := v;
     algorithm := algorithm r; with_check := with_check r;
     revision := revision r; file_version := file_version r;
     belong_to_view := belong_to_view r; embedding := embedding r;
     join_list := join_list r; nested_join := nested_join r;
     outer_join := outer_join r; schema_table := schema_table r;
     lock_type := lock_type r; skip_temporary := skip_temporary r;
     prelocking_placeholder := prelocking_placeholder r;
     effective_algorithm := effective_algorithm r;
     effective_with_check := effective_with_check r;
     updatable := updatable r; ancestor := ancestor r;
     multitable_view := multitable_view r; where_ := where_ r;
     derived := derived r; field_translation := field_translation r;
     table_in_first_from_clause := table_in_first_from_clause r |}.

Definition set_algorithm (v : view_algorithm) (r : TABLE_LIST) : TABLE_LIST :=
  {| db := db r; table_name := table_name r; alias := alias r;
     next_local := next_local r; next_global := next_global r;
     prev_global := prev_global r; table := table r;
     select_lex := select_lex r; view := view r; view_db := view_db r;
     view_name := view_name r; query := query r; md5 := md5 r;
     source := source r; timestamp := timestamp r;
     updatable_view := updatable_view r; algorithm := v;
     with_check := with_check r; revision := revision r;
     file_version := file_version r; belong_to_view := belong_to_view r;
     embedding := embedding r; join_list := join_list r;
     nested_join := nested_join r; outer_join := outer_join r;
     schema_table := schema_table r; lock_type := lock_type r;
     skip_temporary := skip_temporary r;
     prelocking_placeholder := prelocking_placeholder r;
     effective_algorithm := effective_algorithm r;
     effective_with_check := effective_with_check r;
     updatable := updatable r; ancestor := ancestor r;
     multitable_view := multitable_view r; where_ := where_ r;
     derived := derived r; field_translation := field_translation r;
     table_in_first_from_clause := table_in_first_from_clause r |}.

Definition set_with_check (v : view_check_option) (r : TABLE_LIST) : TABLE_LIST :=
  {| db := db r; table_name := table_name r; alias := alias r;
     next_local := next_local r; next_global := next_global r;
     prev_global := prev_global r; table := table r;
     select_lex := select_lex r; view := view r; view_db := view_db r;
     view_name := view_name r; query := query r; md5 := md5 r;
     source := source r; timestamp := timestamp r;
     updatable_view := updatable_view r; algorithm := algorithm r;
     with_check := v; revision := revision r; file_version := file_version r;
     belong_to_view := belong_to_view r; embedding := embedding r;
     join_list := join_list r; nested_join := nested_join r;
     outer_join := outer_join r; schema_table := schema_table r;
     lock_type := lock_type r; skip_temporary := skip_temporary r;
     prelocking_placeholder := prelocking_placeholder r;
     effective_algorithm := effective_algorithm r;
     effective_with_check := effective_with_check r;
     updatable := updatable r; ancestor := ancestor r;
     multitable_view := multitable_view r; where_ := where_ r;
     derived := derived r; field_translation := field_translation r;
     table_in_first_from_clause := table_in_first_from_clause r |}.

Definition set_revision (v : Z) (r : TABLE_LIST) : TABLE_LIST :=
  {| db := db r; table_name := table_name r; alias := alias r;
     next_local := next_local r; next_global := next_global r;
     prev_global := prev_global r; table := table r;
     select_lex := select_lex r; view := view r; view_db := view_db r;
     view_name := view_name r; query := query r; md5 := md5 r;
     source := source r; timestamp := timestamp r;
     updatable_view := updatable_view r; algorithm := algorithm r;
     with_check := with_check r; revision := v;
     file_version := file_version r; belong_to_view := belong_to_view r;
     embedding := embedding r; join_list := join_list r;
     nested_join := nested_join r; outer_join := outer_join r;
     schema_table := schema_table r; lock_type := lock_type r;
     skip_temporary := skip_temporary r;
     prelocking_placeholder := prelocking_placeholder r;
     effective_algorithm := effective_algorithm r;
     effective_with_check := effective_with_check r;
     updatable := updatable r; ancestor := ancestor r;
     multitable_view := multitable_view r; where_ := where_ r;
     derived := derived r; field_translation := field_translation r;
     table_in_first_from_clause := table_in_first_from_clause r |}.

Definition set_file_version (v : Z) (r : TABLE_LIST) : TABLE_LIST :=
  {| db := db r; table_name := table_name r; alias := alias r;
     next_local := next_local r; next_global := next_global r;
     prev_global := prev_global r; table := table r;
     select_lex := select_lex r; view := view r; view_db := view_db r;
     view_name := view_name r; query := query r; md5 := md5 r;
     source := source r; timestamp := timestamp r;
     updatable_view := updatable_view r; algorithm := algorithm r;
     with_check := with_check r; revision := revision r; file_version := v;
     belong_to_view := belong_to_view r; embedding := embedding r;
     join_list := join_list r; nested_join := nested_join r;
     outer_join := outer_join r; schema_table := schema_table r;
     lock_type := lock_type r; skip_temporary := skip_temporary r;
     prelocking_placeholder := prelocking_placeholder r;
     effective_algorithm := effective_algorithm r;
     effective_with_check := effective_with_check r;
     updatable := updatable r; ancestor := ancestor r;
     multitable_view := multitable_view r; where_ := where_ r;
     derived := derived r; field_translation := field_translation r;
     table_in_first_from_clause := table_in_first_from_clause r |}.

Definition set_belong_to_view (v : option ptr) (r : TABLE_LIST) : TABLE_LIST :=
  {| db := db r; table_name := table_name r; alias := alias r;
     next_local := next_local r; next_global := next_global r;
     prev_global := prev_global r; table := table r;
     select_lex := select_lex r; view := view r; view_db := view_db r;
     view_name := view_name r; query := query r; md5 := md5 r;
     source := source r; timestamp := timestamp r;
     updatable_view := updatable_view r; algorithm := algorithm r;
     with_check := with_check r; revision := revision r;
     file_version := file_version r; belong_to_view := v;
     embedding := embedding r; join_list := join_list r;
     nested_join := nested_join r; outer_join := outer_join r;
     schema_table := schema_table r; lock_type := lock_type r;
     skip_temporary := skip_temporary r;
     prelocking_placeholder := prelocking_placeholder r;
     effective_algorithm := effective_algorithm r;
     effective_with_check := effective_with_check r;
     updatable := updatable r; ancestor := ancestor r;
     multitable_view := multitable_view r; where_ := where_ r;
     derived := derived r; field_translation := field_translation r;
     table_in_first_from_clause := table_in_first_from_clause r |}.

Definition set_embedding (v : option ptr) (r : TABLE_LIST) : TABLE_LIST :=
  {| db := db r; table_name := table_name r; alias := alias r;
     next_local := next_local r; next_global := next_global r;
     prev_global := prev_global r; table := table r;
     select_lex := select_lex r; view := view r; view_db := view_db r;
     view_name := view_name r; query := query r; md5 := md5 r;
     source := source r; timestamp := timestamp r;
     updatable_view := updatable_view r; algorithm := algorithm r;
     with_check := with_check r; revision := revision r;
     file_version := file_version r; belong_to_view := belong_to_view r;
     embedding := v; join_list := join_list r; nested_join := nested_join r;
     outer_join := outer_join r; schema_table := schema_table r;
     lock_type := lock_type r; skip_temporary := skip_temporary r;
     prelocking_placeholder := prelocking_placeholder r;
     effective_algorithm := effective_algorithm r;
     effective_with_check := effective_with_check r;
     updatable := updatable r; ancestor := ancestor r;
     multitable_view := multitable_view r; where_ := where_ r;
     derived := derived r; field_translation := field_translation r;
     table_in_first_from_clause := table_in_first_from_clause r |}.

Definition set_join_list (v : option join_list_ref) (r : TABLE_LIST) : TABLE_LIST :=
  {| db := db r; table_name := table_name r; alias := alias r;
     next_local := next_local r; next_global := next_global r;
     prev_global := prev_global r; table := table r;
     select_lex := select_lex r; view := view r; view_db := view_db r;
     view_name := view_name r; query := query r; md5 := md5 r;
     source := source r; timestamp := timestamp r;
     updatable_view := updatable_view r; algorithm := algorithm r;
     with_check := with_check r; revision := revision r;
     file_version := file_version r; belong_to_view := belong_to_view r;
     embedding := embedding r; join_list := v; nested_join := nested_join r;
     outer_join := outer_join r; schema_table := schema_table r;
     lock_type := lock_type r; skip_temporary := skip_temporary r;
     prelocking_placeholder := prelocking_placeholder r;
     effective_algorithm := effective_algorithm r;
     effective_with_check := effective_with_check r;
     updatable := updatable r; ancestor := ancestor r;
     multitable_view := multitable_view r; where_ := where_ r;
     derived := derived r; field_translation := field_translation r;
     table_in_first_from_clause := table_in_first_from_clause r |}.

Definition set_nested_join (v : option NESTED_JOIN) (r : TABLE_LIST) : TABLE_LIST :=
  {| db := db r; table_name := table_name r; alias := alias r;
     next_local := next_local r; next_global := next_global r;
     prev_global := prev_global r; table := table r;
     select_lex := select_lex r; view := view r; view_db := view_db r;
     view_name := view_name r; query := query r; md5 := md5 r;
     source := source r; timestamp := timestamp r;
     updatable_view := updatable_view r; algorithm := algorithm r;
     with_check := with_check r; revision := revision r;
     file_version := file_version r; belong_to_view := belong_to_view r;
     embedding := embedding r; join_list := join_list r; nested_join := v;
     outer_join := outer_join r; schema_table := schema_table r;
     lock_type := lock_type r; skip_temporary := skip_temporary r;
     prelocking_placeholder := prelocking_placeholder r;
     effective_algorithm := effective_algorithm r;
     effective_with_check := effective_with_check r;
     updatable := updatable r; ancestor := ancestor r;
     multitable_view := multitable_view r; where_ := where_ r;
     derived := derived r; field_translation := field_translation r;
     table_in_first_from_clause := table_in_first_from_clause r |}.

Definition set_lock_type (v : nat) (r : TABLE_LIST) : TABLE_LIST :=
  {| db := db r; table_name := table_name r; alias := alias r;
     next_local := next_local r; next_global := next_global r;
     prev_global := prev_global r; table := table r;
     select_lex := select_lex r; view := view r; view_db := view_db r;
     view_name := view_name r; query := query r; md5 := md5 r;
     source := source r; timestamp := timestamp r;
     updatable_view := updatable_view r; algorithm := algorithm r;
     with_check := with_check r; revision := revision r;
     file_version := file_version r; belong_to_view := belong_to_view r;
     embedding := embedding r; join_list := join_list r;
     nested_join := nested_join r; outer_join := outer_join r;
     schema_table := schema_table r; lock_type := v;
     skip_temporary := skip_temporary r;
     prelocking_placeholder := prelocking_placeholder r;
     effective_algorithm := effective_algorithm r;
     effective_with_check := effective_with_check r;
     updatable := updatable r; ancestor := ancestor r;
     multitable_view := multitable_view r; where_ := where_ r;
     derived := derived r; field_translation := field_translation r;
     table_in_first_from_clause := table_in_first_from_clause r |}.

Definition set_skip_temporary (v : bool) (r : TABLE_LIST) : TABLE_LIST :=
  {| db := db r; table_name := table_name r; alias := alias r;
     next_local := next_local r; next_global := next_global r;
     prev_global := prev_global r; table := table r;
     select_lex := select_lex r; view := view r; view_db := view_db r;
     view_name := view_name r; query := query r; md5 := md5 r;
     source := source r; timestamp := timestamp r;
     updatable_view := updatable_view r; algorithm := algorithm r;
     with_check := with_check r; revision := revision r;
     file_version := file_version r; belong_to_view := belong_to_view r;
     embedding := embedding r; join_list := join_list r;
     nested_join := nested_join r; outer_join := outer_join r;
     schema_table := schema_table r; lock_type := lock_type r;
     skip_temporary := v; prelocking_placeholder := prelocking_placeholder r;
     effective_algorithm := effective_algorithm r;
     effective_with_check := effective_with_check r;
     updatable := updatable r; ancestor := ancestor r;
     multitable_view := multitable_view r; where_ := where_ r;
     derived := derived r; field_translation := field_translation r;
     table_in_first_from_clause := table_in_first_from_clause r |}.

Definition set_effective_algorithm (v : view_algorithm) (r : TABLE_LIST) : TABLE_LIST :=
  {| db := db r; table_name := table_name r; alias := alias r;
     next_local := next_local r; next_global := next_global r;
     prev_global := prev_global r; table := table r;
     select_lex := select_lex r; view := view r; view_db := view_db r;
     view_name := view_name r; query := query r; md5 := md5 r;
     source := source r; timestamp := timestamp r;
     updatable_view := updatable_view r; algorithm := algorithm r;
     with_check := with_check r; revision := revision r;
     file_version := file_version r; belong_to_view := belong_to_view r;
     embedding := embedding r; join_list := join_list r;
     nested_join := nested_join r; outer_join := outer_join r;
     schema_table := schema_table r; lock_type := lock_type r;
     skip_temporary := skip_temporary r;
     prelocking_placeholder := prelocking_placeholder r;
     effective_algorithm := v;
     effective_with_check := effective_with_check r;
     updatable := updatable r; ancestor := ancestor r;
     multitable_view := multitable_view r; where_ := where_ r;
     derived := derived r; field_translation := field_translation r;
     table_in_first_from_clause := table_in_first_from_clause r |}.

Definition set_effective_with_check (v : view_check_option) (r : TABLE_LIST) : TABLE_LIST :=
  {| db := db r; table_name := table_name r; alias := alias r;
     next_local := next_local r; next_global := next_global r;
     prev_global := prev_global r; table := table r;
     select_lex := select_lex r; view := view r; view_db := view_db r;
     view_name := view_name r; query := query r; md5 := md5 r;
     source := source r; timestamp := timestamp r;
     updatable_view := updatable_view r; algorithm := algorithm r;
     with_check := with_check r; revision := revision r;
     file_version := file_version r; belong_to_view := belong_to_view r;
     embedding := embedding r; join_list := join_list r;
     nested_join := nested_join r; outer_join := outer_join r;
     schema_table := schema_table r; lock_type := lock_type r;
     skip_temporary := skip_temporary r;
     prelocking_placeholder := prelocking_placeholder r;
     effective_algorithm := effective_algorithm r; effective_with_check := v;
     updatable := updatable r; ancestor := ancestor r;
     multitable_view := multitable_view r; where_ := where_ r;
     derived := derived r; field_translation := field_translation r;
     table_in_first_from_clause := table_in_first_from_clause r |}.

Definition set_updatable (v : bool) (r : TABLE_LIST) : TABLE_LIST :=
  {| db := db r; table_name := table_name r; alias := alias r;
     next_local := next_local r; next_global := next_global r;
     prev_global := prev_global r; table := table r;
     select_lex := select_lex r; view := view r; view_db := view_db r;
     view_name := view_name r; query := query r; md5 := md5 r;
     source := source r; timestamp := timestamp r;
     updatable_view := updatable_view r; algorithm := algorithm r;
     with_check := with_check r; revision := revision r;
     file_version := file_version r; belong_to_view := belong_to_view r;
     embedding := embedding r; join_list := join_list r;
     nested_join := nested_join r; outer_join := outer_join r;
     schema_table := schema_table r; lock_type := lock_type r;
     skip_temporary := skip_temporary r;
     prelocking_placeholder := prelocking_placeholder r;
     effective_algorithm := effective_algorithm r;
     effective_with_check := effective_with_check r; updatable := v;
     ancestor := ancestor r; multitable_view := multitable_view r;
     where_ := where_ r; derived := derived r;
     field_translation := field_translation r;
     table_in_first_from_clause := table_in_first_from_clause r |}.

Definition set_ancestor (v : option ptr) (r : TABLE_LIST) : TABLE_LIST :=
  {| db := db r; table_name := table_name r; alias := alias r;
     next_local := next_local r; next_global := next_global r;
     prev_global := prev_global r; table := table r;
     select_lex := select_lex r; view := view r; view_db := view_db r;
     view_name := view_name r; query := query r; md5 := md5 r;
     source := source r; timestamp := timestamp r;
     updatable_view := updatable_view r; algorithm := algorithm r;
     with_check := with_check r; revision := revision r;
     file_version := file_version r; belong_to_view := belong_to_view r;
     embedding := embedding r; join_list := join_list r;
     nested_join := nested_join r; outer_join := outer_join r;
     schema_table := schema_table r; lock_type := lock_type r;
     skip_temporary := skip_temporary r;
     prelocking_placeholder := prelocking_placeholder r;
     effective_algorithm := effective_algorithm r;
     effective_with_check := effective_with_check r;
     updatable := updatable r; ancestor := v;
     multitable_view := multitable_view r; where_ := where_ r;
     derived := derived r; field_translation := field_translation r;
     table_in_first_from_clause := table_in_first_from_clause r |}.

Definition set_multitable_view (v : bool) (r : TABLE_LIST) : TABLE_LIST :=
  {| db := db r; table_name := table_name r; alias := alias r;
     next_local := next_local r; next_global := next_global r;
     prev_global := prev_global r; table := table r;
     select_lex := select_lex r; view := view r; view_db := view_db r;
     view_name := view_name r; query := query r; md5 := md5 r;
     source := source r; timestamp := timestamp r;
     updatable_view := updatable_view r; algorithm := algorithm r;
     with_check := with_check r; revision := revision r;
     file_version := file_version r; belong_to_view := belong_to_view r;
     embedding := embedding r; join_list := join_list r;
     nested_join := nested_join r; outer_join := outer_join r;
     schema_table := schema_table r; lock_type := lock_type r;
     skip_temporary := skip_temporary r;
     prelocking_placeholder := prelocking_placeholder r;
     effective_algorithm := effective_algorithm r;
     effective_with_check := effective_with_check r;
     updatable := updatable r; ancestor := ancestor r; multitable_view := v;
     where_ := where_ r; derived := derived r;
     field_translation := field_translation r;
     table_in_first_from_clause := table_in_first_from_clause r |}.

Definition set_where_ (v : option Cond) (r : TABLE_LIST) : TABLE_LIST :=
  {| db := db r; table_name := table_name r; alias := alias r;
     next_local := next_local r; next_global := next_global r;
     prev_global := prev_global r; table := table r;
     select_lex := select_lex r; view := view r; view_db := view_db r;
     view_name := view_name r; query := query r; md5 := md5 r;
     source := source r; timestamp := timestamp r;
     updatable_view := updatable_view r; algorithm := algorithm r;
     with_check := with_check r; revision := revision r;
     file_version := file_version r; belong_to_view := belong_to_view r;
     embedding := embedding r; join_list := join_list r;
     nested_join := nested_join r; outer_join := outer_join r;
     schema_table := schema_table r; lock_type := lock_type r;
     skip_temporary := skip_temporary r;
     prelocking_placeholder := prelocking_placeholder r;
     effective_algorithm := effective_algorithm r;
     effective_with_check := effective_with_check r;
     updatable := updatable r; ancestor := ancestor r;
     multitable_view := multitable_view r; where_ := v; derived := derived r;
     field_translation := field_translation r;
     table_in_first_from_clause := table_in_first_from_clause r |}.

Definition set_derived (v : option nat) (r : TABLE_LIST) : TABLE_LIST :=
  {| db := db r; table_name := table_name r; alias := alias r;
     next_local := next_local r; next_global := next_global r;
     prev_global := prev_global r; table := table r;
     select_lex := select_lex r; view := view r; view_db := view_db r;
     view_name := view_name r; query := query r; md5 := md5 r;
     source := source r; timestamp := timestamp r;
     updatable_view := updatable_view r; algorithm := algorithm r;
     with_check := with_check r; revision := revision r;
     file_version := file_version r; belong_to_view := belong_to_view r;
     embedding := embedding r; join_list := join_list r;
     nested_join := nested_join r; outer_join := outer_join r;
     schema_table := schema_table r; lock_type := lock_type r;
     skip_temporary := skip_temporary r;
     prelocking_placeholder := prelocking_placeholder r;
     effective_algorithm := effective_algorithm r;
     effective_with_check := effective_with_check r;
     updatable := updatable r; ancestor := ancestor r;
     multitable_view := multitable_view r; where_ := where_ r; derived := v;
     field_translation := field_translation r;
     table_in_first_from_clause := table_in_first_from_clause r |}.

Definition set_table_in_first_from_clause (v : bool) (r : TABLE_LIST) : TABLE_LIST :=
  {| db := db r; table_name := table_name r; alias := alias r;
     next_local := next_local r; next_global := next_global r;
     prev_global := prev_global r; table := table r;
     select_lex := select_lex r; view := view r; view_db := view_db r;
     view_name := view_name r; query := query r; md5 := md5 r;
     source := source r; timestamp := timestamp r;
     updatable_view := updatable_view r; algorithm := algorithm r;
     with_check := with_check r; revision := revision r;
     file_version := file_version r; belong_to_view := belong_to_view r;
     embedding := embedding r; join_list := join_list r;
     nested_join := nested_join r; outer_join := outer_join r;
     schema_table := schema_table r; lock_type := lock_type r;
     skip_temporary := skip_temporary r;
     prelocking_placeholder := prelocking_placeholder r;
     effective_algorithm := effective_algorithm r;
     effective_with_check := effective_with_check r;
     updatable := updatable r; ancestor := ancestor r;
     multitable_view := multitable_view r; where_ := where_ r;
     derived := derived r; field_translation := field_translation r;
     table_in_first_from_clause := v |}.

(** ** Files of the data directory *)

(** What the operating system gives for a path: whether the file can be
    opened, read and removed, and its bytes. *)
Record file_node : Type := Build_file_node {
  f_open_ok : bool;
  f_read_ok : bool;
  f_delete_ok : bool;
  f_bytes : list ascii
}.

(** The thread handler and the world around it. *)
Record state : Type := Build_state {
  thd_lex : LEX;  (* thd->lex *)
  heap : gmap ptr TABLE_LIST;  (* the TABLE_LIST objects, by address *)
  thd_net_report_error : bool;
  thd_is_fatal_error : bool;
  thd_query : string;  (* text of the statement *)
  thd_db : string;
  thd_priv_user : string;
  thd_host_or_ip : string;
  thd_options : Z;
  thd_select_number : nat;
  thd_updatable_views_with_limit : Z;  (* thd->variables.updatable_views_with_limit *)
  diagnostics : list diag;  (* my_error, my_message and push_warning calls, oldest first *)
  ok_sent : bool;  (* send_ok was called *)
  files : gmap string file_node;  (* the data directory *)
  query_cache_log : list (string * string);  (* query_cache_invalidate3 calls, oldest first *)
  yyparse_calls : nat  (* number of calls of the parser *)
}.

Definition set_thd_lex (v : LEX) (r : state) : state :=
  {| thd_lex := v; heap := heap r;
     thd_net_report_error := thd_net_report_error r;
     thd_is_fatal_error := thd_is_fatal_error r; thd_query := thd_query r;
     thd_db := thd_db r; thd_priv_user := thd_priv_user r;
     thd_host_or_ip := thd_host_or_ip r; thd_options := thd_options r;
     thd_select_number := thd_select_number r;
     thd_updatable_views_with_limit := thd_updatable_views_with_limit r;
     diagnostics := diagnostics r; ok_sent := ok_sent r; files := files r;
     query_cache_log := query_cache_log r;
     yyparse_calls := yyparse_calls r |}.

Definition set_heap (v : gmap ptr TABLE_LIST) (r : state) : state :=
  {| thd_lex := thd_lex r; heap := v;
     thd_net_report_error := thd_net_report_error r;
     thd_is_fatal_error := thd_is_fatal_error r; thd_query := thd_query r;
     thd_db := thd_db r; thd_priv_user := thd_priv_user r;
     thd_host_or_ip := thd_host_or_ip r; thd_options := thd_options r;
     thd_select_number := thd_select_number r;
     thd_updatable_views_with_limit := thd_updatable_views_with_limit r;
     diagnostics := diagnostics r; ok_sent := ok_sent r; files := files r;
     query_cache_log := query_cache_log r;
     yyparse_calls := yyparse_calls r |}.

Definition set_thd_net_report_error (v : bool) (r : state) : state :=
  {| thd_lex := thd_lex r; heap := heap r; thd_net_report_error := v;
     thd_is_fatal_error := thd_is_fatal_error r; thd_query := thd_query r;
     thd_db := thd_db r; thd_priv_user := thd_priv_user r;
     thd_host_or_ip := thd_host_or_ip r; thd_options := thd_options r;
     thd_select_number := thd_select_number r;
     thd_updatable_views_with_limit := thd_updatable_views_with_limit r;
     diagnostics := diagnostics r; ok_sent := ok_sent r; files := files r;
     query_cache_log := query_cache_log r;
     yyparse_calls := yyparse_calls r |}.

Definition set_thd_is_fatal_error (v : bool) (r : state) : state :=
  {| thd_lex := thd_lex r; heap := heap r;
     thd_net_report_error := thd_net_report_error r; thd_is_fatal_error := v;
     thd_query := thd_query r; thd_db := thd_db r;
     thd_priv_user := thd_priv_user r; thd_host_or_ip := thd_host_or_ip r;
     thd_options := thd_options r; thd_select_number := thd_select_number r;
     thd_updatable_views_with_limit := thd_updatable_views_with_limit r;
     diagnostics := diagnostics r; ok_sent := ok_sent r; files := files r;
     query_cache_log := query_cache_log r;
     yyparse_calls := yyparse_calls r |}.

Definition set_thd_select_number (v : nat) (r : state) : state :=
  {| thd_lex := thd_lex r; heap := heap r;
     thd_net_report_error := thd_net_report_error r;
     thd_is_fatal_error := thd_is_fatal_error r; thd_query := thd_query r;
     thd_db := thd_db r; thd_priv_user := thd_priv_user r;
     thd_host_or_ip := thd_host_or_ip r; thd_options := thd_options r;
     thd_select_number := v;
     thd_updatable_views_with_limit := thd_updatable_views_with_limit r;
     diagnostics := diagnostics r; ok_sent := ok_sent r; files := files r;
     query_cache_log := query_cache_log r;
     yyparse_calls := yyparse_calls r |}.

Definition set_thd_updatable_views_with_limit (v : Z) (r : state) : state :=
  {| thd_lex := thd_lex r; heap := heap r;
     thd_net_report_error := thd_net_report_error r;
     thd_is_fatal_error := thd_is_fatal_error r; thd_query := thd_query r;
     thd_db := thd_db r; thd_priv_user := thd_priv_user r;
     thd_host_or_ip := thd_host_or_ip r; thd_options := thd_options r;
     thd_select_number := thd_select_number r;
     thd_updatable_views_with_limit := v; diagnostics := diagnostics r;
     ok_sent := ok_sent r; files := files r;
     query_cache_log := query_cache_log r;
     yyparse_calls := yyparse_calls r |}.

Definition set_diagnostics (v : list diag) (r : state) : state :=
  {| thd_lex := thd_lex r; heap := heap r;
     thd_net_report_error := thd_net_report_error r;
     thd_is_fatal_error := thd_is_fatal_error r; thd_query := thd_query r;
     thd_db := thd_db r; thd_priv_user := thd_priv_user r;
     thd_host_or_ip := thd_host_or_ip r; thd_options := thd_options r;
     thd_select_number := thd_select_number r;
     thd_updatable_views_with_limit := thd_updatable_views_with_limit r;
     diagnostics := v; ok_sent := ok_sent r; files := files r;
     query_cache_log := query_cache_log r;
     yyparse_calls := yyparse_calls r |}.

Definition set_ok_sent (v : bool) (r : state) : state :=
  {| thd_lex := thd_lex r; heap := heap r;
     thd_net_report_error := thd_net_report_error r;
     thd_is_fatal_error := thd_is_fatal_error r; thd_query := thd_query r;
     thd_db := thd_db r; thd_priv_user := thd_priv_user r;
     thd_host_or_ip := thd_host_or_ip r; thd_options := thd_options r;
     thd_select_number := thd_select_number r;
     thd_updatable_views_with_limit := thd_updatable_views_with_limit r;
     diagnostics := diagnostics r; ok_sent := v; files := files r;
     query_cache_log := query_cache_log r;
     yyparse_calls := yyparse_calls r |}.

Definition set_files (v : gmap string file_node) (r : state) : state :=
  {| thd_lex := thd_lex r; heap := heap r;
     thd_net_report_error := thd_net_report_error r;
     thd_is_fatal_error := thd_is_fatal_error r; thd_query := thd_query r;
     thd_db := thd_db r; thd_priv_user := thd_priv_user r;
     thd_host_or_ip := thd_host_or_ip r; thd_options := thd_options r;
     thd_select_number := thd_select_number r;
     thd_updatable_views_with_limit := thd_updatable_views_with_limit r;
     diagnostics := diagnostics r; ok_sent := ok_sent r; files := v;
     query_cache_log := query_cache_log r;
     yyparse_calls := yyparse_calls r |}.

Definition set_query_cache_log (v : list (string * string)) (r : state) : state :=
  {| thd_lex := thd_lex r; heap := heap r;
     thd_net_report_error := thd_net_report_error r;
     thd_is_fatal_error := thd_is_fatal_error r; thd_query := thd_query r;
     thd_db := thd_db r; thd_priv_user := thd_priv_user r;
     thd_host_or_ip := thd_host_or_ip r; thd_options := thd_options r;
     thd_select_number := thd_select_number r;
     thd_updatable_views_with_limit := thd_updatable_views_with_limit r;
     diagnostics := diagnostics r; ok_sent := ok_sent r; files := files r;
     query_cache_log := v; yyparse_calls := yyparse_calls r |}.

Definition set_yyparse_calls (v : nat) (r : state) : state :=
  {| thd_lex := thd_lex r; heap := heap r;
     thd_net_report_error := thd_net_report_error r;
     thd_is_fatal_error := thd_is_fatal_error r; thd_query := thd_query r;
     thd_db := thd_db r; thd_priv_user := thd_priv_user r;
     thd_host_or_ip := thd_host_or_ip r; thd_options := thd_options r;
     thd_select_number := thd_select_number r;
     thd_updatable_views_with_limit := thd_updatable_views_with_limit r;
     diagnostics := diagnostics r; ok_sent := ok_sent r; files := files r;
     query_cache_log := query_cache_log r; yyparse_calls := v |}.

(** ** Functions of other files

    The functions below are not part of sql_view.cc.  The development is
    parametric in them. *)

(** The object [sql_parse_prepare] gives for a definition file. *)
Record File_parser : Type := Build_File_parser {
  fp_ok : bool;            (* parser->ok() *)
  fp_type : string;        (* parser->type() *)
  fp_content : list ascii
}.

(** What the SQL parser leaves behind: its return value, the LEX it
    filled, the heap with the TABLE_LIST objects it allocated, and
    [thd->is_fatal_error]. *)
Record parse_result : Type := Build_parse_result {
  pr_res : Z;
  pr_lex : LEX;
  pr_heap : gmap ptr TABLE_LIST;
  pr_fatal : bool
}.

(** What [File_parser::parse] gives: the object with the members named by
    the file filled in, or a failure, with or without a message to the
    user. *)
Inductive parse_outcome : Type :=
  | Parse_ok (t : TABLE_LIST)
  | Parse_error (reported : bool).

Class Environment : Type := Build_Environment {
  mysql_data_home : string;
  reg_ext : string;
  unpack_filename : string -> string;
  (* fn_format(to, name, dir, 0, MY_UNPACK_FILENAME): the path of the
     file [name] in the directory [dir] *)
  fn_format : string -> string -> string;
  grant_option : bool;
  VIEW_ANY_ACL_bits : Z;
  HA_NOSAME : Z;
  HA_NULL_PART_KEY : Z;
  DERIVED_VIEW : Z;
  OPTION_TO_QUERY_CACHE : Z;
  MODE_PARSING_BITS : Z;
    (* MODE_PIPES_AS_CONCAT | MODE_ANSI_QUOTES | MODE_IGNORE_SPACE |
       MODE_NO_BACKSLASH_ESCAPES *)
  (* the privilege checks answer TRUE when access is denied *)
  check_access : enum_acl -> string -> bool;
  check_grant : enum_acl -> TABLE_LIST -> bool;
  check_some_access : enum_acl -> TABLE_LIST -> bool;
  check_table_access : enum_acl -> gmap ptr TABLE_LIST -> option ptr -> bool;
  get_column_grant : string -> string -> string -> Z;
  have_privileges : Item -> Z;           (* Item_field::have_privileges *)
  field_table_tmp_table : Item -> bool;  (* fld->field->table->s->tmp_table *)
  (* open_and_lock_tables: None when it fails *)
  open_and_lock_tables :
    gmap ptr TABLE_LIST -> option ptr -> option (gmap ptr TABLE_LIST);
  (* unit->prepare: None when it fails *)
  unit_prepare : gmap ptr TABLE_LIST -> LEX -> option LEX;
  wait_if_global_read_lock : gmap string file_node -> bool;
  lex_unit_print : LEX -> string;
  calc_md5 : string -> string;
  find_table_in_global_list :
    gmap ptr TABLE_LIST -> option ptr -> string -> string -> option ptr;
  (* table->select_lex->master_unit() != &old_lex->unit, for the
     SELECT_LEX of the table *)
  not_in_main_unit : nat -> bool;
  (* LEX::unlink_first_table: the first table, the LEX without it, and
     link_to_local *)
  unlink_first_table : gmap ptr TABLE_LIST -> LEX -> option (ptr * LEX * bool);
  link_first_table_back : LEX -> ptr -> bool -> LEX;
  sql_parse_prepare : file_node -> option File_parser;
  (* File_parser::parse(base, mem_root, parameters + first, required) *)
  file_parse : File_parser -> nat -> nat -> TABLE_LIST -> parse_outcome;
  (* the bytes written for a definition *)
  definition_file_bytes : TABLE_LIST -> list ascii;
  (* whether writing the file at this path fails *)
  definition_file_write_fails : gmap string file_node -> string -> bool;
  yyparse : gmap ptr TABLE_LIST -> Z -> string -> parse_result
}.

Section Functions.
Context `{Env : Environment}.

(** ** C library and mysys *)

(** [strncmp] on arrays of characters; the end of the list stands for the
    terminating zero. *)
Fixpoint strncmp (s1 s2 : list ascii) (n : nat) : Z :=
  match n with
  | O => 0
  | S n' =>
      let c1 := hd zero s1 in
      let c2 := hd zero s2 in
      if negb (Ascii.eqb c1 c2)
      then Z.of_nat (nat_of_ascii c1) - Z.of_nat (nat_of_ascii c2)
      else if Ascii.eqb c1 zero then 0
      else strncmp (tl s1) (tl s2) n'
  end.

(** [strcmp]: zero exactly on equal strings. *)
Definition strcmp (s1 s2 : string) : Z :=
  match String.compare s1 s2 with
  | Eq => 0
  | Lt => -1
  | Gt => 1
  end.

(** [access(path, F_OK)] of the C library: 0 when the file exists. *)
Definition access (fs : gmap string file_node) (path : string) : Z :=
  match fs !! path with
  | Some _ => 0
  | None => -1
  end.

(** Modelled from the spec: the file primitives of mysys are not among the
    sources ("on-disk metadata file I/O primitives" are external
    collaborators).  [my_open] gives the file, None for a negative
    descriptor. *)
Definition my_open (fs : gmap string file_node) (path : string) : option file_node :=
  match fs !! path with
  | Some f => if f_open_ok f then Some f else None
  | None => None
  end.

Definition MY_FILE_ERROR : Z := -1.

(** Modelled from the spec: [my_read(file, buffer, count, MYF(MY_WME))] of
    mysys "reads only a fixed-size header": the number of bytes read, at
    most [count], and the bytes, or MY_FILE_ERROR. *)
Definition my_read (f : file_node) (count : nat) : Z * list ascii :=
  if f_read_ok f
  then (Z.of_nat (length (take count (f_bytes f))), take count (f_bytes f))
  else (MY_FILE_ERROR, []).

(** Modelled from the spec: [my_delete(path, MYF(MY_WME))] of mysys
    "delete[s] the persisted record": None when the file cannot be
    removed. *)
Definition my_delete (fs : gmap string file_node) (path : string)
  : option (gmap string file_node) :=
  match fs !! path with
  | Some f => if f_delete_ok f then Some (delete path fs) else None
  | None => None
  end.

(** ** Diagnostics area, query cache, acknowledgement *)

(** Modelled from the spec: the diagnostics area is not among the sources.
    "Failure returns a structured error (kind + offending identifier)":
    [my_error] and [my_message] record the code and the arguments and set
    [thd->net.report_error]; [push_warning] records a warning or a note. *)
Definition push_diag (d : diag) (st : state) : state :=
  set_diagnostics (diagnostics st ++ [d]) st.

Definition my_error (code : er_code) (args : list string) (st : state) : state :=
  set_thd_net_report_error true (push_diag (Diag LEVEL_ERROR code args) st).

Definition my_message (code : er_code) (st : state) : state :=
  my_error code [] st.

Definition push_warning (level : diag_level) (code : er_code)
    (args : list string) (st : state) : state :=
  push_diag (Diag level code args) st.

(** Modelled from the spec: "Result-cache: invalidate(qualified_name)". *)
Definition query_cache_invalidate3 (view : TABLE_LIST) (st : state) : state :=
  set_query_cache_log (query_cache_log st ++ [(db view, table_name view)]) st.

(** Modelled from the spec: "success returns an acknowledgement". *)
Definition send_ok (st : state) : state := set_ok_sent true st.

(** ** Lists threaded through the heap *)

(** The elements reached from [p] through the member [next], with their
    contents; None when the list does not end within [fuel] steps or
    leaves the heap. *)
Fixpoint walk (next : TABLE_LIST -> option ptr) (h : gmap ptr TABLE_LIST)
    (fuel : nat) (p : option ptr) : option (list (ptr * TABLE_LIST)) :=
  match p with
  | None => Some []
  | Some a =>
      match fuel with
      | O => None
      | S fuel' =>
          match h !! a with
          | None => None
          | Some t =>
              match walk next h fuel' (next t) with
              | None => None
              | Some l => Some ((a, t) :: l)
              end
          end
      end
  end.

Definition global_list (h : gmap ptr TABLE_LIST) (p : option ptr) :=
  walk next_global h (size h) p.

Definition local_list (h : gmap ptr TABLE_LIST) (p : option ptr) :=
  walk next_local h (size h) p.

Definition embedding_list (h : gmap ptr TABLE_LIST) (p : option ptr) :=
  walk embedding h (size h) p.

(** ** mysql_frm_type *)

Definition view_header : list ascii :=
  list_ascii_of_string "TYPE=VIEW" ++ ["010"%char].

Definition mysql_frm_type (fs : gmap string file_node) (path : string)
  : frm_type_enum :=
  match my_open fs path with
  | None => FRMTYPE_ERROR
  | Some file =>
      let '(length, header) := my_read file 10 in
      if length =? MY_FILE_ERROR then FRMTYPE_ERROR
      else if (length <? 10) || (strncmp header view_header 10 =? 0)
      then FRMTYPE_VIEW
      else FRMTYPE_TABLE
  end.

(** ** mysql_drop_view *)

Definition frm_path (view : TABLE_LIST) : string :=
  unpack_filename
    (mysql_data_home +:+ "/" +:+ db view +:+ "/" +:+ table_name view +:+ reg_ext).

(** The loop over the views.  [type] is the local variable of that name:
    it is declared outside the loop and keeps its value when [access]
    fails.  The result is TRUE after [goto err].  LOCK_open, taken and
    released around every name, is not represented, and the path is not
    cut at FN_REFLEN. *)
Fixpoint mysql_drop_view_loop (views : list TABLE_LIST) (type : bool)
    (st : state) : bool * state :=
  match views with
  | [] => (false, send_ok st)
  | view :: rest =>
      let path := frm_path view in
      let '(failed, type) :=
        if negb (access (files st) path =? 0) then (true, type)
        else
          let t := negb (bool_decide (mysql_frm_type (files st) path = FRMTYPE_VIEW)) in
          (t, t) in
      if failed then
        let name := db view +:+ "." +:+ table_name view in
        if lex_drop_if_exists (thd_lex st) then
          mysql_drop_view_loop rest type
            (push_warning WARN_LEVEL_NOTE ER_BAD_TABLE_ERROR [name] st)
        else if type then
          (true, my_error ER_WRONG_OBJECT [db view; table_name view; "VIEW"] st)
        else
          (true, my_error ER_BAD_TABLE_ERROR [name] st)
      else
        match my_delete (files st) path with
        | None => (true, st)
        | Some fs' =>
            mysql_drop_view_loop rest type
              (query_cache_invalidate3 view (set_files fs' st))
        end
  end.

Definition mysql_drop_view (st : state) (views : option ptr)
  : option (bool * state) :=
  match local_list (heap st) views with
  | None => None
  | Some l => Some (mysql_drop_view_loop (l.*2) false st)
  end.





(** ** check_key_in_view *)

(** The inner loop over the translation table:
    [for (k= 0; k < elements_in_view; k++)] leaving at the first entry that
    is a reference to [f].  The value is [k] after the loop, None when
    [trans] is read outside its bounds. *)
Fixpoint find_in_view (trans : list Item) (f : Field) (k remaining : nat)
  : option nat :=
  match remaining with
  | O => Some k
  | S remaining' =>
      match trans !! k with
      | None => None
      | Some item =>
          match filed_for_view_update item with
          | Some fld =>
              if Nat.eqb fld f then Some k
              else find_in_view trans f (S k) remaining'
          | None => find_in_view trans f (S k) remaining'
          end
      end
  end.

(** The loop [for (;;)] over the parts of one key: Some true at "Found
    usable key", Some false at "Key is not possible".  A key without parts
    makes the code read [key_part[0]] outside the array: None. *)
Fixpoint all_key_parts_used (trans : list Item) (elements_in_view : nat)
    (parts : list Field) : option bool :=
  match parts with
  | [] => None
  | part :: rest =>
      match find_in_view trans part 0 elements_in_view with
      | None => None
      | Some k =>
          if Nat.eqb k elements_in_view then Some false
          else
            match rest with
            | [] => Some true
            | _ :: _ => all_key_parts_used trans elements_in_view rest
            end
      end
  end.

Definition unique_not_null (key : KEY) : bool :=
  Z.land (flags key) (Z.lor HA_NOSAME HA_NULL_PART_KEY) =? HA_NOSAME.

(** The loop over the keys: Some true when a usable key was found. *)
Fixpoint usable_key_found (trans : list Item) (elements_in_view : nat)
    (keys : list KEY) : option bool :=
  match keys with
  | [] => Some false
  | key :: rest =>
      if unique_not_null key then
        match all_key_parts_used trans elements_in_view (key_part key) with
        | None => None
        | Some true => Some true
        | Some false => usable_key_found trans elements_in_view rest
        end
      else usable_key_found trans elements_in_view rest
  end.

(** The loop over the fields of the table: Some true when a field of the
    table is missing in the view. *)
Fixpoint field_missing (trans : list Item) (elements_in_view : nat)
    (fields : list Field) : option bool :=
  match fields with
  | [] => Some false
  | f :: rest =>
      match find_in_view trans f 0 elements_in_view with
      | None => None
      | Some i =>
          if Nat.eqb i elements_in_view then Some true
          else field_missing trans elements_in_view rest
      end
  end.

(** The result is None when the code dereferences a null pointer, reads
    outside an array or fails its assertion. *)
Definition check_key_in_view (st : state) (view_ptr : ptr)
  : option (bool * state) :=
  match heap st !! view_ptr with
  | None => None
  | Some v =>
      if (negb (bool_decide (is_Some (view v)))
            && negb (bool_decide (is_Some (belong_to_view v))))
         || bool_decide (lex_sql_command (thd_lex st) = SQLCOM_INSERT)
         || (sl_select_limit (lex_select_lex (thd_lex st)) =? 0)
      then Some (false, st)
      else
        let tab := table v in
        match (match belong_to_view v with
               | Some top => heap st !! top
               | None => Some v
               end) with
        | None => None
        | Some v =>
            match tab, field_translation v, view v with
            | Some tab, Some trans, Some vlex =>
                let elements_in_view :=
                  length (sl_item_list (lex_select_lex vlex)) in
                match usable_key_found trans elements_in_view (key_info tab) with
                | None => None
                | Some true => Some (false, st)
                | Some false =>
                    match field_missing trans elements_in_view (field tab) with
                    | None => None
                    | Some true =>
                        if negb (thd_updatable_views_with_limit st =? 0) then
                          Some (false,
                                push_warning WARN_LEVEL_NOTE
                                  ER_WARN_VIEW_WITHOUT_KEY [] st)
                        else Some (true, st)
                    | Some false => Some (false, st)
                    end
                end
            | _, _, _ => None
            end
        end
  end.


(** ** mysql_register_view *)

(** index of revision number in [view_parameters] *)
Definition revision_number_position : nat := 5.
(** index of last required parameter for making view *)
Definition required_view_parameters : nat := 7.

Definition frm_dir (v : TABLE_LIST) : string :=
  unpack_filename (mysql_data_home +:+ "/" +:+ db v +:+ "/").

Definition frm_file (v : TABLE_LIST) : string := table_name v +:+ reg_ext.

Definition store (p : ptr) (v : TABLE_LIST) (st : state) : state :=
  set_heap (<[p := v]> (heap st)) st.

(** Modelled from the spec: [sql_create_definition_file] of parse_file.cc
    is not among the sources.  The member [revision] is a revision counter
    that starts at 1 ("set revision = previous_revision + 1 (or 1 for
    NEW)"): writing a definition adds one to the revision held by the
    object, a 64-bit unsigned number, and replaces the record at the path
    of the definition.  The result is the object and the files, None for
    the files when writing fails. *)
Definition sql_create_definition_file (dir file : string) (v : TABLE_LIST)
    (fs : gmap string file_node) : TABLE_LIST * option (gmap string file_node) :=
  let v' := set_revision ((revision v + 1) mod 2 ^ 64) v in
  let path := fn_format file dir in
  if definition_file_write_fails fs path then (v', None)
  else
    (v', Some (<[path := {| f_open_ok := true; f_read_ok := true;
                            f_delete_ok := true;
                            f_bytes := definition_file_bytes v' |}]> fs)).

(** The block "check old .frm": [inl] is a DBUG_RETURN with its value,
    [inr] goes on with the view object. *)
Definition check_old_frm (st : state) (v : TABLE_LIST)
    (mode : enum_view_create_mode) : Z * state + TABLE_LIST * state :=
  let path := fn_format (frm_file v) (frm_dir v) in
  if access (files st) path =? 0 then
    if bool_decide (mode = VIEW_CREATE_NEW) then
      inl (-1, my_error ER_TABLE_EXISTS_ERROR [alias v] st)
    else
      match files st !! path ≫= sql_parse_prepare with
      | None => inl (1, set_thd_net_report_error true st)
      | Some parser =>
          if negb (fp_ok parser)
             || negb (strncmp (list_ascii_of_string "VIEW")
                              (list_ascii_of_string (fp_type parser))
                              (String.length (fp_type parser)) =? 0)
          then inl (-1, my_error ER_WRONG_OBJECT [db v; table_name v; "VIEW"] st)
          else
            match file_parse parser revision_number_position 1 v with
            | Parse_error reported =>
                let st' :=
                  if reported then set_thd_net_report_error true st else st in
                inl (if thd_net_report_error st' then -1 else 0, st')
            | Parse_ok v' => inr (v', st)
            end
      end
  else if bool_decide (mode = VIEW_ALTER) then
    inl (-1, my_error ER_NO_SUCH_TABLE [db v; alias v] st)
  else inr (v, st).

(** [for (TABLE_LIST *up= tbl; up; up= up->embedding)]: some [up] has
    [outer_join] set. *)
Definition under_outer_join (ups : list (ptr * TABLE_LIST)) : bool :=
  existsb (fun up => negb (outer_join up.2 =? 0)) ups.

(** The loop over the tables of the main select: the value it leaves in
    [view->updatable_view]. *)
Fixpoint updatable_tables_loop (h : gmap ptr TABLE_LIST)
    (tbls : list (ptr * TABLE_LIST)) : option bool :=
  match tbls with
  | [] => Some true
  | (p, tbl) :: rest =>
      if (bool_decide (is_Some (view tbl)) && (updatable_view tbl =? 0))
         || schema_table tbl
      then Some false
      else
        match embedding_list h (Some p) with
        | None => None
        | Some ups =>
            if under_outer_join ups then Some false
            else updatable_tables_loop h rest
        end
  end.

(** The value of [view->updatable_view] at the test of the check option. *)
Definition compute_updatable (h : gmap ptr TABLE_LIST) (lex : LEX)
    (can_be_merged : bool) (v : TABLE_LIST) : option bool :=
  let first := sl_table_list_first (lex_select_lex lex) in
  match
    (if can_be_merged
        && negb (bool_decide (algorithm v = VIEW_ALGORITHM_TMPTABLE))
     then
       match local_list h first with
       | None => None
       | Some tbls => updatable_tables_loop h tbls
       end
     else Some false)
  with
  | None => None
  | Some false => Some false
  | Some true =>
      if bool_decide (lex_next_selects lex = []) then
        match first ≫= (h !!.) with
        | None => None
        | Some ft =>
            if bool_decide (next_local ft = None) then
              match lex_query_tables lex ≫= (h !!.) with
              | None => None
              | Some qt =>
                  if bool_decide
                       (is_Some (find_table_in_global_list h (next_global qt)
                                   (db qt) (table_name qt)))
                  then Some false
                  else Some true
              end
            else Some true
        end
      else Some true
  end.

(** The block "fill structure" with the choice of the algorithm: the
    state, the view object and the local variable [can_be_merged]. *)
Definition fill_structure (st : state) (view_ptr : ptr) (v : TABLE_LIST)
  : state * TABLE_LIST * bool :=
  let str := lex_unit_print (thd_lex st) in
  let v := set_query str v in
  let v := set_source (thd_query st) v in
  let v := set_file_version 1 v in
  let v := set_md5 (calc_md5 (query v)) v in
  let lex := thd_lex st in
  let can_be_merged := lex_can_be_merged lex in
  let '(lex, st) :=
    if bool_decide (lex_create_view_algorithm lex = VIEW_ALGORITHM_MERGE)
       && negb (lex_can_be_merged lex)
    then (set_lex_create_view_algorithm VIEW_ALGORITHM_UNDEFINED lex,
          push_warning WARN_LEVEL_WARN ER_WARN_VIEW_MERGE [] st)
    else (lex, st) in
  let st := set_thd_lex lex st in
  let v := set_algorithm (lex_create_view_algorithm lex) v in
  let v := set_with_check (lex_create_view_check lex) v in
  (store view_ptr v st, v, can_be_merged).

(** The code from "fill structure" to the end. *)
Definition register_definition (st : state) (view_ptr : ptr) (v : TABLE_LIST)
  : option (Z * state) :=
  let '(st, v, can_be_merged) := fill_structure st view_ptr v in
  match compute_updatable (heap st) (thd_lex st) can_be_merged v with
  | None => None
  | Some upd =>
      let v := set_updatable_view (Z.b2z upd) v in
      let st := store view_ptr v st in
      if negb (bool_decide (with_check v = VIEW_CHECK_NONE)) && negb upd
      then Some (-1, my_error ER_VIEW_NONUPD_CHECK [db v; table_name v] st)
      else
        let '(v, fs) :=
          sql_create_definition_file (frm_dir v) (frm_file v) v (files st) in
        let st := store view_ptr v st in
        match fs with
        | None => Some (if thd_net_report_error st then -1 else 1, st)
        | Some fs => Some (0, set_files fs st)
        end
  end.

(** The result is the value returned (0 ok, -1 error, 1 error and message
    given) and the state, None when the code dereferences a null pointer or
    does not leave a loop.  Not represented: the buffers of the file names
    and their bound FN_REFLEN, MODE_ANSI_QUOTES switched off while the
    query is printed, the buffer given to [timestamp]. *)
Definition mysql_register_view (st : state) (view_ptr : ptr)
    (mode : enum_view_create_mode) : option (Z * state) :=
  match heap st !! view_ptr with
  | None => None
  | Some v =>
      match check_old_frm st v mode with
      | inl res => Some res
      | inr (v, st) => register_definition st view_ptr v
      end
  end.

(** ** mysql_create_view *)

(** The label [err]: the target is linked back and the result is
    [res || thd->net.report_error]. *)
Definition goto_err (st : state) (view_ptr : ptr) (link_to_local : bool)
    (res : bool) : bool * state :=
  let st := set_thd_lex (link_first_table_back (thd_lex st) view_ptr link_to_local) st in
  (res || thd_net_report_error st, st).

Definition all_selects (lex : LEX) : list SELECT_LEX :=
  lex_select_lex lex :: lex_next_selects lex.

(** The loop over the tables of one select: TRUE when access to a table is
    denied; the tables passed are marked. *)
Fixpoint check_tables_of_select (tbls : list (ptr * TABLE_LIST)) (st : state)
  : bool * state :=
  match tbls with
  | [] => (false, st)
  | (p, tbl) :: rest =>
      if check_some_access VIEW_ANY_ACL tbl then
        (true,
         my_error ER_TABLEACCESS_DENIED_ERROR
           ["ANY"; thd_priv_user st; thd_host_or_ip st; table_name tbl] st)
      else
        check_tables_of_select rest
          (set_heap (alter (set_table_in_first_from_clause true) p (heap st)) st)
  end.

Fixpoint check_tables_of_selects (sls : list SELECT_LEX) (st : state)
  : option (bool * state) :=
  match sls with
  | [] => Some (false, st)
  | sl :: rest =>
      match local_list (heap st) (sl_table_list_first sl) with
      | None => None
      | Some tbls =>
          let '(denied, st) := check_tables_of_select tbls st in
          if denied then Some (true, st) else check_tables_of_selects rest st
      end
  end.

(** "check tables of subqueries" *)
Definition subquery_table_denied (tbls : list (ptr * TABLE_LIST)) : bool :=
  existsb
    (fun tbl =>
       negb (table_in_first_from_clause tbl.2)
       && (check_access SELECT_ACL (db tbl.2)
           || grant_option && check_grant SELECT_ACL tbl.2))
    tbls.

(** What the loop after [open_and_lock_tables] finds at a table. *)
Inductive table_verdict : Type :=
  | Table_ok
  | Table_temporary
  | Table_is_the_view
  | Table_not_opened.

Definition examine_table (v tbl : TABLE_LIST) : table_verdict :=
  match table tbl with
  | None => Table_not_opened
  | Some tab =>
      if negb (bool_decide (s_tmp_table tab = NO_TMP_TABLE))
         && negb (bool_decide (is_Some (view tbl)))
         && negb (schema_table tbl)
      then Table_temporary
      else if bool_decide (is_Some (view tbl))
              && (strcmp (view_db tbl) (db v) =? 0)
              && (strcmp (view_name tbl) (table_name v) =? 0)
      then Table_is_the_view
      else Table_ok
  end.

(** The loop over the opened tables: the first table that stops it. *)
Fixpoint examine_tables (v : TABLE_LIST) (tbls : list (ptr * TABLE_LIST))
  : table_verdict * option TABLE_LIST :=
  match tbls with
  | [] => (Table_ok, None)
  | (_, tbl) :: rest =>
      match examine_table v tbl with
      | Table_ok => examine_tables v rest
      | verdict => (verdict, Some tbl)
      end
  end.

(** "view list (list of view fields names)": the names are given to the
    items by position. *)
Fixpoint set_names (items : list Item) (names : list string) : list Item :=
  match items, names with
  | item :: items', n :: names' => set_name n item :: set_names items' names'
  | _, _ => items
  end.

(** "Test absence of duplicates names": the first item whose name is the
    name of an item before it. *)
Fixpoint dup_fieldname_from (before rest : list Item) : option string :=
  match rest with
  | [] => None
  | item :: rest' =>
      if existsb (fun check => strcmp (name item) (name check) =? 0) before
      then Some (name item)
      else dup_fieldname_from (before ++ [item]) rest'
  end.

Definition dup_fieldname (items : list Item) : option string :=
  match items with
  | [] => None
  | first :: rest => dup_fieldname_from [first] rest
  end.

(** "Compare/check grants on view with grants of underlying tables": the
    first column of the view with more privileges than its field. *)
Definition more_privileges (v : TABLE_LIST) (item : Item) : bool :=
  let priv :=
    Z.land (get_column_grant (db v) (table_name v) (name item)) VIEW_ANY_ACL_bits in
  match filed_for_view_update item with
  | Some _ =>
      negb (field_table_tmp_table item)
      && negb (Z.land (Z.lnot (have_privileges item)) priv =? 0)
  | None => false
  end.

Definition column_with_more_privileges (v : TABLE_LIST) (lex : LEX)
  : option Item :=
  List.find (more_privileges v) (concat (map sl_item_list (all_selects lex))).

(** The last part: registration under LOCK_open, invalidation of the
    query cache, acknowledgement. *)
Definition register_and_invalidate (st : state) (view_ptr : ptr)
    (link_to_local : bool) (mode : enum_view_create_mode)
  : option (bool * state) :=
  if wait_if_global_read_lock (files st) then
    Some (goto_err st view_ptr link_to_local true)
  else
    match mysql_register_view st view_ptr mode with
    | None => None
    | Some (res, st) =>
        match heap st !! view_ptr with
        | None => None
        | Some v =>
            let st :=
              if negb (revision v =? 1) then query_cache_invalidate3 v st
              else st in
            if negb (res =? 0) then
              Some (goto_err st view_ptr link_to_local true)
            else
              let st := send_ok st in
              Some (false,
                    set_thd_lex
                      (link_first_table_back (thd_lex st) view_ptr link_to_local)
                      st)
        end
    end.

(** The part between [open_and_lock_tables] and the registration. *)
Definition prepare_and_check (st : state) (view_ptr : ptr) (v : TABLE_LIST)
    (link_to_local : bool) (mode : enum_view_create_mode)
  : option (bool * state) :=
  let st := set_thd_lex (set_lex_view_prepare_mode true (thd_lex st)) st in
  match unit_prepare (heap st) (thd_lex st) with
  | None => Some (goto_err st view_ptr link_to_local true)
  | Some lex =>
      let st := set_thd_lex lex st in
      let items := sl_item_list (lex_select_lex lex) in
      if negb (Nat.eqb (length (lex_view_list lex)) 0)
         && negb (Nat.eqb (length (lex_view_list lex)) (length items))
      then
        Some (goto_err (my_message ER_VIEW_WRONG_LIST st) view_ptr
                link_to_local false)
      else
        let items := set_names items (lex_view_list lex) in
        let lex := set_lex_select_lex (set_sl_item_list items (lex_select_lex lex)) lex in
        let st := set_thd_lex lex st in
        match dup_fieldname items with
        | Some n => Some (true, my_error ER_DUP_FIELDNAME [n] st)
        | None =>
            match column_with_more_privileges v lex with
            | Some item =>
                Some (true,
                      my_error ER_COLUMNACCESS_DENIED_ERROR
                        ["create view"; thd_priv_user st; thd_host_or_ip st;
                         name item; table_name v] st)
            | None => register_and_invalidate st view_ptr link_to_local mode
            end
        end
  end.

(** The part from [open_and_lock_tables] on. *)
Definition open_and_check (st : state) (view_ptr : ptr) (v : TABLE_LIST)
    (link_to_local : bool) (mode : enum_view_create_mode)
  : option (bool * state) :=
  let tables := lex_query_tables (thd_lex st) in
  match open_and_lock_tables (heap st) tables with
  | None => Some (true, st)
  | Some h =>
      let st := set_heap h st in
      match global_list (heap st) tables with
      | None => None
      | Some tbls =>
          match examine_tables v tbls with
          | (Table_not_opened, _) => None
          | (Table_temporary, Some tbl) =>
              Some (goto_err (my_error ER_VIEW_SELECT_TMPTABLE [alias tbl] st)
                      view_ptr link_to_local true)
          | (Table_is_the_view, Some tbl) =>
              Some (goto_err
                      (my_error ER_NO_SUCH_TABLE [view_db tbl; view_name tbl] st)
                      view_ptr link_to_local true)
          | _ => prepare_and_check st view_ptr v link_to_local mode
          end
      end
  end.

(** The privilege checks before the tables are opened: [inl] is a
    DBUG_RETURN or a [goto err] with its result, [inr] goes on. *)
Definition check_privileges (st : state) (view_ptr : ptr) (v : TABLE_LIST)
    (link_to_local : bool) (mode : enum_view_create_mode)
  : option (bool * state + state) :=
  if (check_access CREATE_VIEW_ACL (db v)
      || grant_option && check_grant CREATE_VIEW_ACL v)
     || (negb (bool_decide (mode = VIEW_CREATE_NEW))
         && (check_access DROP_ACL (db v)
             || grant_option && check_grant DROP_ACL v))
  then Some (inl (true, st))
  else
    match check_tables_of_selects (all_selects (thd_lex st)) st with
    | None => None
    | Some (true, st) => Some (inl (true, st))
    | Some (false, st) =>
        if lex_has_subselects (thd_lex st) then
          match global_list (heap st) (lex_query_tables (thd_lex st)) with
          | None => None
          | Some tbls =>
              if subquery_table_denied tbls
              then Some (inl (goto_err st view_ptr link_to_local true))
              else Some (inr st)
          end
        else Some (inr st)
    end.

(** The result is TRUE on error.  None when the code dereferences a null
    pointer or does not leave a loop.  Not represented: [proc_info] and
    [unit->cleanup()], the privileges loaded into the [grant] members for
    the later checks of the columns, the mark [any_privileges] of the
    fields, LOCK_open and [start_waiting_global_read_lock]. *)
Definition mysql_create_view (st : state) (mode : enum_view_create_mode)
  : option (bool * state) :=
  match unlink_first_table (heap st) (thd_lex st) with
  | None => None
  | Some (view_ptr, lex, link_to_local) =>
      let st := set_thd_lex lex st in
      match heap st !! view_ptr with
      | None => None
      | Some v =>
          if lex_proc_list_first lex || lex_result lex then
            Some (goto_err
                    (my_error ER_VIEW_SELECT_CLAUSE
                       [if lex_result lex then "INTO" else "PROCEDURE"] st)
                    view_ptr link_to_local true)
          else if negb (lex_derived_tables lex =? 0)
                  || lex_variables_used lex
                  || negb (Nat.eqb (lex_param_list_elements lex) 0)
          then
            Some (goto_err
                    (my_message
                       (if negb (lex_derived_tables lex =? 0)
                        then ER_VIEW_SELECT_DERIVED
                        else ER_VIEW_SELECT_VARIABLE) st)
                    view_ptr link_to_local true)
          else
            match check_privileges st view_ptr v link_to_local mode with
            | None => None
            | Some (inl res) => Some res
            | Some (inr st) => open_and_check st view_ptr v link_to_local mode
            end
      end
  end.

(** ** mysql_make_view *)

(** Assignment to members of the object at [p]. *)
Definition upd (p : ptr) (f : TABLE_LIST -> TABLE_LIST) (st : state) : state :=
  set_heap (alter f p (heap st)) st.

Definition upd_each (ps : list ptr) (f : TABLE_LIST -> TABLE_LIST) (st : state)
  : state :=
  foldl (fun st p => upd p f st) st ps.

(** The label [err]: the node is no view placeholder any more. *)
Definition make_view_err (st : state) (table_ptr : ptr) : Z * state :=
  (1, upd table_ptr (set_view None) st).

(** "Put tables of VIEW after VIEW TABLE_LIST" *)
Definition splice_view_tables (table_ptr : ptr) (view_tables : option ptr)
    (view_tables_tail : option ptr) (st : state) : option state :=
  match view_tables with
  | None => Some st
  | Some vt =>
      match view_tables_tail, heap st !! table_ptr with
      | Some tail, Some t =>
          let st :=
            match next_global t with
            | Some nxt =>
                let st := upd tail (set_next_global (Some nxt)) st in
                upd nxt (set_prev_global (Some (In_next_global tail))) st
            | None =>
                set_thd_lex
                  (set_lex_query_tables_last (In_next_global tail) (thd_lex st)) st
            end in
          let st := upd vt (set_prev_global (Some (In_next_global table_ptr))) st in
          Some (upd table_ptr (set_next_global (Some vt)) st)
      | _, _ => None
      end
  end.

(** The MERGE branch, up to [goto ok].  The memory for the nested join
    is taken to be there: the exit [goto err] after a [thd->calloc] that
    fails is not represented. *)
Definition make_view_merge (st : state) (table_ptr : ptr) (lex : LEX)
    (view_tables : option ptr) : option state :=
  match view_tables with
  | None => None   (* DBUG_ASSERT(view_tables != 0) *)
  | Some vt =>
      let view_select := lex_select_lex lex in
      let st :=
        upd table_ptr
          (fun t =>
             set_ancestor view_tables
               (set_effective_with_check (with_check t)
                  (set_updatable (negb (updatable_view t =? 0))
                     (set_effective_algorithm VIEW_ALGORITHM_MERGE t)))) st in
      match heap st !! table_ptr,
            local_list (heap st) (sl_table_list_first view_select) with
      | Some t, Some locals =>
          let st := upd_each (locals.*1) (set_select_lex (select_lex t)) st in
          match heap st !! vt with
          | None => None
          | Some first =>
              let st :=
                if bool_decide (is_Some (next_local first))
                then upd table_ptr (set_multitable_view true) st
                else st in
              (* make nested join structure for view tables *)
              let st :=
                upd table_ptr
                  (set_nested_join
                     (Some {| nj_join_list := sl_top_join_list view_select |})) st in
              (* re-nest tables of VIEW *)
              let st :=
                upd_each (sl_top_join_list view_select)
                  (fun tbl =>
                     set_embedding (Some table_ptr)
                       (set_join_list (Some (Join_list_of_nested table_ptr)) tbl)) st in
              (* Store WHERE clause for post-processing in setup_ancestor *)
              Some (upd table_ptr (set_where_ (sl_where view_select)) st)
          end
      | _, _ => None
      end
  end.

(** The TEMPORARY TABLE branch: the state and the LEX of the view. *)
Definition make_view_tmptable (st : state) (table_ptr : ptr) (lex : LEX)
  : state * LEX :=
  let st := upd table_ptr (set_effective_algorithm VIEW_ALGORITHM_TMPTABLE) st in
  let lex := set_lex_select_lex (set_sl_linkage DERIVED_TABLE_TYPE (lex_select_lex lex)) lex in
  let st := upd table_ptr (set_updatable false) st in
  let st := upd table_ptr (set_effective_with_check VIEW_CHECK_NONE) st in
  let st := set_thd_lex (set_lex_subqueries true (thd_lex st)) st in
  let st :=
    upd table_ptr (set_derived (Some (sl_select_number (lex_select_lex lex)))) st in
  (st, lex).

(** The labels [ok] and [ok2]: the node keeps the LEX of the view. *)
Definition make_view_ok (st : state) (table_ptr : ptr) (lex : LEX)
  : option (Z * state) :=
  match heap st !! table_ptr with
  | None => None
  | Some _ => Some (0, upd table_ptr (set_view (Some lex)) st)
  end.

(** "Check rights to run commands (EXPLAIN SELECT & SHOW CREATE) which show
    underlying tables": the state at [goto err], None when the commands
    may go on. *)
Definition view_access_denied (st : state) (table_ptr : ptr) (t : TABLE_LIST)
    (view_tables : option ptr) : option state :=
  let old_lex := thd_lex st in
  if negb (prelocking_placeholder t)
     && (bool_decide (lex_sql_command old_lex = SQLCOM_SELECT)
         && negb (lex_describe old_lex =? 0))
  then
    if check_table_access SELECT_ACL (heap st) view_tables
       && check_table_access SHOW_VIEW_ACL (heap st) (Some table_ptr)
    then Some (my_message ER_VIEW_NO_EXPLAIN st)
    else None
  else if negb (prelocking_placeholder t)
          && bool_decide (lex_sql_command old_lex = SQLCOM_SHOW_CREATE)
  then
    if check_table_access SHOW_VIEW_ACL (heap st) (Some table_ptr)
    then Some st
    else None
  else None.

(** The choice between the algorithms:
    - algorithm is not explicit TEMPORARY TABLE
    - VIEW SELECT allow merging
    - VIEW used in subquery or command support MERGE algorithm *)
Definition merge_ability (t : TABLE_LIST) (lex old_lex : LEX) : bool :=
  negb (bool_decide (algorithm t = VIEW_ALGORITHM_TMPTABLE))
  && lex_can_be_merged lex
  && (not_in_main_unit (select_lex t) || lex_can_use_merged old_lex)
  && negb (lex_can_not_use_merged old_lex).

(** What the node takes over from the LEX of the view into the LEX of the
    statement before the algorithm is chosen. *)
Definition move_options (lex old_lex : LEX) : LEX :=
  let old_lex :=
    set_lex_derived_tables
      (Z.lor (lex_derived_tables old_lex) DERIVED_VIEW) old_lex in
  (* move SQL_NO_CACHE & Co to whole query *)
  let old_lex :=
    set_lex_safe_to_cache_query
      (lex_safe_to_cache_query old_lex && lex_safe_to_cache_query lex)
      old_lex in
  (* move SQL_CACHE to whole query *)
  if negb (Z.land (sl_options (lex_select_lex lex)) OPTION_TO_QUERY_CACHE =? 0)
  then
    set_lex_select_lex
      (set_sl_options
         (Z.lor (sl_options (lex_select_lex old_lex)) OPTION_TO_QUERY_CACHE)
         (lex_select_lex old_lex)) old_lex
  else old_lex.

(** The view tables are marked and put into the global list of the
    statement, and the tables of the main select get the lock type of the
    node. *)
Definition link_view_tables (st : state) (table_ptr : ptr) (t : TABLE_LIST)
    (lex : LEX) : option state :=
  let top_view :=
    match belong_to_view t with
    | Some top => top
    | None => table_ptr
    end in
  let view_tables := lex_query_tables lex in
  match global_list (heap st) view_tables with
  | None => None
  | Some tbls =>
      (* mark to avoid temporary table using and put view reference and
         find last view table *)
      let st :=
        upd_each (tbls.*1)
          (fun tbl =>
             set_belong_to_view (Some top_view) (set_skip_temporary true tbl))
          st in
      let view_tables_tail := last (tbls.*1) in
      match splice_view_tables table_ptr view_tables view_tables_tail st with
      | None => None
      | Some st =>
          if bool_decide (lex_next_selects lex = []) then
            match local_list (heap st) (sl_table_list_first (lex_select_lex lex)) with
            | None => None
            | Some locals =>
                Some (upd_each (locals.*1) (set_lock_type (lock_type t)) st)
            end
          else Some st
      end
  end.

(** The code from the test of [prelocking_placeholder] to the end. *)
Definition choose_algorithm (st : state) (table_ptr : ptr) (t : TABLE_LIST)
    (lex : LEX) : option (Z * state) :=
  if prelocking_placeholder t then make_view_ok st table_ptr lex
  else
    let st := set_thd_lex (move_options lex (thd_lex st)) st in
    if merge_ability t lex (thd_lex st) then
      match make_view_merge st table_ptr lex (lex_query_tables lex) with
      | None => None
      | Some st => make_view_ok st table_ptr lex
      end
    else
      let '(st, lex) := make_view_tmptable st table_ptr lex in
      make_view_ok st table_ptr lex.

(** The code after a successful parse of the query of the view. *)
Definition make_view_parsed (st : state) (table_ptr : ptr) (lex : LEX)
  : option (Z * state) :=
  match heap st !! table_ptr with
  | None => None
  | Some t =>
      match view_access_denied st table_ptr t (lex_query_tables lex) with
      | Some st => Some (make_view_err st table_ptr)
      | None =>
          match link_view_tables st table_ptr t lex with
          | None => None
          | Some st => choose_algorithm st table_ptr t lex
          end
      end
  end.

(** The code up to the test of the result of the parser: [inr] is the
    state and the LEX of the view after a successful parse, [inl] the state
    at [goto err]. *)
Definition parse_view (st : state) (parser : File_parser) (table_ptr : ptr)
    (t : TABLE_LIST) : state + state * LEX :=
  match file_parse parser 0 required_view_parameters t with
  | Parse_error reported =>
      inl (if reported then set_thd_net_report_error true st else st)
  | Parse_ok t =>
      (* Save VIEW parameters *)
      let t := set_view_name (table_name t) (set_view_db (db t) t) in
      let st := store table_ptr t st in
      let st := set_thd_select_number (S (thd_select_number st)) st in
      let r :=
        yyparse (heap st)
          (Z.land (thd_options st) (Z.lnot MODE_PARSING_BITS)) (query t) in
      let st := set_yyparse_calls (S (yyparse_calls st)) st in
      let st := set_heap (pr_heap r) st in
      let st := set_thd_is_fatal_error (thd_is_fatal_error st || pr_fatal r) st in
      let lex :=
        set_lex_select_lex
          (set_sl_select_number (thd_select_number st)
             (lex_select_lex (pr_lex r))) (pr_lex r) in
      if (pr_res r =? 0) && negb (thd_is_fatal_error st) then inr (st, lex)
      else inl st
  end.

(** The result is the value returned (0 ok, 1 error) and the state; None
    when the code dereferences a null pointer, fails its assertion or does
    not leave a loop.  The node gets the LEX of the view at the labels [ok]
    and [ok2], when its contents are final; the code stores the pointer
    before it parses and clears it at [err].  Not represented: the item
    arena, the links of the SELECT_LEX tree ([include_down],
    [all_selects_list]), the buffer given to [timestamp], allocation that
    fails. *)
Definition mysql_make_view (st : state) (parser : File_parser) (table_ptr : ptr)
  : option (Z * state) :=
  match heap st !! table_ptr with
  | None => None
  | Some t =>
      if bool_decide (is_Some (view t)) then
        (* already processed on previous PS/SP execution *)
        Some (0, st)
      else
        match parse_view st parser table_ptr t with
        | inl st => Some (make_view_err st table_ptr)
        | inr (st, lex) => make_view_parsed st table_ptr lex
        end
  end.

(** ** insert_view_fields *)

(** The loop over the translation table: the list with the fields pushed
    so far, and whether the loop ran to its end (true) or met an entry
    that is no reference to a column (false).  None when [trans] is read
    outside its bounds. *)
Fixpoint push_view_fields (trans : list Item) (i remaining : nat)
    (lst : list Field) : option (bool * list Field) :=
  match remaining with
  | O => Some (true, lst)
  | S remaining' =>
      match trans !! i with
      | None => None
      | Some item =>
          match filed_for_view_update item with
          | Some fld => push_view_fields trans (S i) remaining' (lst ++ [fld])
          | None => Some (false, lst)
          end
      end
  end.

(** The result is TRUE on error, with the list ([lst], the parameter
    called list in the source) as the function leaves it.
    None when [view->view] is null or the table is read outside its
    bounds. *)
Definition insert_view_fields (st : state) (lst : list Field) (view_ptr : ptr)
  : option (bool * list Field * state) :=
  match heap st !! view_ptr with
  | None => None
  | Some v =>
      match view v with
      | None => None
      | Some vlex =>
          let elements_in_view := length (sl_item_list (lex_select_lex vlex)) in
          match field_translation v with
          | None => Some (false, lst, st)
          | Some trans =>
              match push_view_fields trans 0 elements_in_view lst with
              | None => None
              | Some (true, lst') => Some (false, lst', st)
              | Some (false, lst') =>
                  Some (true, lst',
                        my_error ER_NON_UPDATABLE_TABLE [alias v; "INSERT"] st)
              end
          end
      end
  end.

(** ** view_checksum *)

Inductive ha_admin : Type :=
  HA_ADMIN_OK | HA_ADMIN_NOT_IMPLEMENTED | HA_ADMIN_WRONG_CHECKSUM.

(** None when the pointer is not the address of an object. *)
Definition view_checksum (st : state) (view_ptr : ptr) : option ha_admin :=
  match heap st !! view_ptr with
  | None => None
  | Some v =>
      if negb (bool_decide (is_Some (view v)))
         || negb (Nat.eqb (String.length (md5 v)) 32)
      then Some HA_ADMIN_NOT_IMPLEMENTED
      else
        if negb (strncmp (list_ascii_of_string (calc_md5 (query v)))
                   (list_ascii_of_string (md5 v)) 32 =? 0)
        then Some HA_ADMIN_WRONG_CHECKSUM
        else Some HA_ADMIN_OK
  end.
End Functions.

(** * Specifications

    The properties of the functions, in the words of the design. *)

(** ** Lists in the heap *)

(** The objects at [l], in this order, form a list from [p] up to [q]
    through the member [next]. *)
Fixpoint lseg (next : TABLE_LIST -> option ptr) (h : gmap ptr TABLE_LIST)
    (p : option ptr) (l : list ptr) (q : option ptr) : Prop :=
  match l with
  | [] => p = q
  | a :: l' =>
      p = Some a /\ exists t, h !! a = Some t /\ lseg next h (next t) l' q
  end.

(** The function leaves the member read by [g] as it is. *)
Definition keeps {A : Type} (g : TABLE_LIST -> A)
    (f : TABLE_LIST -> TABLE_LIST) : Prop :=
  forall t, g (f t) = g t.

(** The member read by [g] has the same value in the objects of both
    states, and both states have the same objects. *)
Definition same_member {A : Type} (g : TABLE_LIST -> A) (st st' : state)
  : Prop :=
  forall a, g <$> heap st' !! a = g <$> heap st !! a.

Section Specifications.
Context `{Env : Environment}.

(** ** Key coverage *)

(** The field is exposed by the view: one of the first [n] entries of the
    translation table is a direct reference to it. *)
Definition exposes (trans : list Item) (n : nat) (f : Field) : Prop :=
  exists k item,
    (k < n)%nat /\ trans !! k = Some item /\ filed_for_view_update item = Some f.

(** The exposed columns cover a full unique key, none of whose parts can be
    null. *)
Definition covers_unique_not_null_key (trans : list Item) (n : nat)
    (tab : TABLE) : Prop :=
  exists key,
    key ∈ key_info tab /\ unique_not_null key = true
    /\ forall f, f ∈ key_part key -> exposes trans n f.

(** The exposed columns cover every column of the table. *)
Definition covers_all_fields (trans : list Item) (n : nat) (tab : TABLE) : Prop :=
  forall f, f ∈ field tab -> exposes trans n f.

(** ** States that differ in the session only *)

(** The files, the invalidations of the query cache and the
    acknowledgement are the same in both states. *)
Definition same_world (st st' : state) : Prop :=
  files st' = files st
  /\ query_cache_log st' = query_cache_log st
  /\ ok_sent st' = ok_sent st.

(** ** Registration *)

(** The algorithm stored for a request. *)
Definition stored_algorithm (lex : LEX) : view_algorithm :=
  if bool_decide (lex_create_view_algorithm lex = VIEW_ALGORITHM_MERGE)
     && negb (lex_can_be_merged lex)
  then VIEW_ALGORITHM_UNDEFINED
  else lex_create_view_algorithm lex.

(** ** Removal of views *)

Definition view_full_name (view : TABLE_LIST) : string :=
  db view +:+ "." +:+ table_name view.

Definition record_absent (st : state) (view : TABLE_LIST) : Prop :=
  files st !! frm_path view = None.

Definition record_is_view (st : state) (view : TABLE_LIST) : Prop :=
  is_Some (files st !! frm_path view)
  /\ mysql_frm_type (files st) (frm_path view) = FRMTYPE_VIEW.

Definition record_not_view (st : state) (view : TABLE_LIST) : Prop :=
  is_Some (files st !! frm_path view)
  /\ mysql_frm_type (files st) (frm_path view) <> FRMTYPE_VIEW.

(** What DROP VIEW does with the names of a batch, one after the other,
    from a state to the value returned and the state at the end. *)
Inductive drop_view_spec : list TABLE_LIST -> state -> bool * state -> Prop :=
  | drop_end st :
      drop_view_spec [] st (false, send_ok st)
  | drop_skip view rest st r :
      record_absent st view \/ record_not_view st view ->
      lex_drop_if_exists (thd_lex st) = true ->
      drop_view_spec rest
        (push_warning WARN_LEVEL_NOTE ER_BAD_TABLE_ERROR [view_full_name view] st) r ->
      drop_view_spec (view :: rest) st r
  | drop_no_such_view view rest st :
      record_absent st view ->
      lex_drop_if_exists (thd_lex st) = false ->
      drop_view_spec (view :: rest) st
        (true, my_error ER_BAD_TABLE_ERROR [view_full_name view] st)
  | drop_wrong_object view rest st :
      record_not_view st view ->
      lex_drop_if_exists (thd_lex st) = false ->
      drop_view_spec (view :: rest) st
        (true, my_error ER_WRONG_OBJECT [db view; table_name view; "VIEW"] st)
  | drop_delete_failed view rest st :
      record_is_view st view ->
      my_delete (files st) (frm_path view) = None ->
      drop_view_spec (view :: rest) st (true, st)
  | drop_deleted view rest st r :
      record_is_view st view ->
      is_Some (my_delete (files st) (frm_path view)) ->
      drop_view_spec rest
        (query_cache_invalidate3 view
           (set_files (delete (frm_path view) (files st)) st)) r ->
      drop_view_spec (view :: rest) st r.

End Specifications.


(** ** Tables a view cannot be defined on *)

(** The opened table is a temporary table (not a view, not a table of the
    information schema). *)
Definition is_temporary (tbl : TABLE_LIST) : Prop :=
  exists tab,
    table tbl = Some tab /\ s_tmp_table tab <> NO_TMP_TABLE
    /\ view tbl = None /\ schema_table tbl = false.

(** The opened table is the view [v] that is being defined. *)
Definition is_the_view (v tbl : TABLE_LIST) : Prop :=
  is_Some (view tbl) /\ view_db tbl = db v /\ view_name tbl = table_name v.

(** ** Tables of a view *)

(** The marks a table of a view carries: the view it belongs to, and
    whether a temporary table may stand for it. *)
Definition marks (tbl : TABLE_LIST) : option ptr * bool :=
  (belong_to_view tbl, skip_temporary tbl).
(** * A small installation

    A data directory, a session and collaborators that grant every
    request, used to run the functions on concrete statements. *)

Definition empty_select_lex : SELECT_LEX :=
  {| sl_options := 0; sl_where := None; sl_table_list_first := None;
     sl_top_join_list := []; sl_item_list := []; sl_select_limit := 0;
     sl_select_number := 0; sl_linkage := UNSPECIFIED_TYPE |}.

Definition empty_lex : LEX :=
  {| lex_sql_command := SQLCOM_SELECT; lex_describe := 0;
     lex_query_tables := None; lex_query_tables_last := In_query_tables None;
     lex_derived_tables := 0; lex_safe_to_cache_query := true;
     lex_subqueries := false; lex_select_lex := empty_select_lex;
     lex_next_selects := []; lex_has_subselects := false;
     lex_create_view_algorithm := VIEW_ALGORITHM_UNDEFINED;
     lex_create_view_check := VIEW_CHECK_NONE; lex_view_list := [];
     lex_proc_list_first := false; lex_result := false;
     lex_variables_used := false; lex_param_list_elements := 0;
     lex_drop_if_exists := false; lex_view_prepare_mode := false;
     lex_can_be_merged := false; lex_can_use_merged := true;
     lex_can_not_use_merged := false |}.

(** A TABLE_LIST as [calloc] leaves it, with its names. *)
Definition new_table_list (d n : string) : TABLE_LIST :=
  {| db := d; table_name := n; alias := n; next_local := None;
     next_global := None; prev_global := None; table := None; select_lex := 0;
     view := None; view_db := EmptyString; view_name := EmptyString; query := EmptyString; md5 := EmptyString;
     source := EmptyString; timestamp := EmptyString; updatable_view := 0;
     algorithm := VIEW_ALGORITHM_UNDEFINED; with_check := VIEW_CHECK_NONE;
     revision := 0; file_version := 0; belong_to_view := None;
     embedding := None; join_list := None; nested_join := None;
     outer_join := 0; schema_table := false; lock_type := 0;
     skip_temporary := false; prelocking_placeholder := false;
     effective_algorithm := VIEW_ALGORITHM_UNDEFINED;
     effective_with_check := VIEW_CHECK_NONE; updatable := false;
     ancestor := None; multitable_view := false; where_ := None;
     derived := None; field_translation := None;
     table_in_first_from_clause := false |}.

Definition new_state (lex : LEX) (h : gmap ptr TABLE_LIST)
    (fs : gmap string file_node) : state :=
  {| thd_lex := lex; heap := h; thd_net_report_error := false;
     thd_is_fatal_error := false; thd_query := "create view v1 as select a from t";
     thd_db := "test"; thd_priv_user := "root"; thd_host_or_ip := "localhost";
     thd_options := 0; thd_select_number := 1;
     thd_updatable_views_with_limit := 0; diagnostics := []; ok_sent := false;
     files := fs; query_cache_log := []; yyparse_calls := 0 |}.

(** The table [test.t] with the columns a (field 100), b (101), c (102)
    and a unique key on a. *)
Definition example_table : TABLE :=
  {| s_tmp_table := NO_TMP_TABLE;
     key_info := [ {| flags := 1; key_part := [100%nat] |} ];
     field := [100%nat; 101%nat; 102%nat] |}.

Definition item_a : Item := {| name := "a"; field_for_view_update := Some 100%nat |}.
Definition item_b : Item := {| name := "b"; field_for_view_update := Some 101%nat |}.

(** The reference to [test.t], opened. *)
Definition table_t : TABLE_LIST :=
  set_table (Some example_table) (new_table_list "test" "t").

(** The LEX the parser builds for "select a from t": one table, at the
    address 10. *)
Definition lex_select_a_from_t : LEX :=
  set_lex_query_tables (Some 10%nat)
    (set_lex_select_lex
       {| sl_options := 0; sl_where := None;
          sl_table_list_first := Some 10%nat; sl_top_join_list := [10%nat];
          sl_item_list := [item_a]; sl_select_limit := 0;
          sl_select_number := 0; sl_linkage := UNSPECIFIED_TYPE |}
       {| lex_sql_command := SQLCOM_SELECT; lex_describe := 0;
          lex_query_tables := None;
          lex_query_tables_last := In_next_global 10%nat;
          lex_derived_tables := 0; lex_safe_to_cache_query := true;
          lex_subqueries := false; lex_select_lex := empty_select_lex;
          lex_next_selects := []; lex_has_subselects := false;
          lex_create_view_algorithm := VIEW_ALGORITHM_UNDEFINED;
          lex_create_view_check := VIEW_CHECK_NONE; lex_view_list := [];
          lex_proc_list_first := false; lex_result := false;
          lex_variables_used := false; lex_param_list_elements := 0;
          lex_drop_if_exists := false; lex_view_prepare_mode := false;
          lex_can_be_merged := true; lex_can_use_merged := true;
          lex_can_not_use_merged := false |}).

Definition regular_file (bytes : list ascii) : file_node :=
  {| f_open_ok := true; f_read_ok := true; f_delete_ok := true;
     f_bytes := bytes |}.

Fixpoint find_by_name (h : gmap ptr TABLE_LIST) (fuel : nat) (p : option ptr)
    (d n : string) : option ptr :=
  match p, fuel with
  | Some a, S fuel' =>
      match h !! a with
      | Some t =>
          if String.eqb (db t) d && String.eqb (table_name t) n then Some a
          else find_by_name h fuel' (next_global t) d n
      | None => None
      end
  | _, _ => None
  end.

Definition example_env : Environment :=
  {| mysql_data_home := "/data";
     reg_ext := ".frm";
     unpack_filename := fun path => path;
     fn_format := fun file dir => dir +:+ file;
     grant_option := false;
     VIEW_ANY_ACL_bits := 15;
     HA_NOSAME := 1;
     HA_NULL_PART_KEY := 64;
     DERIVED_VIEW := 2;
     OPTION_TO_QUERY_CACHE := 65536;
     MODE_PARSING_BITS := 15;
     check_access := fun _ _ => false;
     check_grant := fun _ _ => false;
     check_some_access := fun _ _ => false;
     check_table_access := fun _ _ _ => false;
     get_column_grant := fun _ _ _ => 1;
     have_privileges := fun _ => 15;
     field_table_tmp_table := fun _ => false;
     open_and_lock_tables := fun h _ => Some h;
     unit_prepare := fun _ lex => Some lex;
     wait_if_global_read_lock := fun _ => false;
     lex_unit_print := fun _ => "select a from t";
     calc_md5 := fun _ => "0cc175b9c0f1b6a831c399e269772661";
     find_table_in_global_list := fun h p d n => find_by_name h (size h) p d n;
     not_in_main_unit := fun _ => false;
     unlink_first_table :=
       fun h lex =>
         match lex_query_tables lex with
         | Some p =>
             match h !! p with
             | Some t => Some (p, set_lex_query_tables (next_global t) lex, true)
             | None => None
             end
         | None => None
         end;
     link_first_table_back := fun lex p _ => set_lex_query_tables (Some p) lex;
     sql_parse_prepare :=
       fun f =>
         Some {| fp_ok := true; fp_type := "VIEW"; fp_content := f_bytes f |};
     file_parse :=
       fun _ first _ t =>
         if Nat.eqb first 0
         then Parse_ok (set_revision 1 (set_query "select a from t" t))
         else Parse_ok (set_revision 1 t);
     definition_file_bytes :=
       fun v => view_header ++ list_ascii_of_string (query v);
     definition_file_write_fails := fun _ _ => false;
     yyparse :=
       fun h _ _ =>
         {| pr_res := 0; pr_lex := lex_select_a_from_t;
            pr_heap := <[10%nat := table_t]> h; pr_fatal := false |} |}.

(** The parser object of the record of [test.v1]. *)
Definition example_parser : File_parser :=
  {| fp_ok := true; fp_type := "VIEW";
     fp_content := view_header ++ list_ascii_of_string "query=select a from t" |}.

(** The statement "select ... from v1, t": the reference to the view
    [test.v1] at the address 1, the reference to [test.t] at 2. *)
Definition select_from_v1_t : state :=
  new_state
    (set_lex_query_tables (Some 1%nat) empty_lex)
    (<[1%nat := set_next_global (Some 2%nat) (new_table_list "test" "v1")]>
       (<[2%nat := table_t]> ∅))
    (<["/data/test/v1.frm" :=
         regular_file (view_header ++ list_ascii_of_string "query=select a from t")]>
       ∅).

(** The statement "create view v1 ... as select a from t": the target at
    the address 1, the table at 2. *)
Definition create_lex (alg : view_algorithm) (chk : view_check_option)
    (mergeable : bool) : LEX :=
  {| lex_sql_command := SQLCOM_CREATE_VIEW; lex_describe := 0;
     lex_query_tables := Some 1%nat;
     lex_query_tables_last := In_next_global 2%nat;
     lex_derived_tables := 0; lex_safe_to_cache_query := true;
     lex_subqueries := false;
     lex_select_lex :=
       {| sl_options := 0; sl_where := None;
          sl_table_list_first := Some 2%nat; sl_top_join_list := [2%nat];
          sl_item_list := [item_a]; sl_select_limit := 0;
          sl_select_number := 1; sl_linkage := UNSPECIFIED_TYPE |};
     lex_next_selects := []; lex_has_subselects := false;
     lex_create_view_algorithm := alg; lex_create_view_check := chk;
     lex_view_list := []; lex_proc_list_first := false; lex_result := false;
     lex_variables_used := false; lex_param_list_elements := 0;
     lex_drop_if_exists := false; lex_view_prepare_mode := false;
     lex_can_be_merged := mergeable; lex_can_use_merged := true;
     lex_can_not_use_merged := false |}.

Definition create_v1 (alg : view_algorithm) (chk : view_check_option)
    (mergeable : bool) : state :=
  new_state (create_lex alg chk mergeable)
    (<[1%nat := set_next_global (Some 2%nat) (new_table_list "test" "v1")]>
       (<[2%nat := table_t]> ∅))
    ∅.

(** The same statement once the target is cut off the list of the tables,
    as [mysql_register_view] finds it. *)
Definition create_v1_unlinked (alg : view_algorithm) (chk : view_check_option)
    (mergeable : bool) : state :=
  set_thd_lex
    (set_lex_query_tables (Some 2%nat) (create_lex alg chk mergeable))
    (create_v1 alg chk mergeable).

(** The statement "alter view v1 as select a from v1": the table opened at
    the address 3 is the view [test.v1] itself. *)
Definition alter_v1_from_v1 : state :=
  new_state
    (set_lex_select_lex
       {| sl_options := 0; sl_where := None;
          sl_table_list_first := Some 3%nat; sl_top_join_list := [3%nat];
          sl_item_list := [item_a]; sl_select_limit := 0;
          sl_select_number := 1; sl_linkage := UNSPECIFIED_TYPE |}
       (create_lex VIEW_ALGORITHM_UNDEFINED VIEW_CHECK_NONE true))
    (<[1%nat := set_next_global (Some 3%nat) (new_table_list "test" "v1")]>
       (<[3%nat :=
            set_view_name "v1"
              (set_view_db "test"
                 (set_view (Some lex_select_a_from_t)
                    (set_table (Some example_table)
                       (new_table_list "test" "v1"))))]> ∅))
    (<["/data/test/v1.frm" :=
         regular_file (view_header ++ list_ascii_of_string "query=select a from t")]>
       ∅).

(** The statement "update v set ... limit 1" on a view of [test.t] that
    shows the columns in [items]; the node of the view is at the address
    5. *)
Definition update_with_limit (cmd : enum_sql_command) (items : list Item)
    (permissive : Z) : state :=
  set_thd_updatable_views_with_limit permissive
    (new_state
       {| lex_sql_command := cmd; lex_describe := 0;
          lex_query_tables := Some 5%nat;
          lex_query_tables_last := In_next_global 5%nat;
          lex_derived_tables := 0; lex_safe_to_cache_query := true;
          lex_subqueries := false;
          lex_select_lex :=
            {| sl_options := 0; sl_where := None;
               sl_table_list_first := Some 5%nat; sl_top_join_list := [5%nat];
               sl_item_list := []; sl_select_limit := 1;
               sl_select_number := 1; sl_linkage := UNSPECIFIED_TYPE |};
          lex_next_selects := []; lex_has_subselects := false;
          lex_create_view_algorithm := VIEW_ALGORITHM_UNDEFINED;
          lex_create_view_check := VIEW_CHECK_NONE; lex_view_list := [];
          lex_proc_list_first := false; lex_result := false;
          lex_variables_used := false; lex_param_list_elements := 0;
          lex_drop_if_exists := false; lex_view_prepare_mode := false;
          lex_can_be_merged := true; lex_can_use_merged := true;
          lex_can_not_use_merged := false |}
       (<[5%nat :=
            set_view
              (Some (set_lex_select_lex
                       (set_sl_item_list items
                          (lex_select_lex lex_select_a_from_t))
                       lex_select_a_from_t))
              (set_table (Some example_table)
                 {| db := "test"; table_name := "v"; alias := "v";
                    next_local := None; next_global := None;
                    prev_global := None; table := None; select_lex := 0;
                    view := None; view_db := "test"; view_name := "v";
                    query := EmptyString; md5 := EmptyString; source := EmptyString; timestamp := EmptyString;
                    updatable_view := 1;
                    algorithm := VIEW_ALGORITHM_UNDEFINED;
                    with_check := VIEW_CHECK_NONE; revision := 1;
                    file_version := 1; belong_to_view := None;
                    embedding := None; join_list := None;
                    nested_join := None; outer_join := 0;
                    schema_table := false; lock_type := 0;
                    skip_temporary := false; prelocking_placeholder := false;
                    effective_algorithm := VIEW_ALGORITHM_MERGE;
                    effective_with_check := VIEW_CHECK_NONE; updatable := true;
                    ancestor := None; multitable_view := false; where_ := None;
                    derived := None; field_translation := Some items;
                    table_in_first_from_clause := false |})]> ∅)
       ∅).

(** The statement "drop view [if exists] t", where [test.t] is a table:
    its record does not start with the header of a view. *)
Definition drop_view_t (if_exists : bool) : state :=
  new_state
    {| lex_sql_command := SQLCOM_DROP_VIEW; lex_describe := 0;
       lex_query_tables := Some 2%nat;
       lex_query_tables_last := In_next_global 2%nat;
       lex_derived_tables := 0; lex_safe_to_cache_query := true;
       lex_subqueries := false; lex_select_lex := empty_select_lex;
       lex_next_selects := []; lex_has_subselects := false;
       lex_create_view_algorithm := VIEW_ALGORITHM_UNDEFINED;
       lex_create_view_check := VIEW_CHECK_NONE; lex_view_list := [];
       lex_proc_list_first := false; lex_result := false;
       lex_variables_used := false; lex_param_list_elements := 0;
       lex_drop_if_exists := if_exists; lex_view_prepare_mode := false;
       lex_can_be_merged := false; lex_can_use_merged := true;
       lex_can_not_use_merged := false |}
    (<[2%nat := new_table_list "test" "t"]> ∅)
    (<["/data/test/t.frm" :=
         regular_file (list_ascii_of_string "binary table definition")]> ∅).

(** The statement "select ... from t, v2" after the query of the view
    [test.v2], "select ... from t1, t2", was parsed: the node of the view is
    the last of the statement, at the address 1; the tables of the view are
    at 10 and 11. *)
Definition lex_select_from_t1_t2 : LEX :=
  set_lex_query_tables (Some 10%nat)
    (set_lex_query_tables_last (In_next_global 11%nat)
       (set_lex_select_lex
          {| sl_options := 0; sl_where := Some 7%nat;
             sl_table_list_first := Some 10%nat;
             sl_top_join_list := [11%nat; 10%nat];
             sl_item_list := [item_a; item_b]; sl_select_limit := 0;
             sl_select_number := 2; sl_linkage := UNSPECIFIED_TYPE |}
          lex_select_a_from_t)).

Definition select_from_t_v2_parsed : state :=
  new_state
    (set_lex_query_tables_last (In_next_global 1%nat)
       (set_lex_query_tables (Some 2%nat) empty_lex))
    (<[2%nat := set_next_global (Some 1%nat) table_t]>
       (<[1%nat := set_updatable_view 1 (new_table_list "test" "v2")]>
          (<[10%nat :=
               set_next_local (Some 11%nat)
                 (set_next_global (Some 11%nat) (new_table_list "test" "t1"))]>
             (<[11%nat := new_table_list "test" "t2"]> ∅))))
    ∅.

(** The statement "create or replace view v1 as select a from t" when the
    record of [test.v1] exists. *)
Definition replace_v1 : state :=
  set_files (files select_from_v1_t)
    (create_v1 VIEW_ALGORITHM_UNDEFINED VIEW_CHECK_NONE true).


(** The statement "drop view [if exists] v1, t", where [test.v1] is a view
    and [test.t] is a table. *)
Definition drop_view_v1_t (if_exists : bool) : state :=
  new_state
    (set_lex_query_tables (Some 2%nat) (thd_lex (drop_view_t if_exists)))
    (<[2%nat := set_next_local (Some 3%nat) (new_table_list "test" "v1")]>
       (<[3%nat := new_table_list "test" "t"]> ∅))
    (<["/data/test/v1.frm" :=
         regular_file (view_header ++ list_ascii_of_string "query=select a from t")]>
       (<["/data/test/t.frm" :=
            regular_file (list_ascii_of_string "binary table definition")]> ∅)).

(** The two names of that statement. *)
Definition names_v1_t : list (ptr * TABLE_LIST) :=
  [(2%nat, set_next_local (Some 3%nat) (new_table_list "test" "v1"));
   (3%nat, new_table_list "test" "t")].

(** An expression of a view that is not a reference to a column. *)
Definition item_a_plus_1 : Item :=
  {| name := "a + 1"; field_for_view_update := None |}.

(** A statement on the view [test.v] of "select a from t", whose record
    holds the checksum [sum]; the node of the view is at the address 5. *)
Definition statement_on_checked_view (sum : string) : state :=
  let st := update_with_limit SQLCOM_SELECT [item_a] 0 in
  set_heap (set_md5 sum <$> heap st) st.

(** The statement "create or replace view v1 as select a from t" when the
    record of [test.v1] exists, once the target is cut off the list of the
    tables. *)
Definition replace_v1_unlinked : state :=
  set_files (files select_from_v1_t)
    (create_v1_unlinked VIEW_ALGORITHM_UNDEFINED VIEW_CHECK_NONE true).

(** The temporary table [test.t]. *)
Definition temporary_t : TABLE_LIST :=
  set_table
    (Some {| s_tmp_table := TMP_TABLE; key_info := []; field := [100%nat] |})
    (new_table_list "test" "t").

(** The statement "create view v1 as select a from t" when [test.t] is a
    temporary table. *)
Definition create_v1_on_temporary : state :=
  new_state (create_lex VIEW_ALGORITHM_UNDEFINED VIEW_CHECK_NONE true)
    (<[1%nat := set_next_global (Some 2%nat) (new_table_list "test" "v1")]>
       (<[2%nat := temporary_t]> ∅))
    ∅.

(** The installation when the records of the views cannot be read: the
    parser of the records fails, and gives no message. *)
Definition env_with_unreadable_records : Environment :=
  {| mysql_data_home := "/data";
     reg_ext := ".frm";
     unpack_filename := fun path => path;
     fn_format := fun file dir => dir +:+ file;
     grant_option := false;
     VIEW_ANY_ACL_bits := 15;
     HA_NOSAME := 1;
     HA_NULL_PART_KEY := 64;
     DERIVED_VIEW := 2;
     OPTION_TO_QUERY_CACHE := 65536;
     MODE_PARSING_BITS := 15;
     check_access := fun _ _ => false;
     check_grant := fun _ _ => false;
     check_some_access := fun _ _ => false;
     check_table_access := fun _ _ _ => false;
     get_column_grant := fun _ _ _ => 1;
     have_privileges := fun _ => 15;
     field_table_tmp_table := fun _ => false;
     open_and_lock_tables := fun h _ => Some h;
     unit_prepare := fun _ lex => Some lex;
     wait_if_global_read_lock := fun _ => false;
     lex_unit_print := fun _ => "select a from t";
     calc_md5 := fun _ => "0cc175b9c0f1b6a831c399e269772661";
     find_table_in_global_list := fun h p d n => find_by_name h (size h) p d n;
     not_in_main_unit := fun _ => false;
     unlink_first_table :=
       fun h lex =>
         match lex_query_tables lex with
         | Some p =>
             match h !! p with
             | Some t => Some (p, set_lex_query_tables (next_global t) lex, true)
             | None => None
             end
         | None => None
         end;
     link_first_table_back := fun lex p _ => set_lex_query_tables (Some p) lex;
     sql_parse_prepare :=
       fun f =>
         Some {| fp_ok := true; fp_type := "VIEW"; fp_content := f_bytes f |};
     file_parse := fun _ _ _ _ => Parse_error false;
     definition_file_bytes :=
       fun v => view_header ++ list_ascii_of_string (query v);
     definition_file_write_fails := fun _ _ => false;
     yyparse :=
       fun h _ _ =>
         {| pr_res := 0; pr_lex := lex_select_a_from_t;
            pr_heap := <[10%nat := table_t]> h; pr_fatal := false |} |}.

(** The statement "show fields from v1": a command that cannot use a
    merged view. *)
Definition show_fields_from_v1 : state :=
  set_thd_lex
    {| lex_sql_command := SQLCOM_SELECT; lex_describe := 0;
       lex_query_tables := Some 1%nat;
       lex_query_tables_last := In_next_global 2%nat;
       lex_derived_tables := 0; lex_safe_to_cache_query := true;
       lex_subqueries := false; lex_select_lex := empty_select_lex;
       lex_next_selects := []; lex_has_subselects := false;
       lex_create_view_algorithm := VIEW_ALGORITHM_UNDEFINED;
       lex_create_view_check := VIEW_CHECK_NONE; lex_view_list := [];
       lex_proc_list_first := false; lex_result := false;
       lex_variables_used := false; lex_param_list_elements := 0;
       lex_drop_if_exists := false; lex_view_prepare_mode := false;
       lex_can_be_merged := false; lex_can_use_merged := true;
       lex_can_not_use_merged := true |}
    select_from_v1_t.




(** The installation for a user who may not see the tables behind a
    view: [check_table_access] denies. *)
Definition env_without_privileges : Environment :=
  {| mysql_data_home := "/data";
     reg_ext := ".frm";
     unpack_filename := fun path => path;
     fn_format := fun file dir => dir +:+ file;
     grant_option := false;
     VIEW_ANY_ACL_bits := 15;
     HA_NOSAME := 1;
     HA_NULL_PART_KEY := 64;
     DERIVED_VIEW := 2;
     OPTION_TO_QUERY_CACHE := 65536;
     MODE_PARSING_BITS := 15;
     check_access := fun _ _ => false;
     check_grant := fun _ _ => false;
     check_some_access := fun _ _ => false;
     check_table_access := fun _ _ _ => true;
     get_column_grant := fun _ _ _ => 1;
     have_privileges := fun _ => 15;
     field_table_tmp_table := fun _ => false;
     open_and_lock_tables := fun h _ => Some h;
     unit_prepare := fun _ lex => Some lex;
     wait_if_global_read_lock := fun _ => false;
     lex_unit_print := fun _ => "select a from t";
     calc_md5 := fun _ => "0cc175b9c0f1b6a831c399e269772661";
     find_table_in_global_list := fun h p d n => find_by_name h (size h) p d n;
     not_in_main_unit := fun _ => false;
     unlink_first_table :=
       fun h lex =>
         match lex_query_tables lex with
         | Some p =>
             match h !! p with
             | Some t => Some (p, set_lex_query_tables (next_global t) lex, true)
             | None => None
             end
         | None => None
         end;
     link_first_table_back := fun lex p _ => set_lex_query_tables (Some p) lex;
     sql_parse_prepare :=
       fun f =>
         Some {| fp_ok := true; fp_type := "VIEW"; fp_content := f_bytes f |};
     file_parse :=
       fun _ first _ t =>
         if Nat.eqb first 0
         then Parse_ok (set_revision 1 (set_query "select a from t" t))
         else Parse_ok (set_revision 1 t);
     definition_file_bytes :=
       fun v => view_header ++ list_ascii_of_string (query v);
     definition_file_write_fails := fun _ _ => false;
     yyparse :=
       fun h _ _ =>
         {| pr_res := 0; pr_lex := lex_select_a_from_t;
            pr_heap := <[10%nat := table_t]> h; pr_fatal := false |} |}.

(** The statement "explain select ... from v1, t". *)
Definition explain_select_from_v1_t : state :=
  set_thd_lex
    {| lex_sql_command := SQLCOM_SELECT; lex_describe := 1;
       lex_query_tables := Some 1%nat;
       lex_query_tables_last := In_next_global 2%nat;
       lex_derived_tables := 0; lex_safe_to_cache_query := true;
       lex_subqueries := false; lex_select_lex := empty_select_lex;
       lex_next_selects := []; lex_has_subselects := false;
       lex_create_view_algorithm := VIEW_ALGORITHM_UNDEFINED;
       lex_create_view_check := VIEW_CHECK_NONE; lex_view_list := [];
       lex_proc_list_first := false; lex_result := false;
       lex_variables_used := false; lex_param_list_elements := 0;
       lex_drop_if_exists := false; lex_view_prepare_mode := false;
       lex_can_be_merged := false; lex_can_use_merged := true;
       lex_can_not_use_merged := false |}
    select_from_v1_t.
(** * Proofs *)

Section Proofs.
Context `{Env : Environment}.

(** ** mysql_frm_type *)

Lemma my_read_length (f : file_node) (count : nat) :
  f_read_ok f = true ->
  (my_read f count).1 = Z.of_nat (Nat.min count (length (f_bytes f))).
Proof.
  intros Hr. unfold my_read. rewrite Hr. simpl.
  by rewrite length_take.
Qed.

(** C10. A record file that opens and reads without error and is shorter
    than the ten bytes of the header is classified as a view. *)
Theorem mysql_frm_type_short_file (fs : gmap string file_node) (path : string)
    (f : file_node) :
  fs !! path = Some f ->
  f_open_ok f = true ->
  f_read_ok f = true ->
  (length (f_bytes f) < 10)%nat ->
  mysql_frm_type fs path = FRMTYPE_VIEW.
Proof.
  intros Hf Ho Hr Hlen.
  unfold mysql_frm_type, my_open. rewrite Hf, Ho.
  pose proof (my_read_length f 10 Hr) as Hl.
  destruct (my_read f 10) as [len header]. cbn [fst] in Hl. subst len.
  rewrite Nat.min_r by lia. unfold MY_FILE_ERROR.
  replace (Z.of_nat (length (f_bytes f)) =? -1) with false
    by (symmetry; apply Z.eqb_neq; lia).
  replace (Z.of_nat (length (f_bytes f)) <? 10) with true
    by (symmetry; apply Z.ltb_lt; lia).
  reflexivity.
Qed.

(** ** mysql_drop_view *)

Lemma access_ok_iff (fs : gmap string file_node) (path : string) :
  (access fs path =? 0) = true <-> is_Some (fs !! path).
Proof.
  unfold access. destruct (fs !! path) eqn:E; simpl; split; intros H;
    first [done | by eexists | by destruct H].
Qed.

Lemma my_delete_Some (fs fs' : gmap string file_node) (path : string) :
  my_delete fs path = Some fs' -> fs' = delete path fs.
Proof.
  unfold my_delete. destruct (fs !! path) as [f|]; [|done].
  destruct (f_delete_ok f); congruence.
Qed.

(** The variable [type] is stale only in statements with IF EXISTS, where
    it is not read. *)
Lemma mysql_drop_view_loop_spec (views : list TABLE_LIST) :
  forall (type : bool) (st : state),
    (type = true -> lex_drop_if_exists (thd_lex st) = true) ->
    drop_view_spec views st (mysql_drop_view_loop views type st).
Proof.
  induction views as [|view rest IH]; intros type st Hstale; simpl.
  { constructor. }
  destruct (access (files st) (frm_path view) =? 0) eqn:Hacc; simpl.
  - apply access_ok_iff in Hacc.
    destruct (bool_decide (mysql_frm_type (files st) (frm_path view) = FRMTYPE_VIEW))
      eqn:Hty; simpl.
    + apply bool_decide_eq_true in Hty.
      destruct (my_delete (files st) (frm_path view)) as [fs'|] eqn:Hdel.
      * pose proof (my_delete_Some _ _ _ Hdel) as ->.
        apply drop_deleted; [by split | by rewrite Hdel |].
        apply IH. intros [=].
      * apply drop_delete_failed; [by split | done].
    + apply bool_decide_eq_false in Hty.
      destruct (lex_drop_if_exists (thd_lex st)) eqn:Hif.
      * apply drop_skip; [right; by split | done |].
        apply IH. intros _. exact Hif.
      * apply drop_wrong_object; [by split | done].
  - assert (record_absent st view) as Habs.
    { unfold record_absent. destruct (files st !! frm_path view) eqn:E; [|done].
      assert ((access (files st) (frm_path view) =? 0) = true) as Hc
        by (apply access_ok_iff; by rewrite E).
      congruence. }
    destruct (lex_drop_if_exists (thd_lex st)) eqn:Hif.
    + apply drop_skip; [by left | done |].
      apply IH. intros _. exact Hif.
    + destruct type.
      * specialize (Hstale eq_refl). congruence.
      * by apply drop_no_such_view.
Qed.

(** C7, as amended.  Every name of the batch is handled in turn: a record
    that is absent, or present but not a view, is skipped with a note when
    IF EXISTS is given; without IF EXISTS the statement fails, with
    ER_BAD_TABLE_ERROR when the record is absent and with ER_WRONG_OBJECT
    when it is not a view; a record that is a view is deleted and the
    cached results for the name are invalidated (the statement fails when
    the file cannot be removed). *)
Theorem mysql_drop_view_each_name (st : state) (views : option ptr)
    (l : list (ptr * TABLE_LIST)) :
  local_list (heap st) views = Some l ->
  exists r, mysql_drop_view st views = Some r /\ drop_view_spec (l.*2) st r.
Proof.
  intros Hl. unfold mysql_drop_view. rewrite Hl.
  eexists; split; [done|].
  apply mysql_drop_view_loop_spec. intros [=].
Qed.


(** ** check_key_in_view *)

Lemma find_in_view_spec (trans : list Item) (f : Field) (n : nat) :
  forall k0 : nat,
    (k0 + n <= length trans)%nat ->
    exists k,
      find_in_view trans f k0 n = Some k
      /\ (k0 <= k <= k0 + n)%nat
      /\ ((k < k0 + n)%nat ->
          exists item, trans !! k = Some item
                       /\ filed_for_view_update item = Some f)
      /\ (k = (k0 + n)%nat ->
          forall j item,
            (k0 <= j < k0 + n)%nat -> trans !! j = Some item ->
            filed_for_view_update item <> Some f).
Proof.
  induction n as [|n IH]; intros k0 Hlen; simpl.
  - exists k0. repeat split; lia.
  - destruct (trans !! k0) as [item|] eqn:Hk0.
    2:{ apply lookup_ge_None in Hk0. lia. }
    destruct (IH (S k0)) as (k & Hk & Hrange & Hfound & Hnone); [lia|].
    assert (filed_for_view_update item <> Some f ->
            exists k1,
              find_in_view trans f (S k0) n = Some k1
              /\ (k0 <= k1 <= k0 + S n)%nat
              /\ ((k1 < k0 + S n)%nat ->
                  exists item, trans !! k1 = Some item
                               /\ filed_for_view_update item = Some f)
              /\ (k1 = (k0 + S n)%nat ->
                  forall j item0,
                    (k0 <= j < k0 + S n)%nat -> trans !! j = Some item0 ->
                    filed_for_view_update item0 <> Some f)) as Hrest.
    { intros Hne. exists k. split; [done|]. split; [lia|]. split.
      - intros Hlt. apply Hfound. lia.
      - intros -> j item0 Hj Hitem0.
        destruct (decide (j = k0)) as [->|Hjk].
        + rewrite Hk0 in Hitem0. by injection Hitem0 as <-.
        + apply (Hnone ltac:(lia) j); [lia|done]. }
    destruct (filed_for_view_update item) as [fld|] eqn:Hfld.
    + destruct (Nat.eqb_spec fld f) as [->|Hne].
      * exists k0. split; [done|]. split; [lia|]. split; [|lia].
        intros _. by exists item.
      * apply Hrest. congruence.
    + by apply Hrest.
Qed.

Lemma find_in_view_exposes (trans : list Item) (f : Field) (n : nat) :
  (n <= length trans)%nat ->
  exists k,
    find_in_view trans f 0 n = Some k
    /\ (Nat.eqb k n = false <-> exposes trans n f).
Proof.
  intros Hlen.
  destruct (find_in_view_spec trans f n 0) as (k & Hk & Hrange & Hfound & Hnone);
    [simpl; lia|].
  exists k. split; [done|]. simpl in *.
  rewrite Nat.eqb_neq. split.
  - intros Hne. destruct Hfound as (item & Hitem & Hf); [lia|].
    exists k, item. repeat split; [lia|done|done].
  - intros (j & item & Hj & Hitem & Hf) ->.
    by apply (Hnone eq_refl j item); [lia|..].
Qed.

Lemma all_key_parts_used_spec (trans : list Item) (n : nat) (parts : list Field) :
  (n <= length trans)%nat ->
  parts <> [] ->
  exists b,
    all_key_parts_used trans n parts = Some b
    /\ (b = true <-> forall f, f ∈ parts -> exposes trans n f).
Proof.
  intros Hlen. induction parts as [|part rest IH]; intros Hne; [done|].
  simpl.
  destruct (find_in_view_exposes trans part n Hlen) as (k & -> & Hk).
  destruct (Nat.eqb k n) eqn:Hkn.
  - exists false. split; [done|]. split; [done|].
    intros Hall. exfalso.
    assert (exposes trans n part) as Hex by (apply Hall; left).
    apply Hk in Hex. congruence.
  - assert (exposes trans n part) as Hpart by by apply Hk.
    destruct rest as [|part' rest'].
    + exists true. split; [done|]. split; [|done].
      intros _ f Hf. apply list_elem_of_singleton in Hf as ->. done.
    + destruct IH as (b & Hb & Hiff); [done|].
      exists b. split; [done|]. rewrite Hiff. split.
      * intros Hall f Hf. apply elem_of_cons in Hf as [->|Hf]; auto.
      * intros Hall f Hf. apply Hall. by right.
Qed.

Lemma usable_key_found_spec (trans : list Item) (n : nat) (keys : list KEY) :
  (n <= length trans)%nat ->
  (forall key, key ∈ keys -> unique_not_null key = true -> key_part key <> []) ->
  exists b,
    usable_key_found trans n keys = Some b
    /\ (b = true <->
        exists key,
          key ∈ keys /\ unique_not_null key = true
          /\ forall f, f ∈ key_part key -> exposes trans n f).
Proof.
  intros Hlen. induction keys as [|key rest IH]; intros Hwf; simpl.
  - exists false. split; [done|]. split; [done|].
    intros (key & Hin & _). by apply elem_of_nil in Hin.
  - destruct IH as (b & Hb & Hiff).
    { intros key' Hin. apply Hwf. by right. }
    assert ((exists key0,
               key0 ∈ rest /\ unique_not_null key0 = true
               /\ forall f, f ∈ key_part key0 -> exposes trans n f) ->
            exists key0,
              key0 ∈ key :: rest /\ unique_not_null key0 = true
              /\ forall f, f ∈ key_part key0 -> exposes trans n f) as Hweak.
    { intros (key0 & Hin & Hu & Hall). exists key0. split; [by right|done]. }
    destruct (unique_not_null key) eqn:Huniq.
    + destruct (all_key_parts_used_spec trans n (key_part key) Hlen)
        as (u & -> & Hu).
      { apply Hwf; [left|done]. }
      destruct u.
      * exists true. split; [done|]. split; [|done].
        intros _. exists key. split; [left|]. split; [done|]. by apply Hu.
      * exists b. split; [done|]. rewrite Hiff. split; [done|].
        intros (key0 & Hin & Hu0 & Hall).
        apply elem_of_cons in Hin as [->|Hin].
        -- apply Hu in Hall. done.
        -- by exists key0.
    + exists b. split; [done|]. rewrite Hiff. split; [done|].
      intros (key0 & Hin & Hu0 & Hall).
      apply elem_of_cons in Hin as [->|Hin]; [congruence|].
      by exists key0.
Qed.

Lemma field_missing_spec (trans : list Item) (n : nat) (fields : list Field) :
  (n <= length trans)%nat ->
  exists b,
    field_missing trans n fields = Some b
    /\ (b = false <-> forall f, f ∈ fields -> exposes trans n f).
Proof.
  intros Hlen. induction fields as [|f rest IH]; simpl.
  - exists false. split; [done|]. split; [|done].
    intros _ f Hf. by apply elem_of_nil in Hf.
  - destruct (find_in_view_exposes trans f n Hlen) as (k & -> & Hk).
    destruct (Nat.eqb k n) eqn:Hkn.
    + exists true. split; [done|]. split; [done|].
      intros Hall. exfalso.
      assert (exposes trans n f) as Hex by (apply Hall; left).
      apply Hk in Hex. congruence.
    + destruct IH as (b & Hb & Hiff). exists b. split; [done|].
      rewrite Hiff. split.
      * intros Hall f' Hf'. apply elem_of_cons in Hf' as [->|Hf']; auto.
        by apply Hk.
      * intros Hall f' Hf'. apply Hall. by right.
Qed.

Lemma push_warning_changes (level : diag_level) (code : er_code)
    (args : list string) (st : state) :
  push_warning level code args st <> st.
Proof.
  intros Heq. apply (f_equal diagnostics) in Heq. simpl in Heq.
  apply (f_equal length) in Heq. rewrite length_app in Heq. simpl in Heq. lia.
Qed.

(** C2, as amended.  For a view node and a statement with a row limit:
    a plain INSERT is not checked and is reported safe; for every other
    command the check reports safe without a warning exactly when the
    exposed columns cover a full unique key without nullable parts or every
    column of the table, and when they cover neither, the variable
    [updatable_views_with_limit] selects between a warning with the update
    allowed and the rejection. *)
Theorem check_key_in_view_coverage (st : state) (view_ptr : ptr)
    (v top : TABLE_LIST) (tab : TABLE) (trans : list Item) (vlex : LEX) :
  heap st !! view_ptr = Some v ->
  is_Some (view v) \/ is_Some (belong_to_view v) ->
  sl_select_limit (lex_select_lex (thd_lex st)) <> 0 ->
  table v = Some tab ->
  match belong_to_view v with
  | Some b => heap st !! b
  | None => Some v
  end = Some top ->
  field_translation top = Some trans ->
  view top = Some vlex ->
  (length (sl_item_list (lex_select_lex vlex)) <= length trans)%nat ->
  (forall key,
     key ∈ key_info tab -> unique_not_null key = true -> key_part key <> []) ->
  let n := length (sl_item_list (lex_select_lex vlex)) in
  let covered :=
    covers_unique_not_null_key trans n tab \/ covers_all_fields trans n tab in
  (lex_sql_command (thd_lex st) = SQLCOM_INSERT ->
   check_key_in_view st view_ptr = Some (false, st))
  /\ (lex_sql_command (thd_lex st) <> SQLCOM_INSERT ->
      (covered <-> check_key_in_view st view_ptr = Some (false, st))
      /\ (~ covered ->
          check_key_in_view st view_ptr =
          Some (if thd_updatable_views_with_limit st =? 0
                then (true, st)
                else (false,
                      push_warning WARN_LEVEL_NOTE ER_WARN_VIEW_WITHOUT_KEY [] st)))).
Proof.
  intros Hv Hview Hlimit Htab Htop Htrans Hvlex Hlen Hkeys n covered.
  assert ((negb (bool_decide (is_Some (view v)))
           && negb (bool_decide (is_Some (belong_to_view v)))) = false) as Hnode.
  { destruct Hview as [H|H]; rewrite (bool_decide_eq_true_2 _ H); simpl;
      [done | by rewrite andb_false_r]. }
  apply Z.eqb_neq in Hlimit.
  split.
  - intros Hins. unfold check_key_in_view. rewrite Hv, Hnode.
    by rewrite (bool_decide_eq_true_2 _ Hins).
  - intros Hcmd.
    assert (exists b m,
              usable_key_found trans n (key_info tab) = Some b
              /\ field_missing trans n (field tab) = Some m
              /\ (b = true <-> covers_unique_not_null_key trans n tab)
              /\ (m = false <-> covers_all_fields trans n tab)
              /\ check_key_in_view st view_ptr =
                 Some (if b then (false, st)
                       else if m then
                              if thd_updatable_views_with_limit st =? 0
                              then (true, st)
                              else (false,
                                    push_warning WARN_LEVEL_NOTE
                                      ER_WARN_VIEW_WITHOUT_KEY [] st)
                            else (false, st))) as (b & m & Hb & Hm & Hbk & Hmf & Hrun).
    { destruct (usable_key_found_spec trans n (key_info tab) Hlen Hkeys)
        as (b & Hb & Hbk).
      destruct (field_missing_spec trans n (field tab) Hlen) as (m & Hm & Hmf).
      exists b, m. split; [done|]. split; [done|].
      split; [exact Hbk|]. split; [exact Hmf|].
      unfold check_key_in_view. rewrite Hv, Hnode.
      rewrite (bool_decide_eq_false_2 _ Hcmd), Hlimit. simpl.
      rewrite Htop, Htab, Htrans, Hvlex. fold n. rewrite Hb.
      destruct b; [done|]. rewrite Hm.
      destruct m; [|done].
      by destruct (thd_updatable_views_with_limit st =? 0). }
    rewrite Hrun. split.
    + split.
      * intros [Hkey|Hall].
        -- apply Hbk in Hkey. by subst b.
        -- apply Hmf in Hall. subst m. by destruct b.
      * intros Heq. destruct b; [left; by apply Hbk|].
        destruct m; [|right; by apply Hmf].
        exfalso. destruct (thd_updatable_views_with_limit st =? 0); [done|].
        injection Heq as Heq. by apply push_warning_changes in Heq.
    + intros Hnot. destruct b.
      { exfalso. apply Hnot. left. by apply Hbk. }
      destruct m; [done|].
      exfalso. apply Hnot. right. by apply Hmf.
Qed.

(** ** mysql_register_view *)

Lemma check_old_frm_inr (st st1 : state) (v v1 : TABLE_LIST)
    (mode : enum_view_create_mode) :
  check_old_frm st v mode = inr (v1, st1) -> st1 = st.
Proof.
  unfold check_old_frm. intros H.
  repeat (match type of H with
          | context [if ?c then _ else _] => destruct c
          | context [match ?x with _ => _ end] => destruct x
          end; try discriminate);
    congruence.
Qed.

Lemma check_old_frm_inl_files (st st1 : state) (v : TABLE_LIST)
    (mode : enum_view_create_mode) (ret : Z) :
  check_old_frm st v mode = inl (ret, st1) ->
  files st1 = files st /\ query_cache_log st1 = query_cache_log st
  /\ heap st1 = heap st /\ ok_sent st1 = ok_sent st.
Proof.
  unfold check_old_frm. intros H.
  repeat (match type of H with
          | context [if ?c then _ else _] => destruct c
          | context [match ?x with _ => _ end] => destruct x
          end; try discriminate);
    injection H as <- <-; done.
Qed.

Lemma fill_structure_spec (st st2 : state) (view_ptr : ptr) (v v2 : TABLE_LIST)
    (cbm : bool) :
  fill_structure st view_ptr v = (st2, v2, cbm) ->
  cbm = lex_can_be_merged (thd_lex st)
  /\ algorithm v2 = stored_algorithm (thd_lex st)
  /\ with_check v2 = lex_create_view_check (thd_lex st)
  /\ db v2 = db v /\ table_name v2 = table_name v /\ revision v2 = revision v
  /\ files st2 = files st /\ query_cache_log st2 = query_cache_log st
  /\ ok_sent st2 = ok_sent st
  /\ thd_net_report_error st2 = thd_net_report_error st
  /\ heap st2 = <[view_ptr := v2]> (heap st)
  /\ lex_can_be_merged (thd_lex st2) = lex_can_be_merged (thd_lex st)
  /\ diagnostics st2 =
     diagnostics st
     ++ (if bool_decide (lex_create_view_algorithm (thd_lex st) = VIEW_ALGORITHM_MERGE)
            && negb (lex_can_be_merged (thd_lex st))
         then [Diag WARN_LEVEL_WARN ER_WARN_VIEW_MERGE []]
         else []).
Proof.
  unfold fill_structure, stored_algorithm.
  destruct (bool_decide (lex_create_view_algorithm (thd_lex st) = VIEW_ALGORITHM_MERGE)
            && negb (lex_can_be_merged (thd_lex st))) eqn:Hdown;
    intros [= <- <- <-]; simpl; rewrite ?app_nil_r; repeat split; done.
Qed.

Lemma compute_updatable_true (h : gmap ptr TABLE_LIST) (lex : LEX) (cbm : bool)
    (v : TABLE_LIST) :
  compute_updatable h lex cbm v = Some true ->
  cbm = true /\ algorithm v <> VIEW_ALGORITHM_TMPTABLE.
Proof.
  unfold compute_updatable.
  destruct cbm; simpl.
  - destruct (bool_decide (algorithm v = VIEW_ALGORITHM_TMPTABLE)) eqn:Halg; simpl.
    + discriminate.
    + apply bool_decide_eq_false in Halg. done.
  - discriminate.
Qed.

Lemma compute_updatable_not_merged (h : gmap ptr TABLE_LIST) (lex : LEX)
    (v : TABLE_LIST) :
  compute_updatable h lex false v = Some false.
Proof. reflexivity. Qed.

(** The state in which [register_definition] ends, by the value of
    [updatable_view]. *)
Lemma register_definition_spec (st : state) (view_ptr : ptr) (v : TABLE_LIST)
    (st2 : state) (v2 : TABLE_LIST) (cbm upd : bool) :
  fill_structure st view_ptr v = (st2, v2, cbm) ->
  compute_updatable (heap st2) (thd_lex st2) cbm v2 = Some upd ->
  let v3 := set_updatable_view (Z.b2z upd) v2 in
  let v4 := set_revision ((revision v + 1) mod 2 ^ 64) v3 in
  let path := fn_format (frm_file v) (frm_dir v) in
  exists ret st',
    register_definition st view_ptr v = Some (ret, st')
    /\ query_cache_log st' = query_cache_log st
    /\ ok_sent st' = ok_sent st
    /\ (forall d, d ∈ diagnostics st2 -> d ∈ diagnostics st')
    /\ (if negb (bool_decide (lex_create_view_check (thd_lex st) = VIEW_CHECK_NONE))
           && negb upd
        then ret = -1 /\ files st' = files st
             /\ heap st' !! view_ptr = Some v3
             /\ last (diagnostics st') =
                Some (Diag LEVEL_ERROR ER_VIEW_NONUPD_CHECK [db v; table_name v])
        else heap st' !! view_ptr = Some v4
             /\ if definition_file_write_fails (files st) path
                then ret <> 0 /\ files st' = files st
                else ret = 0
                     /\ files st' =
                        <[path := {| f_open_ok := true; f_read_ok := true;
                                     f_delete_ok := true;
                                     f_bytes := definition_file_bytes v4 |}]>
                          (files st)).
Proof.
  intros Hfill Hupd v3 v4 path.
  destruct (fill_structure_spec _ _ _ _ _ _ Hfill)
    as (Hcbm & Halg & Hchk & Hdb & Hname & Hrev & Hfiles & Hlog & Hok & Hrep & Hheap & _ & Hdiag).
  unfold register_definition. rewrite Hfill, Hupd.
  change (with_check (set_updatable_view (Z.b2z upd) v2)) with (with_check v2).
  rewrite Hchk.
  destruct (negb (bool_decide (lex_create_view_check (thd_lex st) = VIEW_CHECK_NONE))
            && negb upd) eqn:Hfail.
  - eexists _, _. split; [done|]. simpl.
    rewrite Hlog, Hok, Hfiles, Hdb, Hname, last_snoc, lookup_insert_eq.
    repeat split; try done.
    intros d Hd. apply elem_of_app. by left.
  - unfold sql_create_definition_file.
    change (revision (set_updatable_view (Z.b2z upd) v2)) with (revision v2).
    change (frm_file (set_updatable_view (Z.b2z upd) v2)) with (frm_file v2).
    change (frm_dir (set_updatable_view (Z.b2z upd) v2)) with (frm_dir v2).
    assert (frm_file v2 = frm_file v) as -> by (unfold frm_file; by rewrite Hname).
    assert (frm_dir v2 = frm_dir v) as -> by (unfold frm_dir; by rewrite Hdb).
    rewrite Hrev. fold v3 v4 path. simpl. rewrite Hfiles.
    destruct (definition_file_write_fails (files st) path) eqn:Hw.
    + eexists _, _. split; [done|]. simpl.
      rewrite Hlog, Hok, Hfiles, lookup_insert_eq.
      repeat split; try done.
      destruct (thd_net_report_error st2); done.
    + eexists _, _. split; [done|]. simpl.
      rewrite Hlog, Hok, lookup_insert_eq.
      repeat split; done.
Qed.

(** C4. When the flag [updatable_view] computed for the definition is
    false and a check option is requested, the registration fails with
    ER_VIEW_NONUPD_CHECK, the statement fails, and no file is written. *)
Theorem check_option_requires_updatable (st st1 st2 : state) (view_ptr : ptr)
    (mode : enum_view_create_mode) (v v1 v2 : TABLE_LIST) (cbm link : bool) :
  heap st !! view_ptr = Some v ->
  check_old_frm st v mode = inr (v1, st1) ->
  fill_structure st1 view_ptr v1 = (st2, v2, cbm) ->
  compute_updatable (heap st2) (thd_lex st2) cbm v2 = Some false ->
  lex_create_view_check (thd_lex st) <> VIEW_CHECK_NONE ->
  (exists st',
     mysql_register_view st view_ptr mode = Some (-1, st')
     /\ last (diagnostics st') =
        Some (Diag LEVEL_ERROR ER_VIEW_NONUPD_CHECK [db v1; table_name v1])
     /\ files st' = files st)
  /\ (exists st'',
        register_and_invalidate st view_ptr link mode = Some (true, st'')
        /\ files st'' = files st
        /\ ok_sent st'' = ok_sent st).
Proof.
  intros Hv Hold Hfill Hupd Hchk.
  pose proof (check_old_frm_inr _ _ _ _ _ Hold) as ->.
  destruct (register_definition_spec _ _ _ _ _ _ _ Hfill Hupd)
    as (ret & st' & Hrun & Hlog & Hok & _ & Hcase).
  rewrite (bool_decide_eq_false_2 _ Hchk) in Hcase. simpl in Hcase.
  destruct Hcase as (-> & Hfiles & Hheap & Hlast).
  assert (mysql_register_view st view_ptr mode = Some (-1, st')) as Hreg.
  { unfold mysql_register_view. by rewrite Hv, Hold. }
  split.
  - by exists st'.
  - unfold register_and_invalidate.
    destruct (wait_if_global_read_lock (files st)).
    + eexists. split; [done|]. done.
    + rewrite Hreg, Hheap. simpl.
      eexists. split; [done|].
      destruct (negb (revision v2 =? 1)); simpl; by rewrite ?Hfiles, ?Hok.
Qed.

(** C9, as amended.  When MERGE is requested and the query cannot be
    merged, a warning is given and the algorithm stored is UNDEFINED; the
    view is not updatable, so that the definition is written when no check
    option is requested (and writing the file succeeds) and is refused
    with ER_VIEW_NONUPD_CHECK when one is. *)
Theorem merge_request_downgraded (st st1 : state) (view_ptr : ptr)
    (mode : enum_view_create_mode) (v v1 : TABLE_LIST) :
  heap st !! view_ptr = Some v ->
  check_old_frm st v mode = inr (v1, st1) ->
  lex_create_view_algorithm (thd_lex st) = VIEW_ALGORITHM_MERGE ->
  lex_can_be_merged (thd_lex st) = false ->
  let path := fn_format (frm_file v1) (frm_dir v1) in
  exists ret st' v',
    mysql_register_view st view_ptr mode = Some (ret, st')
    /\ heap st' !! view_ptr = Some v'
    /\ Diag WARN_LEVEL_WARN ER_WARN_VIEW_MERGE [] ∈ diagnostics st'
    /\ algorithm v' = VIEW_ALGORITHM_UNDEFINED
    /\ updatable_view v' = 0
    /\ (lex_create_view_check (thd_lex st) = VIEW_CHECK_NONE ->
        definition_file_write_fails (files st) path = false ->
        ret = 0
        /\ files st' =
           <[path := {| f_open_ok := true; f_read_ok := true;
                        f_delete_ok := true;
                        f_bytes := definition_file_bytes v' |}]> (files st))
    /\ (lex_create_view_check (thd_lex st) <> VIEW_CHECK_NONE ->
        ret = -1 /\ files st' = files st).
Proof.
  intros Hv Hold Hreq Hcbm path.
  pose proof (check_old_frm_inr _ _ _ _ _ Hold) as ->.
  destruct (fill_structure st view_ptr v1) as [[st2 v2] cbm] eqn:Hfill.
  destruct (fill_structure_spec _ _ _ _ _ _ Hfill)
    as (Hc & Halg & Hchk & Hdb & Hname & Hrev & Hfiles & Hlog & Hok & Hrep & Hheap & _ & Hdiag).
  rewrite Hcbm in Hc. subst cbm.
  pose proof (compute_updatable_not_merged (heap st2) (thd_lex st2) v2) as Hupd.
  destruct (register_definition_spec _ _ _ _ _ _ _ Hfill Hupd)
    as (ret & st' & Hrun & _ & _ & Hkeep & Hcase).
  assert (stored_algorithm (thd_lex st) = VIEW_ALGORITHM_UNDEFINED) as Hstored.
  { unfold stored_algorithm. rewrite Hcbm, (bool_decide_eq_true_2 _ Hreq). done. }
  assert (Diag WARN_LEVEL_WARN ER_WARN_VIEW_MERGE [] ∈ diagnostics st') as Hwarn.
  { apply Hkeep. rewrite Hdiag, Hcbm, (bool_decide_eq_true_2 _ Hreq). simpl.
    apply elem_of_app. right. apply list_elem_of_singleton. done. }
  assert (mysql_register_view st view_ptr mode = Some (ret, st')) as Hreg.
  { unfold mysql_register_view. by rewrite Hv, Hold. }
  simpl in Hcase. rewrite andb_true_r in Hcase.
  destruct (bool_decide (lex_create_view_check (thd_lex st) = VIEW_CHECK_NONE))
    eqn:Hnone; simpl in Hcase.
  - apply bool_decide_eq_true in Hnone.
    destruct Hcase as (Hheap' & Hwrite).
    eexists ret, st', _. split; [done|]. split; [exact Hheap'|].
    split; [done|]. split; [simpl; by rewrite Halg|]. split; [done|].
    split; [|done].
    intros _ Hw. fold path in Hwrite. rewrite Hw in Hwrite. done.
  - apply bool_decide_eq_false in Hnone.
    destruct Hcase as (-> & Hfiles' & Hheap' & _).
    eexists (-1), st', _. split; [done|]. split; [exact Hheap'|].
    split; [done|]. split; [simpl; by rewrite Halg|]. split; [done|].
    split; [done|]. done.
Qed.

(** A definition that is registered as updatable is not stored with the
    algorithm TEMPTABLE. *)
Lemma register_definition_updatable (st st' : state) (view_ptr : ptr)
    (v v' : TABLE_LIST) (ret : Z) :
  register_definition st view_ptr v = Some (ret, st') ->
  heap st' !! view_ptr = Some v' ->
  updatable_view v' <> 0 ->
  algorithm v' <> VIEW_ALGORITHM_TMPTABLE.
Proof.
  intros Hrun Hv' Hupd.
  destruct (fill_structure st view_ptr v) as [[st2 v2] cbm] eqn:Hfill.
  destruct (compute_updatable (heap st2) (thd_lex st2) cbm v2) as [upd|] eqn:Hc.
  2:{ unfold register_definition in Hrun. by rewrite Hfill, Hc in Hrun. }
  destruct (register_definition_spec _ _ _ _ _ _ _ Hfill Hc)
    as (ret0 & st0 & Hrun0 & _ & _ & _ & Hcase).
  rewrite Hrun in Hrun0. injection Hrun0 as <- <-.
  assert (updatable_view v' = Z.b2z upd /\ algorithm v' = algorithm v2) as [Hu Ha].
  { destruct (negb (bool_decide (lex_create_view_check (thd_lex st) = VIEW_CHECK_NONE))
              && negb upd).
    - destruct Hcase as (_ & _ & Hh & _). rewrite Hv' in Hh.
      injection Hh as ->. done.
    - destruct Hcase as (Hh & _). rewrite Hv' in Hh. injection Hh as ->. done. }
  destruct upd; [|by rewrite Hu in Hupd].
  apply compute_updatable_true in Hc as [_ Hc]. by rewrite Ha.
Qed.

(** ** mysql_create_view *)

Lemma same_world_refl (st : state) : same_world st st.
Proof. by repeat split. Qed.

Lemma same_world_trans (st1 st2 st3 : state) :
  same_world st1 st2 -> same_world st2 st3 -> same_world st1 st3.
Proof.
  intros (H1 & H2 & H3) (H4 & H5 & H6). repeat split; congruence.
Qed.

Lemma strcmp_eq (s1 s2 : string) : (strcmp s1 s2 =? 0) = true <-> s1 = s2.
Proof.
  unfold strcmp. destruct (String.compare s1 s2) eqn:E; simpl.
  - apply String.compare_eq_iff in E. done.
  - split; [done|]. intros ->.
    pose proof (String.compare_antisym s2 s2) as Ha. rewrite E in Ha.
    discriminate.
  - split; [done|]. intros ->.
    pose proof (String.compare_antisym s2 s2) as Ha. rewrite E in Ha.
    discriminate.
Qed.

Lemma check_tables_of_select_frame (tbls : list (ptr * TABLE_LIST)) :
  forall (st st' : state) (b : bool),
    check_tables_of_select tbls st = (b, st') ->
    same_world st st' /\ thd_lex st' = thd_lex st
    /\ (b = false -> diagnostics st' = diagnostics st).
Proof.
  induction tbls as [|[p tbl] rest IH]; intros st st' b; simpl.
  - intros [= <- <-]. split; [apply same_world_refl|done].
  - destruct (check_some_access VIEW_ANY_ACL tbl).
    + intros [= <- <-]. split; [by repeat split|]. done.
    + intros H. apply IH in H as (Hw & Hlex & Hd).
      split; [|done]. destruct Hw as (? & ? & ?). by repeat split.
Qed.

Lemma check_tables_of_selects_frame (sls : list SELECT_LEX) :
  forall (st st' : state) (b : bool),
    check_tables_of_selects sls st = Some (b, st') ->
    same_world st st' /\ thd_lex st' = thd_lex st
    /\ (b = false -> diagnostics st' = diagnostics st).
Proof.
  induction sls as [|sl rest IH]; intros st st' b; simpl.
  - intros [= <- <-]. split; [apply same_world_refl|done].
  - destruct (local_list (heap st) (sl_table_list_first sl)) as [tbls|]; [|done].
    destruct (check_tables_of_select tbls st) as [denied st1] eqn:Hsel.
    apply check_tables_of_select_frame in Hsel as (Hw & Hlex & Hd).
    destruct denied.
    + intros [= <- <-]. done.
    + intros H. apply IH in H as (Hw' & Hlex' & Hd').
      split; [by eapply same_world_trans|]. split; [congruence|].
      intros ->. rewrite Hd', Hd; done.
Qed.

Lemma goto_err_world (st : state) (p : ptr) (link res : bool) :
  same_world st (goto_err st p link res).2.
Proof. by repeat split. Qed.

Lemma check_privileges_frame (st : state) (p : ptr) (v : TABLE_LIST)
    (link : bool) (mode : enum_view_create_mode) (r : bool * state + state) :
  check_privileges st p v link mode = Some r ->
  match r with
  | inl (b, st') => b = true /\ same_world st st'
  | inr st' =>
      same_world st st' /\ thd_lex st' = thd_lex st
      /\ diagnostics st' = diagnostics st
  end.
Proof.
  unfold check_privileges.
  destruct (_ || _).
  { intros [= <-]. split; [done|apply same_world_refl]. }
  destruct (check_tables_of_selects (all_selects (thd_lex st)) st)
    as [[denied st1]|] eqn:Hsel; [|done].
  apply check_tables_of_selects_frame in Hsel as (Hw & Hlex & Hd).
  destruct denied.
  { intros [= <-]. done. }
  specialize (Hd eq_refl).
  destruct (lex_has_subselects (thd_lex st1)).
  - destruct (global_list (heap st1) (lex_query_tables (thd_lex st1))) as [tbls|];
      [|done].
    destruct (subquery_table_denied tbls).
    + intros [= <-]. split; [done|].
      eapply same_world_trans; [exact Hw|]. by repeat split.
    + intros [= <-]. done.
  - intros [= <-]. done.
Qed.

Lemma mysql_register_view_frame (st st' : state) (p : ptr)
    (mode : enum_view_create_mode) (ret : Z) :
  mysql_register_view st p mode = Some (ret, st') ->
  query_cache_log st' = query_cache_log st /\ ok_sent st' = ok_sent st
  /\ (ret <> 0 -> files st' = files st).
Proof.
  unfold mysql_register_view.
  destruct (heap st !! p) as [v|]; [|done].
  destruct (check_old_frm st v mode) as [[ret0 st0]|[v1 st1]] eqn:Hold.
  - intros [= <- <-].
    apply check_old_frm_inl_files in Hold as (? & ? & ? & ?). done.
  - pose proof (check_old_frm_inr _ _ _ _ _ Hold) as ->.
    intros Hrun.
    destruct (fill_structure st p v1) as [[st2 v2] cbm] eqn:Hfill.
    destruct (compute_updatable (heap st2) (thd_lex st2) cbm v2) as [upd|] eqn:Hc.
    2:{ unfold register_definition in Hrun. by rewrite Hfill, Hc in Hrun. }
    destruct (register_definition_spec _ _ _ _ _ _ _ Hfill Hc)
      as (ret0 & st0 & Hrun0 & Hlog & Hok & _ & Hcase).
    rewrite Hrun in Hrun0. injection Hrun0 as <- <-.
    split; [done|]. split; [done|]. intros Hret.
    destruct (_ && _); [by destruct Hcase as (_ & ? & _)|].
    destruct Hcase as (_ & Hw).
    destruct (definition_file_write_fails _ _); [by destruct Hw|].
    by destruct Hw.
Qed.

Lemma mysql_register_view_heap (st st' : state) (p : ptr)
    (mode : enum_view_create_mode) :
  mysql_register_view st p mode = Some (0, st') -> is_Some (heap st' !! p).
Proof.
  unfold mysql_register_view.
  destruct (heap st !! p) as [v|] eqn:Hv; [|done].
  destruct (check_old_frm st v mode) as [[ret0 st0]|[v1 st1]] eqn:Hold.
  - intros [= -> <-].
    apply check_old_frm_inl_files in Hold as (_ & _ & Hh & _).
    rewrite Hh, Hv. by eexists.
  - pose proof (check_old_frm_inr _ _ _ _ _ Hold) as ->.
    intros Hrun.
    destruct (fill_structure st p v1) as [[st2 v2] cbm] eqn:Hfill.
    destruct (compute_updatable (heap st2) (thd_lex st2) cbm v2) as [upd|] eqn:Hc.
    2:{ unfold register_definition in Hrun. by rewrite Hfill, Hc in Hrun. }
    destruct (register_definition_spec _ _ _ _ _ _ _ Hfill Hc)
      as (ret0 & st0 & Hrun0 & _ & _ & _ & Hcase).
    rewrite Hrun in Hrun0. injection Hrun0 as <- <-.
    destruct (_ && _); [by destruct Hcase as (? & _)|].
    destruct Hcase as (Hh & _). rewrite Hh. by eexists.
Qed.

(** What the last part of [mysql_create_view] leaves in the log of the
    query cache: the view, unless its revision is 1. *)
Lemma register_and_invalidate_log (st st' : state) (p : ptr) (link res : bool)
    (mode : enum_view_create_mode) :
  register_and_invalidate st p link mode = Some (res, st') ->
  wait_if_global_read_lock (files st) = false ->
  exists v',
    heap st' !! p = Some v'
    /\ query_cache_log st' =
       query_cache_log st
       ++ (if revision v' =? 1 then [] else [(db v', table_name v')]).
Proof.
  unfold register_and_invalidate. intros Hrun Hwait. rewrite Hwait in Hrun.
  destruct (mysql_register_view st p mode) as [[ret st1]|] eqn:Hreg; [|done].
  apply mysql_register_view_frame in Hreg as (Hlog & _ & _).
  destruct (heap st1 !! p) as [v|] eqn:Hv; [|done].
  exists v.
  destruct (revision v =? 1); simpl in Hrun;
    destruct (negb (ret =? 0)); injection Hrun as <- <-; simpl;
    rewrite ?Hlog, ?app_nil_r; done.
Qed.

Lemma register_and_invalidate_ok (st st' : state) (p : ptr) (link : bool)
    (mode : enum_view_create_mode) :
  register_and_invalidate st p link mode = Some (false, st') ->
  wait_if_global_read_lock (files st) = false
  /\ exists st1,
       mysql_register_view st p mode = Some (0, st1)
       /\ heap st' = heap st1 /\ files st' = files st1.
Proof.
  unfold register_and_invalidate.
  destruct (wait_if_global_read_lock (files st)); [done|].
  intros Hrun. split; [done|].
  destruct (mysql_register_view st p mode) as [[ret st1]|] eqn:Hreg; [|done].
  destruct (heap st1 !! p) as [v|] eqn:Hv; [|done].
  destruct (Z.eqb_spec ret 0) as [->|Hne]; simpl in Hrun; [|done].
  exists st1. split; [done|].
  destruct (negb (revision v =? 1)); injection Hrun as <-; done.
Qed.

Lemma prepare_and_check_success (st st' : state) (p : ptr) (v : TABLE_LIST)
    (link : bool) (mode : enum_view_create_mode) :
  prepare_and_check st p v link mode = Some (false, st') ->
  exists st_r,
    same_world st st_r
    /\ register_and_invalidate st_r p link mode = Some (false, st').
Proof.
  unfold prepare_and_check. simpl.
  destruct (unit_prepare _ _) as [lex|]; [|done].
  simpl.
  destruct (_ && _); [done|].
  destruct (dup_fieldname _); [done|].
  destruct (column_with_more_privileges _ _); [done|].
  intros Hrun. eexists. split; [|exact Hrun]. by repeat split.
Qed.

Lemma open_and_check_success (st st' : state) (p : ptr) (v : TABLE_LIST)
    (link : bool) (mode : enum_view_create_mode) :
  open_and_check st p v link mode = Some (false, st') ->
  exists st_r,
    same_world st st_r
    /\ register_and_invalidate st_r p link mode = Some (false, st').
Proof.
  unfold open_and_check.
  destruct (open_and_lock_tables _ _) as [h|]; [|done].
  simpl.
  destruct (global_list h _) as [tbls|]; [|done].
  intros Hrun.
  assert (prepare_and_check (set_heap h st) p v link mode = Some (false, st'))
    as Hprep.
  { destruct (examine_tables v tbls) as [[] [tbl|]]; done. }
  apply prepare_and_check_success in Hprep as (st_r & Hw & Hreg).
  exists st_r. split; [|done].
  eapply same_world_trans; [|exact Hw]. by repeat split.
Qed.

(** A statement that succeeds went through the registration. *)
Lemma mysql_create_view_success (st st' : state) (mode : enum_view_create_mode) :
  mysql_create_view st mode = Some (false, st') ->
  exists p lex link st_r,
    unlink_first_table (heap st) (thd_lex st) = Some (p, lex, link)
    /\ same_world st st_r
    /\ register_and_invalidate st_r p link mode = Some (false, st').
Proof.
  unfold mysql_create_view.
  destruct (unlink_first_table _ _) as [[[p lex] link]|]; [|done].
  simpl.
  destruct (heap st !! p) as [v|]; [|done].
  destruct (_ || _); [done|].
  destruct (_ || _); [done|].
  destruct (check_privileges _ _ _ _ _) as [[[b st1]|st1]|] eqn:Hpriv; [| |done].
  - apply check_privileges_frame in Hpriv as [-> _]. done.
  - apply check_privileges_frame in Hpriv as (Hw & _).
    intros Hrun. apply open_and_check_success in Hrun as (st_r & Hw' & Hreg).
    exists p, lex, link, st_r. split; [done|]. split; [|done].
    eapply same_world_trans; [|exact Hw'].
    eapply same_world_trans; [|exact Hw]. by repeat split.
Qed.

(** C8. A statement that succeeds invalidates the cached results of the
    view exactly when the revision of the view is not 1 after the
    registration.  The revision is 1 when no record existed and the object
    is new (revision 0); it is the revision read from the record before,
    plus one, when a record existed. *)
Theorem invalidate_unless_first_revision :
  (forall (st st' : state) (mode : enum_view_create_mode),
     mysql_create_view st mode = Some (false, st') ->
     exists p lex link v',
       unlink_first_table (heap st) (thd_lex st) = Some (p, lex, link)
       /\ heap st' !! p = Some v'
       /\ query_cache_log st' =
          query_cache_log st
          ++ (if revision v' =? 1 then [] else [(db v', table_name v')]))
  /\ (forall (st st' : state) (p : ptr) (link : bool)
        (mode : enum_view_create_mode) (v : TABLE_LIST),
        register_and_invalidate st p link mode = Some (false, st') ->
        heap st !! p = Some v ->
        let path := fn_format (frm_file v) (frm_dir v) in
        (files st !! path = None ->
         revision v = 0 ->
         exists v',
           heap st' !! p = Some v' /\ revision v' = 1
           /\ is_Some (files st' !! path)
           /\ query_cache_log st' = query_cache_log st)
        /\ (forall f parser v1,
              files st !! path = Some f ->
              sql_parse_prepare f = Some parser ->
              file_parse parser revision_number_position 1 v = Parse_ok v1 ->
              1 <= revision v1 < 2 ^ 64 - 1 ->
              exists v',
                heap st' !! p = Some v' /\ revision v' = revision v1 + 1
                /\ query_cache_log st' =
                   query_cache_log st ++ [(db v', table_name v')])).
Proof.
  split.
  - intros st st' mode Hrun.
    apply mysql_create_view_success in Hrun
      as (p & lex & link & st_r & Hun & (Hf & Hlog & Hok) & Hreg).
    pose proof (register_and_invalidate_ok _ _ _ _ _ Hreg) as (Hwait & _).
    destruct (register_and_invalidate_log _ _ _ _ _ _ Hreg Hwait)
      as (v' & Hv' & Hlog').
    exists p, lex, link, v'. rewrite Hlog in Hlog'. done.
  - intros st st' p link mode v Hreg Hv path.
    pose proof (register_and_invalidate_ok _ _ _ _ _ Hreg)
      as (Hwait & st1 & Hrun & Hheap & Hfiles).
    destruct (register_and_invalidate_log _ _ _ _ _ _ Hreg Hwait)
      as (v' & Hv' & Hlog').
    unfold mysql_register_view in Hrun. rewrite Hv in Hrun.
    assert (forall v1,
              check_old_frm st v mode = inr (v1, st) ->
              heap st' !! p = Some v' ->
              revision v' = (revision v1 + 1) mod 2 ^ 64
              /\ is_Some (files st' !! fn_format (frm_file v1) (frm_dir v1)))
      as Hrev.
    { intros v1 Hold _. rewrite Hold in Hrun.
      destruct (fill_structure st p v1) as [[st2 v2] cbm] eqn:Hfill.
      destruct (compute_updatable (heap st2) (thd_lex st2) cbm v2) as [upd|] eqn:Hc.
      2:{ unfold register_definition in Hrun. by rewrite Hfill, Hc in Hrun. }
      destruct (register_definition_spec _ _ _ _ _ _ _ Hfill Hc)
        as (ret0 & st0 & Hrun0 & _ & _ & _ & Hcase).
      rewrite Hrun in Hrun0. injection Hrun0 as <- <-.
      destruct (_ && _); [by destruct Hcase as (? & _)|].
      destruct Hcase as (Hh & Hw).
      rewrite <- Hheap in Hh. rewrite Hv' in Hh. injection Hh as ->.
      split; [done|].
      destruct (definition_file_write_fails _ _); [by destruct Hw|].
      destruct Hw as (_ & Hw). rewrite Hfiles, Hw, lookup_insert_eq. by eexists. }
    split.
    + intros Habs Hrev0.
      assert (check_old_frm st v mode = inr (v, st)) as Hold.
      { unfold check_old_frm in *. fold path in Hrun |- *.
        unfold access in *. rewrite Habs in Hrun |- *. simpl in *.
        destruct (bool_decide (mode = VIEW_ALTER)); [done|done]. }
      destruct (Hrev v Hold Hv') as (Hr & Hfile).
      exists v'. split; [done|]. rewrite Hrev0 in Hr. simpl in Hr.
      split; [done|]. split; [done|].
      rewrite Hlog', Hr. simpl. by rewrite app_nil_r.
    + intros f parser v1 Hf Hparser Hparse Hrange.
      assert (check_old_frm st v mode = inr (v1, st)) as Hold.
      { unfold check_old_frm in *. fold path in Hrun |- *.
        unfold access in *. rewrite Hf in Hrun |- *. simpl in *.
        destruct (bool_decide (mode = VIEW_CREATE_NEW)); [done|].
        rewrite Hparser in Hrun |- *.
        destruct (_ || _); [done|].
        by rewrite Hparse. }
      destruct (Hrev v1 Hold Hv') as (Hr & _).
      rewrite Z.mod_small in Hr by lia.
      exists v'. split; [done|]. split; [done|].
      rewrite Hlog'. destruct (Z.eqb_spec (revision v') 1); [lia|done].
Qed.

(** ** Lists in the heap *)

Section Lists.
Variable next : TABLE_LIST -> option ptr.

Lemma walk_lseg (h : gmap ptr TABLE_LIST) (fuel : nat) :
  forall (p : option ptr) (L : list (ptr * TABLE_LIST)),
    walk next h fuel p = Some L -> lseg next h p (L.*1) None.
Proof.
  induction fuel as [|fuel IH]; intros [a|] L; simpl; try done.
  - intros [= <-]. done.
  - destruct (h !! a) as [t|] eqn:Ha; [|done].
    destruct (walk next h fuel (next t)) as [L'|] eqn:Hw; [|done].
    intros [= <-]. simpl. split; [done|]. exists t. split; [done|]. by apply IH.
  - intros [= <-]. done.
Qed.

Lemma lseg_walk (h : gmap ptr TABLE_LIST) (l : list ptr) :
  forall (p : option ptr) (fuel : nat),
    lseg next h p l None ->
    (length l <= fuel)%nat ->
    exists L, walk next h fuel p = Some L /\ L.*1 = l.
Proof.
  induction l as [|a l IH]; intros p fuel; simpl.
  - intros -> _. exists []. by destruct fuel.
  - intros (-> & t & Ha & Hrest) Hlen.
    destruct fuel as [|fuel]; [lia|]. simpl. rewrite Ha.
    destruct (IH (next t) fuel Hrest) as (L & -> & HL); [lia|].
    exists ((a, t) :: L). split; [done|]. rewrite <- HL. reflexivity.
Qed.

Lemma lseg_app (h : gmap ptr TABLE_LIST) (l1 l2 : list ptr) :
  forall (p q : option ptr),
    lseg next h p (l1 ++ l2) q <->
    exists m, lseg next h p l1 m /\ lseg next h m l2 q.
Proof.
  induction l1 as [|a l1 IH]; intros p q; simpl.
  - split.
    + intros H. by exists p.
    + by intros (m & -> & H).
  - split.
    + intros (-> & t & Ha & Hrest). apply IH in Hrest as (m & H1 & H2).
      exists m. split; [|done]. split; [done|]. by exists t.
    + intros (m & (-> & t & Ha & H1) & H2). split; [done|].
      exists t. split; [done|]. apply IH. by exists m.
Qed.

Lemma lseg_det (h : gmap ptr TABLE_LIST) (l1 : list ptr) :
  forall (p : option ptr) (l2 : list ptr),
    lseg next h p l1 None -> lseg next h p l2 None -> l1 = l2.
Proof.
  induction l1 as [|a l1 IH]; intros p [|b l2]; simpl; try done.
  - intros -> (? & _). done.
  - intros (-> & _) ?. done.
  - intros (-> & t & Ha & H1) ([= <-] & t' & Ha' & H2).
    rewrite Ha in Ha'. injection Ha' as <-. f_equal. by eapply IH.
Qed.

Lemma lseg_lookup (h : gmap ptr TABLE_LIST) (l : list ptr) :
  forall (p q : option ptr) (a : ptr),
    lseg next h p l q -> a ∈ l -> is_Some (h !! a).
Proof.
  induction l as [|b l IH]; intros p q a; simpl.
  - intros _ Hin. by apply elem_of_nil in Hin.
  - intros (-> & t & Hb & Hrest) Hin.
    apply elem_of_cons in Hin as [->|Hin]; [by eexists|by eapply IH].
Qed.

(** A list that ends is without repetition. *)
Lemma lseg_NoDup (h : gmap ptr TABLE_LIST) (l : list ptr) :
  forall p : option ptr, lseg next h p l None -> NoDup l.
Proof.
  induction l as [|a l IH]; intros p; simpl.
  - intros _. constructor.
  - intros (-> & t & Ha & Hrest). constructor; [|by eapply IH].
    intros Hin. apply list_elem_of_split in Hin as (l1 & l2 & ->).
    apply lseg_app in Hrest as Hsplit. destruct Hsplit as (m & H1 & H2).
    simpl in H2. destruct H2 as (-> & t' & Ha' & H2).
    rewrite Ha in Ha'. injection Ha' as <-.
    pose proof (lseg_det _ _ _ _ Hrest H2) as Heq.
    apply (f_equal length) in Heq. rewrite length_app in Heq. simpl in Heq. lia.
Qed.

Lemma lseg_length (h : gmap ptr TABLE_LIST) (l : list ptr) (p : option ptr) :
  lseg next h p l None -> (length l <= size h)%nat.
Proof.
  intros Hl.
  rewrite <- (length_map_to_list h), <- (length_fmap fst (map_to_list h)).
  apply submseteq_length, NoDup_submseteq; [by eapply lseg_NoDup|].
  intros a Ha. destruct (lseg_lookup _ _ _ _ _ Hl Ha) as [t Ht].
  apply list_elem_of_fmap. exists (a, t). split; [done|].
  by apply elem_of_map_to_list.
Qed.

(** The list is read off the heap when it ends. *)
Lemma lseg_walk_size (h : gmap ptr TABLE_LIST) (l : list ptr) (p : option ptr) :
  lseg next h p l None ->
  exists L, walk next h (size h) p = Some L /\ L.*1 = l.
Proof.
  intros Hl. apply lseg_walk; [done|]. by eapply lseg_length.
Qed.

Lemma walk_ptrs_lseg (h : gmap ptr TABLE_LIST) (l : list ptr) (p : option ptr) :
  fmap (M := option) (fmap fst) (walk next h (size h) p) = Some l <->
  lseg next h p l None.
Proof.
  split.
  - destruct (walk next h (size h) p) as [L|] eqn:Hw; [|done].
    intros [= <-]. by eapply walk_lseg.
  - intros Hl. destruct (lseg_walk_size _ _ _ Hl) as (L & HL & Hfst).
    rewrite HL. simpl. by rewrite Hfst.
Qed.

(** The list depends on the member [next] of its objects only. *)
Lemma lseg_ext (h h' : gmap ptr TABLE_LIST) (l : list ptr) :
  forall (p q : option ptr),
    (forall a, a ∈ l -> next <$> h' !! a = next <$> h !! a) ->
    lseg next h p l q -> lseg next h' p l q.
Proof.
  induction l as [|a l IH]; intros p q Hsame; simpl; [done|].
  intros (-> & t & Ha & Hrest). split; [done|].
  pose proof (Hsame a ltac:(left)) as Hn. rewrite Ha in Hn. simpl in Hn.
  destruct (h' !! a) as [t'|]; [|done]. injection Hn as Hn.
  exists t'. split; [done|]. rewrite Hn. apply IH; [|done].
  intros b Hb. apply Hsame. by right.
Qed.

End Lists.

Lemma size_alter (f : TABLE_LIST -> TABLE_LIST) (p : ptr)
    (h : gmap ptr TABLE_LIST) :
  size (alter f p h) = size h.
Proof.
  rewrite <- !(size_dom (D := gset ptr)). by rewrite dom_alter_L.
Qed.

Lemma lookup_upd (p a : ptr) (f : TABLE_LIST -> TABLE_LIST) (st : state) :
  heap (upd p f st) !! a =
  if decide (p = a) then f <$> heap st !! a else heap st !! a.
Proof.
  unfold upd. simpl. rewrite lookup_alter. case_decide; by subst.
Qed.

Lemma lookup_upd_keeps {A : Type} (g : TABLE_LIST -> A) (p a : ptr)
    (f : TABLE_LIST -> TABLE_LIST) (st : state) :
  keeps g f -> g <$> heap (upd p f st) !! a = g <$> heap st !! a.
Proof.
  intros Hk. rewrite lookup_upd. case_decide; [|done].
  destruct (heap st !! a); simpl; [|done]. by rewrite Hk.
Qed.

Lemma upd_each_cons (p : ptr) (ps : list ptr) (f : TABLE_LIST -> TABLE_LIST)
    (st : state) :
  upd_each (p :: ps) f st = upd_each ps f (upd p f st).
Proof. reflexivity. Qed.

Lemma lookup_upd_each_keeps {A : Type} (g : TABLE_LIST -> A) (ps : list ptr)
    (f : TABLE_LIST -> TABLE_LIST) :
  keeps g f ->
  forall (st : state) (a : ptr),
    g <$> heap (upd_each ps f st) !! a = g <$> heap st !! a.
Proof.
  intros Hk. induction ps as [|p ps IH]; intros st a; [done|].
  rewrite upd_each_cons, IH. by apply lookup_upd_keeps.
Qed.

Lemma lookup_upd_each_notin (ps : list ptr) (f : TABLE_LIST -> TABLE_LIST) :
  forall (st : state) (a : ptr),
    a ∉ ps -> heap (upd_each ps f st) !! a = heap st !! a.
Proof.
  induction ps as [|p ps IH]; intros st a Hnot; [done|].
  apply not_elem_of_cons in Hnot as [Hne Hnot].
  rewrite upd_each_cons, IH by done.
  rewrite lookup_upd. by case_decide.
Qed.

Lemma upd_frame (p : ptr) (f : TABLE_LIST -> TABLE_LIST) (st : state) :
  thd_lex (upd p f st) = thd_lex st
  /\ size (heap (upd p f st)) = size (heap st)
  /\ yyparse_calls (upd p f st) = yyparse_calls st.
Proof. unfold upd. simpl. by rewrite size_alter. Qed.

Lemma upd_each_frame (ps : list ptr) (f : TABLE_LIST -> TABLE_LIST) :
  forall st : state,
    thd_lex (upd_each ps f st) = thd_lex st
    /\ size (heap (upd_each ps f st)) = size (heap st)
    /\ yyparse_calls (upd_each ps f st) = yyparse_calls st.
Proof.
  induction ps as [|p ps IH]; intros st; [done|].
  rewrite upd_each_cons. destruct (IH (upd p f st)) as (-> & -> & ->).
  apply upd_frame.
Qed.

Lemma lookup_upd_is_Some (p a : ptr) (f : TABLE_LIST -> TABLE_LIST) (st : state) :
  is_Some (heap (upd p f st) !! a) <-> is_Some (heap st !! a).
Proof.
  rewrite lookup_upd. case_decide; [|done]. by rewrite fmap_is_Some.
Qed.

Lemma lookup_upd_each_is_Some (ps : list ptr) (f : TABLE_LIST -> TABLE_LIST) :
  forall (st : state) (a : ptr),
    is_Some (heap (upd_each ps f st) !! a) <-> is_Some (heap st !! a).
Proof.
  induction ps as [|p ps IH]; intros st a; [done|].
  rewrite upd_each_cons, IH. apply lookup_upd_is_Some.
Qed.

Lemma same_member_refl {A : Type} (g : TABLE_LIST -> A) (st : state) :
  same_member g st st.
Proof. by intros a. Qed.

Lemma same_member_trans {A : Type} (g : TABLE_LIST -> A) (st1 st2 st3 : state) :
  same_member g st1 st2 -> same_member g st2 st3 -> same_member g st1 st3.
Proof. intros H1 H2 a. by rewrite H2, H1. Qed.

Lemma same_member_upd {A : Type} (g : TABLE_LIST -> A) (p : ptr)
    (f : TABLE_LIST -> TABLE_LIST) (st : state) :
  keeps g f -> same_member g st (upd p f st).
Proof. intros Hk a. by apply lookup_upd_keeps. Qed.

Lemma same_member_upd_each {A : Type} (g : TABLE_LIST -> A) (ps : list ptr)
    (f : TABLE_LIST -> TABLE_LIST) (st : state) :
  keeps g f -> same_member g st (upd_each ps f st).
Proof. intros Hk a. by apply lookup_upd_each_keeps. Qed.

Lemma same_member_heap {A : Type} (g : TABLE_LIST -> A) (st st' : state) :
  heap st' = heap st -> same_member g st st'.
Proof. intros Hh a. by rewrite Hh. Qed.

Lemma same_member_is_Some {A : Type} (g : TABLE_LIST -> A) (st st' : state)
    (a : ptr) :
  same_member g st st' -> is_Some (heap st' !! a) <-> is_Some (heap st !! a).
Proof.
  intros Hs. specialize (Hs a).
  destruct (heap st' !! a), (heap st !! a); simpl in Hs; try done.
Qed.

Lemma lseg_same_member (next : TABLE_LIST -> option ptr) (st st' : state)
    (p q : option ptr) (l : list ptr) :
  same_member next st st' ->
  lseg next (heap st) p l q -> lseg next (heap st') p l q.
Proof. intros Hs. apply lseg_ext. intros a _. apply Hs. Qed.

(** ** mysql_make_view *)

Lemma make_view_ok_spec (st st' : state) (p : ptr) (lex : LEX) (r : Z) :
  make_view_ok st p lex = Some (r, st') ->
  r = 0 /\ st' = upd p (set_view (Some lex)) st
  /\ exists t, heap st !! p = Some t
               /\ heap st' !! p = Some (set_view (Some lex) t).
Proof.
  unfold make_view_ok. destruct (heap st !! p) as [t|] eqn:Ht; [|done].
  intros [= <- <-]. split; [done|]. split; [done|].
  exists t. split; [done|]. by rewrite lookup_upd, decide_True, Ht.
Qed.

Lemma make_view_merge_spec (st st' : state) (p : ptr) (lex : LEX)
    (view_tables : option ptr) :
  make_view_merge st p lex view_tables = Some st' ->
  (exists t t',
     heap st !! p = Some t /\ heap st' !! p = Some t'
     /\ effective_algorithm t' = VIEW_ALGORITHM_MERGE
     /\ updatable t' = negb (updatable_view t =? 0))
  /\ same_member next_global st st'
  /\ same_member next_local st st'
  /\ lex_query_tables (thd_lex st') = lex_query_tables (thd_lex st)
  /\ yyparse_calls st' = yyparse_calls st.
Proof.
  unfold make_view_merge.
  destruct view_tables as [vt|]; [|done].
  set (f0 := fun t : TABLE_LIST =>
               set_ancestor (Some vt)
                 (set_effective_with_check (with_check t)
                    (set_updatable (negb (updatable_view t =? 0))
                       (set_effective_algorithm VIEW_ALGORITHM_MERGE t)))).
  destruct (heap (upd p f0 st) !! p) as [t1|] eqn:Ht1; [|done].
  destruct (local_list _ _) as [locals|]; [|done].
  set (st1 := upd_each (locals.*1) (set_select_lex (select_lex t1)) (upd p f0 st)).
  destruct (heap st1 !! vt) as [first|]; [|done].
  set (st2 := if bool_decide (is_Some (next_local first))
              then upd p (set_multitable_view true) st1 else st1).
  intros [= <-].
  rewrite lookup_upd, decide_True in Ht1 by done.
  destruct (heap st !! p) as [t|] eqn:Ht; [|done]. injection Ht1 as <-.
  assert (forall (A : Type) (g : TABLE_LIST -> A),
            keeps g f0 ->
            keeps g (set_select_lex (select_lex (f0 t))) ->
            keeps g (set_multitable_view true) ->
            keeps g (set_nested_join
                       (Some {| nj_join_list := sl_top_join_list (lex_select_lex lex) |})) ->
            keeps g (fun tbl =>
                       set_embedding (Some p)
                         (set_join_list (Some (Join_list_of_nested p)) tbl)) ->
            keeps g (set_where_ (sl_where (lex_select_lex lex))) ->
            same_member g st
              (upd p (set_where_ (sl_where (lex_select_lex lex)))
                 (upd_each (sl_top_join_list (lex_select_lex lex))
                    (fun tbl =>
                       set_embedding (Some p)
                         (set_join_list (Some (Join_list_of_nested p)) tbl))
                    (upd p
                       (set_nested_join
                          (Some {| nj_join_list :=
                                     sl_top_join_list (lex_select_lex lex) |}))
                       st2)))) as Hsame.
  { intros A g K0 K1 K2 K3 K4 K5.
    eapply same_member_trans; [|by apply same_member_upd].
    eapply same_member_trans; [|by apply same_member_upd_each].
    eapply same_member_trans; [|by apply same_member_upd].
    assert (same_member g st st1) as H1.
    { eapply same_member_trans; [|by apply same_member_upd_each].
      by apply same_member_upd. }
    unfold st2. destruct (bool_decide _); [|done].
    eapply same_member_trans; [exact H1|]. by apply same_member_upd. }
  split.
  - exists t.
    assert (forall (A : Type) (g : TABLE_LIST -> A),
              keeps g (set_select_lex (select_lex (f0 t))) ->
              keeps g (set_multitable_view true) ->
              keeps g (set_nested_join
                         (Some {| nj_join_list := sl_top_join_list (lex_select_lex lex) |})) ->
              keeps g (fun tbl =>
                         set_embedding (Some p)
                           (set_join_list (Some (Join_list_of_nested p)) tbl)) ->
              keeps g (set_where_ (sl_where (lex_select_lex lex))) ->
              g <$> heap
                      (upd p (set_where_ (sl_where (lex_select_lex lex)))
                         (upd_each (sl_top_join_list (lex_select_lex lex))
                            (fun tbl =>
                               set_embedding (Some p)
                                 (set_join_list (Some (Join_list_of_nested p)) tbl))
                            (upd p
                               (set_nested_join
                                  (Some {| nj_join_list :=
                                             sl_top_join_list (lex_select_lex lex) |}))
                               st2))) !! p
              = Some (g (f0 t))) as Hp.
    { intros A g K1 K2 K3 K4 K5.
      rewrite lookup_upd_keeps, lookup_upd_each_keeps, lookup_upd_keeps by done.
      assert (g <$> heap st1 !! p = Some (g (f0 t))) as H1.
      { unfold st1. rewrite lookup_upd_each_keeps by done.
        by rewrite lookup_upd, decide_True, Ht. }
      unfold st2. destruct (bool_decide _); [|done].
      by rewrite lookup_upd_keeps. }
    pose proof (Hp _ effective_algorithm ltac:(done) ltac:(done) ltac:(done)
                  ltac:(done) ltac:(done)) as He.
    pose proof (Hp _ updatable ltac:(done) ltac:(done) ltac:(done)
                  ltac:(done) ltac:(done)) as Hu.
    match goal with
    | |- context [heap ?s !! p = Some _] =>
        destruct (heap s !! p) as [t'|] eqn:Hfin; [|done]
    end.
    exists t'. split; [done|]. split; [done|].
    split; [by injection He|by injection Hu].
  - split; [by apply Hsame|]. split; [by apply Hsame|].
    simpl. split.
    + rewrite (proj1 (upd_each_frame _ _ _)). simpl.
      unfold st2. destruct (bool_decide _); simpl;
        unfold st1; by rewrite (proj1 (upd_each_frame _ _ _)).
    + rewrite (proj2 (proj2 (upd_each_frame _ _ _))). simpl.
      unfold st2. destruct (bool_decide _); simpl;
        unfold st1; by rewrite (proj2 (proj2 (upd_each_frame _ _ _))).
Qed.

Lemma fmap_set_next_global (x : option TABLE_LIST) (n : option ptr) :
  is_Some x -> next_global <$> (set_next_global n <$> x) = Some n.
Proof. by intros [t ->]. Qed.

Lemma splice_view_tables_spec (st : state) (p vt tl : ptr) (t : TABLE_LIST) :
  heap st !! p = Some t ->
  is_Some (heap st !! tl) ->
  p <> tl ->
  (next_global t = None -> next_global <$> heap st !! tl = Some None) ->
  exists st',
    splice_view_tables p (Some vt) (Some tl) st = Some st'
    /\ (forall a, a <> p -> a <> tl ->
        next_global <$> heap st' !! a = next_global <$> heap st !! a)
    /\ next_global <$> heap st' !! p = Some (Some vt)
    /\ next_global <$> heap st' !! tl = Some (next_global t)
    /\ same_member next_local st st'
    /\ lex_query_tables (thd_lex st') = lex_query_tables (thd_lex st)
    /\ size (heap st') = size (heap st).
Proof.
  intros Ht Htl Hne Hend. unfold splice_view_tables. rewrite Ht.
  eexists. split; [done|].
  destruct (next_global t) as [nxt|] eqn:Hnext.
  - split; [|split; [|split; [|split; [|split]]]].
    + intros a Hap Hatl.
      rewrite lookup_upd, decide_False by done.
      rewrite !lookup_upd_keeps by done.
      by rewrite lookup_upd, decide_False.
    + rewrite lookup_upd, decide_True by done.
      apply fmap_set_next_global.
      rewrite !lookup_upd_is_Some. by rewrite Ht.
    + rewrite lookup_upd, decide_False by done.
      rewrite !lookup_upd_keeps by done.
      rewrite lookup_upd, decide_True by done.
      by apply fmap_set_next_global.
    + repeat (eapply same_member_trans; [|by apply same_member_upd]).
      apply same_member_refl.
    + by rewrite !(proj1 (upd_frame _ _ _)).
    + by rewrite !(proj1 (proj2 (upd_frame _ _ _))).
  - split; [|split; [|split; [|split; [|split]]]].
    + intros a Hap Hatl.
      rewrite lookup_upd, decide_False by done.
      by rewrite lookup_upd_keeps.
    + rewrite lookup_upd, decide_True by done.
      apply fmap_set_next_global.
      rewrite lookup_upd_is_Some. simpl. by rewrite Ht.
    + rewrite lookup_upd, decide_False by done.
      rewrite lookup_upd_keeps by done. simpl. by apply Hend.
    + repeat (eapply same_member_trans; [|by apply same_member_upd]).
      by apply same_member_heap.
    + by rewrite !(proj1 (upd_frame _ _ _)).
    + by rewrite !(proj1 (proj2 (upd_frame _ _ _))).
Qed.

Lemma lseg_last_next (next : TABLE_LIST -> option ptr) (h : gmap ptr TABLE_LIST)
    (l : list ptr) (tl : ptr) :
  forall p : option ptr,
    lseg next h p (l ++ [tl]) None -> next <$> h !! tl = Some None.
Proof.
  intros p H. apply lseg_app in H as (m & _ & H). simpl in H.
  destruct H as (-> & t & Ht & Hn). rewrite Ht. simpl in *. by rewrite Hn.
Qed.

(** The view tables are put into the global list of the statement right
    after the node of the view. *)
Lemma link_view_tables_spec (st : state) (p : ptr) (t : TABLE_LIST) (lex : LEX)
    (pre post V locals : list ptr) :
  heap st !! p = Some t ->
  lseg next_global (heap st) (lex_query_tables (thd_lex st))
    (pre ++ p :: post) None ->
  lseg next_global (heap st) (lex_query_tables lex) V None ->
  (forall a, a ∈ V -> a ∉ pre ++ p :: post) ->
  lseg next_local (heap st) (sl_table_list_first (lex_select_lex lex))
    locals None ->
  exists st',
    link_view_tables st p t lex = Some st'
    /\ lseg next_global (heap st') (lex_query_tables (thd_lex st'))
         (pre ++ p :: V ++ post) None
    /\ same_member next_local st st'
    /\ size (heap st') = size (heap st)
    /\ yyparse_calls st' = yyparse_calls st.
Proof.
  intros Ht Hout HV Hdisj Hloc.
  unfold link_view_tables.
  destruct (lseg_walk_size _ _ _ _ HV) as (tbls & Hwalk & Htbls).
  unfold global_list. rewrite Hwalk, Htbls.
  set (mark := fun tbl : TABLE_LIST =>
                 set_belong_to_view
                   (Some match belong_to_view t with
                         | Some top => top
                         | None => p
                         end) (set_skip_temporary true tbl)).
  set (st_a := upd_each V mark st).
  assert (same_member next_global st st_a) as Hga by by apply same_member_upd_each.
  assert (same_member next_local st st_a) as Hla by by apply same_member_upd_each.
  assert (size (heap st_a) = size (heap st)) as Hsa
    by apply (upd_each_frame V mark st).
  assert (thd_lex st_a = thd_lex st) as Hlexa by apply (upd_each_frame V mark st).
  assert (yyparse_calls st_a = yyparse_calls st) as Hya
    by apply (upd_each_frame V mark st).
  assert (p ∉ V) as HpV.
  { intros Hin. apply (Hdisj p Hin). apply elem_of_app. right. left. }
  (* the outer list, cut at the node *)
  pose proof (lseg_NoDup _ _ _ _ Hout) as Hnd.
  apply NoDup_app in Hnd as (_ & Hpre_p & Hnd).
  apply NoDup_cons in Hnd as (Hp_post & _).
  apply lseg_app in Hout as (m & Hpre & Hrest).
  simpl in Hrest. destruct Hrest as (-> & t0 & Ht0 & Hpost).
  rewrite Ht in Ht0. injection Ht0 as <-.
  assert (exists st_s,
            splice_view_tables p (lex_query_tables lex) (last V) st_a = Some st_s
            /\ lseg next_global (heap st_s) (lex_query_tables (thd_lex st_s))
                 (pre ++ p :: V ++ post) None
            /\ same_member next_local st st_s
            /\ size (heap st_s) = size (heap st)
            /\ yyparse_calls st_s = yyparse_calls st) as (st_s & -> & Hlist & Hls & Hss & Hys).
  { destruct (lex_query_tables lex) as [vt|] eqn:Hvt.
    - (* V = V0 ++ [tl] *)
      destruct V as [|v0 V'] using rev_ind; [by simpl in HV|]. clear IHV'.
      rename V' into V0. rename v0 into tl. rewrite last_snoc.
      assert (is_Some (heap st_a !! tl)) as Htl.
      { apply (same_member_is_Some next_global st st_a tl Hga).
        eapply (lseg_lookup next_global); [exact HV|].
        apply elem_of_app. right. left. }
      assert (p <> tl) as Hptl.
      { intros ->. apply HpV. apply elem_of_app. right. left. }
      assert (exists ta, heap st_a !! p = Some ta /\ next_global ta = next_global t)
        as (ta & Hta & Hnta).
      { pose proof (Hga p) as Hp. rewrite Ht in Hp. simpl in Hp.
        destruct (heap st_a !! p) as [ta|]; [|done]. injection Hp as Hp.
        by exists ta. }
      destruct (splice_view_tables_spec st_a p vt tl ta Hta Htl Hptl)
        as (st_s & Hrun & Hother & Hp & Htail & Hloc' & Hlex & Hsize).
      { intros _. rewrite Hga. by eapply lseg_last_next. }
      exists st_s. split; [done|].
      split; [|split; [by eapply same_member_trans|split; [congruence|]]].
      2:{ unfold splice_view_tables in Hrun. rewrite Hta in Hrun.
          injection Hrun as <-.
          destruct (next_global ta); simpl;
            rewrite ?(proj2 (proj2 (upd_frame _ _ _))); simpl;
            rewrite ?(proj2 (proj2 (upd_frame _ _ _))); done. }
      rewrite Hlex, Hlexa.
      pose proof (lseg_NoDup _ _ _ _ HV) as HndV.
      apply NoDup_app in HndV as (_ & HV0_tl & _).
      apply lseg_app in HV as (m & HV0 & Htl').
      simpl in Htl'. destruct Htl' as (-> & ttl & Httl & Hnil).
      (* the pieces of the new list *)
      apply lseg_app. exists (Some p). split.
      { eapply lseg_ext; [|exact Hpre]. intros a Ha.
        rewrite Hother, Hga; [done| |].
        - intros ->. by apply (Hpre_p p Ha); left.
        - intros ->. apply (Hdisj tl); [apply elem_of_app; right; left|].
          apply elem_of_app. by left. }
      simpl. split; [done|].
      destruct (heap st_s !! p) as [tp|] eqn:Htp; [|done].
      simpl in Hp. injection Hp as Hp.
      exists tp. split; [done|]. rewrite Hp.
      rewrite <- app_assoc. apply lseg_app. exists (Some tl). split.
      { eapply lseg_ext; [|exact HV0]. intros a Ha.
        rewrite Hother, Hga; [done| |].
        - intros ->. apply HpV. apply elem_of_app. by left.
        - intros ->. apply (HV0_tl tl Ha). left. }
      simpl. split; [done|].
      destruct (heap st_s !! tl) as [ttl'|] eqn:Httl'; [|done].
      simpl in Htail. injection Htail as Htail.
      exists ttl'. split; [done|]. rewrite Htail, Hnta.
      eapply lseg_ext; [|exact Hpost]. intros a Ha.
      rewrite Hother, Hga; [done| |].
      + intros ->. done.
      + intros ->. apply (Hdisj tl); [apply elem_of_app; right; left|].
        apply elem_of_app. right. by right.
    - destruct V as [|v0 V']; [|by destruct HV].
      exists st_a. split; [done|].
      split; [|done]. rewrite Hlexa. simpl.
      apply (lseg_same_member next_global st st_a); [done|].
      apply lseg_app. exists (Some p). split; [done|].
      simpl. split; [done|]. by exists t. }
  destruct (bool_decide (lex_next_selects lex = [])).
  - assert (lseg next_local (heap st_s) (sl_table_list_first (lex_select_lex lex))
              locals None) as Hloc_s
      by by apply (lseg_same_member next_local st st_s).
    destruct (lseg_walk_size _ _ _ _ Hloc_s) as (L & HL & HLl).
    unfold local_list. rewrite HL.
    eexists. split; [done|].
    destruct (upd_each_frame (L.*1) (set_lock_type (lock_type t)) st_s)
      as (Hlex' & Hsize' & Hy').
    rewrite Hlex', Hsize', Hy'. split; [|split; [|done]].
    + apply (lseg_same_member next_global st_s); [|done].
      by apply same_member_upd_each.
    + eapply same_member_trans; [exact Hls|]. by apply same_member_upd_each.
  - by exists st_s.
Qed.

Lemma merge_ability_move_options (t : TABLE_LIST) (lex old_lex : LEX) :
  merge_ability t lex (move_options lex old_lex) = merge_ability t lex old_lex.
Proof.
  unfold merge_ability, move_options. by destruct (negb (Z.land _ _ =? 0)).
Qed.

Lemma move_options_query_tables (lex old_lex : LEX) :
  lex_query_tables (move_options lex old_lex) = lex_query_tables old_lex.
Proof. unfold move_options. by destruct (negb (Z.land _ _ =? 0)). Qed.

Lemma heap_set_thd_lex (l : LEX) (st : state) :
  heap (set_thd_lex l st) = heap st.
Proof. reflexivity. Qed.

Lemma make_view_tmptable_spec (st st' : state) (p : ptr) (lex lex' : LEX)
    (t : TABLE_LIST) :
  make_view_tmptable st p lex = (st', lex') ->
  heap st !! p = Some t ->
  (exists t',
     heap st' !! p = Some t'
     /\ effective_algorithm t' = VIEW_ALGORITHM_TMPTABLE
     /\ updatable t' = false)
  /\ same_member next_global st st'
  /\ lex_query_tables (thd_lex st') = lex_query_tables (thd_lex st)
  /\ yyparse_calls st' = yyparse_calls st.
Proof.
  unfold make_view_tmptable. intros [= <- <-] Ht. split.
  - eexists. split.
    + rewrite !lookup_upd, !decide_True by done. simpl.
      rewrite !lookup_alter_eq. by rewrite Ht.
    + done.
  - split; [|done].
    repeat (eapply same_member_trans; [|by apply same_member_upd]).
    apply same_member_heap. simpl.
    repeat (eapply same_member_trans; [|by apply same_member_upd]).
    done.
Qed.

(** Every way out of [choose_algorithm] returns 0 and leaves the LEX of the
    view at the node; a node that is no placeholder for prelocking gets
    MERGE, or TEMPTABLE and then is not updatable. *)
Lemma choose_algorithm_spec (st st' : state) (p : ptr) (t : TABLE_LIST)
    (lex : LEX) (r : Z) :
  choose_algorithm st p t lex = Some (r, st') ->
  r = 0
  /\ (exists t',
        heap st' !! p = Some t' /\ is_Some (view t')
        /\ (prelocking_placeholder t = false ->
            effective_algorithm t' = VIEW_ALGORITHM_MERGE
            /\ merge_ability t lex (thd_lex st) = true
            \/ effective_algorithm t' = VIEW_ALGORITHM_TMPTABLE
               /\ updatable t' = false))
  /\ same_member next_global st st'
  /\ lex_query_tables (thd_lex st') = lex_query_tables (thd_lex st)
  /\ yyparse_calls st' = yyparse_calls st.
Proof.
  unfold choose_algorithm.
  destruct (prelocking_placeholder t).
  { intros Hok. apply make_view_ok_spec in Hok as (-> & -> & t0 & Ht0 & Ht').
    split; [done|]. split; [|split; [by apply same_member_upd|done]].
    eexists. split; [exact Ht'|]. split; [by eexists|done]. }
  cbn [thd_lex set_thd_lex]. rewrite merge_ability_move_options.
  destruct (merge_ability t lex (thd_lex st)) eqn:Hm.
  - destruct (make_view_merge _ _ _ _) as [st2|] eqn:Hmerge; [|done].
    apply make_view_merge_spec in Hmerge
      as ((t0 & t2 & Ht0 & Ht2 & He & Hu) & Hg & _ & Hq & Hy).
    intros Hok. apply make_view_ok_spec in Hok as (-> & -> & t3 & Ht3 & Ht').
    rewrite Ht2 in Ht3. injection Ht3 as <-.
    split; [done|]. split; [|split; [|split]].
    + eexists. split; [exact Ht'|]. split; [by eexists|]. intros _. by left.
    + eapply same_member_trans; [exact Hg|]. by apply same_member_upd.
    + simpl. rewrite Hq. simpl. apply move_options_query_tables.
    + simpl. by rewrite Hy.
  - destruct (make_view_tmptable
                (set_thd_lex (move_options lex (thd_lex st)) st) p lex)
      as [st2 lex2] eqn:Htmp.
    intros Hok. apply make_view_ok_spec in Hok as (-> & -> & t3 & Ht3 & Ht').
    assert (is_Some (heap (set_thd_lex (move_options lex (thd_lex st)) st) !! p))
      as [t0 Ht0].
    { unfold make_view_tmptable in Htmp. injection Htmp as <- _.
      apply mk_is_Some in Ht3.
      rewrite lookup_upd_is_Some, heap_set_thd_lex in Ht3.
      by rewrite !lookup_upd_is_Some in Ht3. }
    apply (make_view_tmptable_spec _ _ _ _ _ t0) in Htmp
      as ((t2 & Ht2 & He & Hu) & Hg & Hq & Hy); [|done].
    rewrite Ht2 in Ht3. injection Ht3 as <-.
    split; [done|]. split; [|split; [|split]].
    + eexists. split; [exact Ht'|]. split; [by eexists|]. intros _. by right.
    + eapply same_member_trans; [|by apply same_member_upd].
      eapply same_member_trans; [|exact Hg]. by apply same_member_heap.
    + simpl. rewrite Hq. simpl. apply move_options_query_tables.
    + simpl. by rewrite Hy.
Qed.

(** The MERGE branch is taken and ends when the lists of the view are in
    place. *)
Lemma choose_algorithm_merge (st : state) (p vt : ptr) (t t0 : TABLE_LIST)
    (lex : LEX) (locals : list ptr) :
  prelocking_placeholder t = false ->
  merge_ability t lex (thd_lex st) = true ->
  lex_query_tables lex = Some vt ->
  heap st !! p = Some t0 ->
  is_Some (heap st !! vt) ->
  lseg next_local (heap st) (sl_table_list_first (lex_select_lex lex))
    locals None ->
  exists st', choose_algorithm st p t lex = Some (0, st').
Proof.
  intros Hpl Hm Hvt Ht0 Hvt' Hloc.
  unfold choose_algorithm. rewrite Hpl. simpl.
  rewrite merge_ability_move_options, Hm, Hvt.
  unfold make_view_merge.
  set (st0 := set_thd_lex (move_options lex (thd_lex st)) st).
  set (f0 := fun t : TABLE_LIST =>
               set_ancestor (Some vt)
                 (set_effective_with_check (with_check t)
                    (set_updatable (negb (updatable_view t =? 0))
                       (set_effective_algorithm VIEW_ALGORITHM_MERGE t)))).
  assert (heap (upd p f0 st0) !! p = Some (f0 t0)) as ->.
  { rewrite lookup_upd, decide_True by done. simpl. by rewrite Ht0. }
  assert (lseg next_local (heap (upd p f0 st0))
            (sl_table_list_first (lex_select_lex lex)) locals None) as Hloc'.
  { apply (lseg_same_member next_local st); [|done].
    eapply same_member_trans; [|by apply same_member_upd].
    by apply same_member_heap. }
  destruct (lseg_walk_size _ _ _ _ Hloc') as (L & HL & _).
  unfold local_list. rewrite HL.
  set (st1 := upd_each (L.*1) (set_select_lex (select_lex (f0 t0))) (upd p f0 st0)).
  assert (is_Some (heap st1 !! vt)) as [first ->].
  { unfold st1. rewrite lookup_upd_each_is_Some, lookup_upd_is_Some. done. }
  unfold make_view_ok.
  match goal with
  | |- context [heap ?s !! p] =>
      assert (is_Some (heap s !! p)) as [tf ->]
  end.
  { rewrite lookup_upd_is_Some, lookup_upd_each_is_Some, lookup_upd_is_Some.
    destruct (bool_decide _);
      rewrite ?lookup_upd_is_Some; unfold st1;
      rewrite lookup_upd_each_is_Some, lookup_upd_is_Some; simpl;
      by rewrite Ht0. }
  by eexists.
Qed.

(** C3. A node that carries the LEX of its view is left as it is: the
    call returns 0 at once, in the same state, without a call of the
    parser; and after a call that returned 0 the node carries the LEX of
    its view, so that every further call is of this kind. *)
Theorem mysql_make_view_idempotent :
  (forall (st : state) (parser : File_parser) (p : ptr) (t : TABLE_LIST),
     heap st !! p = Some t ->
     is_Some (view t) ->
     mysql_make_view st parser p = Some (0, st))
  /\ (forall (st st' : state) (parser parser' : File_parser) (p : ptr),
        mysql_make_view st parser p = Some (0, st') ->
        (exists t', heap st' !! p = Some t' /\ is_Some (view t'))
        /\ mysql_make_view st' parser' p = Some (0, st')
        /\ forall st'',
             mysql_make_view st' parser' p = Some (0, st'') ->
             heap st'' = heap st' /\ thd_lex st'' = thd_lex st'
             /\ yyparse_calls st'' = yyparse_calls st').
Proof.
  assert (forall (st : state) (parser : File_parser) (p : ptr) (t : TABLE_LIST),
            heap st !! p = Some t ->
            is_Some (view t) ->
            mysql_make_view st parser p = Some (0, st)) as Hnoop.
  { intros st parser p t Ht Hview. unfold mysql_make_view.
    by rewrite Ht, (bool_decide_eq_true_2 _ Hview). }
  split; [exact Hnoop|].
  intros st st' parser parser' p Hrun.
  assert (exists t', heap st' !! p = Some t' /\ is_Some (view t')) as Hres.
  { unfold mysql_make_view in Hrun.
    destruct (heap st !! p) as [t|] eqn:Ht; [|done].
    destruct (bool_decide (is_Some (view t))) eqn:Hview.
    - injection Hrun as <-. apply bool_decide_eq_true in Hview. by exists t.
    - destruct (parse_view st parser p t) as [st1|[st1 lex]]; [done|].
      unfold make_view_parsed in Hrun.
      destruct (heap st1 !! p) as [t1|]; [|done].
      destruct (view_access_denied _ _ _ _); [done|].
      destruct (link_view_tables _ _ _ _) as [st2|]; [|done].
      apply choose_algorithm_spec in Hrun as (_ & (t' & Ht' & Hv' & _) & _).
      by exists t'. }
  split; [done|]. destruct Hres as (t' & Ht' & Hv').
  rewrite (Hnoop st' parser' p t' Ht' Hv').
  split; [done|]. by intros st'' [= <-].
Qed.

(** A node resolved by [mysql_make_view], other than a placeholder for
    prelocking, has the algorithm MERGE or TEMPTABLE, and is not updatable
    when it is TEMPTABLE. *)
Lemma mysql_make_view_updatable (st st1 st' : state) (parser : File_parser)
    (p : ptr) (t t1 : TABLE_LIST) (lex : LEX) :
  heap st !! p = Some t ->
  view t = None ->
  parse_view st parser p t = inr (st1, lex) ->
  heap st1 !! p = Some t1 ->
  prelocking_placeholder t1 = false ->
  mysql_make_view st parser p = Some (0, st') ->
  exists t',
    heap st' !! p = Some t'
    /\ (effective_algorithm t' = VIEW_ALGORITHM_MERGE
        \/ effective_algorithm t' = VIEW_ALGORITHM_TMPTABLE)
    /\ (effective_algorithm t' = VIEW_ALGORITHM_TMPTABLE -> updatable t' = false)
    /\ (updatable t' = true -> effective_algorithm t' = VIEW_ALGORITHM_MERGE).
Proof.
  intros Ht Hview Hparse Ht1 Hpl Hrun.
  unfold mysql_make_view in Hrun. rewrite Ht, Hview in Hrun.
  rewrite bool_decide_eq_false_2 in Hrun by (by intros [? ?]).
  rewrite Hparse in Hrun. unfold make_view_parsed in Hrun. rewrite Ht1 in Hrun.
  destruct (view_access_denied _ _ _ _); [done|].
  destruct (link_view_tables _ _ _ _) as [st2|]; [|done].
  apply choose_algorithm_spec in Hrun as (_ & (t' & Ht' & _ & Hcase) & _).
  exists t'. split; [done|].
  destruct (Hcase Hpl) as [[He _]|[He Hu]].
  - split; [by left|]. split; [by rewrite He|done].
  - split; [by right|]. split; [done|]. rewrite Hu. done.
Qed.

(** C5. When the view is resolved with the MERGE algorithm, the tables of
    its query are in the global table list of the statement right after
    the node of the view, in their order, before the tables that followed
    the node. *)
Theorem view_tables_follow_the_view (st st1 : state) (parser : File_parser)
    (p : ptr) (t t1 : TABLE_LIST) (lex : LEX) (pre post V locals : list ptr) :
  heap st !! p = Some t ->
  view t = None ->
  parse_view st parser p t = inr (st1, lex) ->
  heap st1 !! p = Some t1 ->
  view_access_denied st1 p t1 (lex_query_tables lex) = None ->
  prelocking_placeholder t1 = false ->
  merge_ability t1 lex (thd_lex st1) = true ->
  fmap (M := option) (fmap fst)
    (global_list (heap st1) (lex_query_tables (thd_lex st1)))
  = Some (pre ++ p :: post) ->
  fmap (M := option) (fmap fst) (global_list (heap st1) (lex_query_tables lex))
  = Some V ->
  V <> [] ->
  (forall a, a ∈ V -> a ∉ pre ++ p :: post) ->
  fmap (M := option) (fmap fst)
    (local_list (heap st1) (sl_table_list_first (lex_select_lex lex)))
  = Some locals ->
  exists st' t',
    mysql_make_view st parser p = Some (0, st')
    /\ heap st' !! p = Some t'
    /\ effective_algorithm t' = VIEW_ALGORITHM_MERGE
    /\ fmap (M := option) (fmap fst)
         (global_list (heap st') (lex_query_tables (thd_lex st')))
       = Some (pre ++ p :: V ++ post).
Proof.
  intros Ht Hview Hparse Ht1 Hacc Hpl Hm Hout HV HVne Hdisj Hloc.
  apply walk_ptrs_lseg in Hout, HV, Hloc.
  destruct (link_view_tables_spec st1 p t1 lex pre post V locals
              Ht1 Hout HV Hdisj Hloc)
    as (st2 & Hlink & Hlist & Hlocal & Hsize & _).
  destruct V as [|vt V']; [done|].
  pose proof HV as HV0. simpl in HV0. destruct HV0 as (Hvt & tvt & Htvt & _).
  assert (merge_ability t1 lex (thd_lex st2) = true) as Hm2.
  { unfold link_view_tables in Hlink.
    destruct (global_list _ _) as [tbls|]; [|done].
    assert (forall stx sty,
              splice_view_tables p (lex_query_tables lex) (last (tbls.*1)) stx
              = Some sty ->
              merge_ability t1 lex (thd_lex sty) = merge_ability t1 lex (thd_lex stx))
      as Hsplice.
    { intros stx sty. unfold splice_view_tables.
      destruct (lex_query_tables lex); [|by intros [= <-]].
      destruct (last _); [|done]. destruct (heap stx !! p) as [tx|]; [|done].
      intros [= <-]. rewrite !(proj1 (upd_frame _ _ _)).
      destruct (next_global tx); [by rewrite !(proj1 (upd_frame _ _ _))|done]. }
    destruct (splice_view_tables _ _ _ _) as [sty|] eqn:Hs; [|done].
    apply Hsplice in Hs. rewrite (proj1 (upd_each_frame _ _ _)) in Hs.
    destruct (bool_decide _).
    - destruct (local_list _ _); [|done]. injection Hlink as <-.
      rewrite (proj1 (upd_each_frame _ _ _)). congruence.
    - injection Hlink as <-. congruence. }
  assert (is_Some (heap st2 !! p)) as [t2 Ht2].
  { eapply (lseg_lookup next_global); [exact Hlist|].
    apply elem_of_app. right. left. }
  assert (is_Some (heap st2 !! vt)) as Hvt2.
  { eapply (lseg_lookup next_global); [exact Hlist|].
    apply elem_of_app. right. right. left. }
  destruct (choose_algorithm_merge st2 p vt t1 t2 lex locals Hpl Hm2 Hvt Ht2 Hvt2)
    as (st' & Hchoose).
  { by apply (lseg_same_member next_local st1). }
  pose proof (choose_algorithm_spec _ _ _ _ _ _ Hchoose)
    as (_ & (t' & Ht' & _ & Hcase) & Hg & Hq & _).
  exists st', t'.
  split.
  { unfold mysql_make_view. rewrite Ht, Hview.
    rewrite bool_decide_eq_false_2 by (by intros [? ?]).
    rewrite Hparse. unfold make_view_parsed. by rewrite Ht1, Hacc, Hlink. }
  split; [done|]. split.
  { destruct (Hcase Hpl) as [[He _]|[He Hu]]; [done|].
    exfalso. unfold choose_algorithm in Hchoose. rewrite Hpl in Hchoose.
    simpl in Hchoose. rewrite merge_ability_move_options, Hm2 in Hchoose.
    destruct (make_view_merge _ _ _ _) as [st3|] eqn:Hmerge; [|done].
    apply make_view_merge_spec in Hmerge as ((t0 & t3 & _ & Ht3 & He3 & _) & _).
    apply make_view_ok_spec in Hchoose as (_ & _ & t4 & Ht4 & Ht'').
    rewrite Ht3 in Ht4. injection Ht4 as <-.
    rewrite Ht' in Ht''. injection Ht'' as ->. simpl in He. congruence. }
  apply walk_ptrs_lseg. rewrite Hq.
  by apply (lseg_same_member next_global st2).
Qed.

(** * Further properties of the functions *)

(** ** strncmp *)

Lemma strncmp_S (s1 s2 : list ascii) (n : nat) :
  strncmp s1 s2 (S n) =
  if negb (Ascii.eqb (hd zero s1) (hd zero s2))
  then Z.of_nat (nat_of_ascii (hd zero s1)) - Z.of_nat (nat_of_ascii (hd zero s2))
  else if Ascii.eqb (hd zero s1) zero then 0
       else strncmp (tl s1) (tl s2) n.
Proof. reflexivity. Qed.

Lemma strncmp_refl (n : nat) : forall s : list ascii, strncmp s s n = 0.
Proof.
  induction n as [|n IH]; intros s; [done|].
  rewrite strncmp_S, Ascii.eqb_refl. cbn [negb].
  destruct (Ascii.eqb (hd zero s) zero); [done|apply IH].
Qed.

Lemma nat_of_ascii_inj (a b : ascii) : nat_of_ascii a = nat_of_ascii b -> a = b.
Proof.
  intros H. rewrite <- (ascii_nat_embedding a), <- (ascii_nat_embedding b).
  by rewrite H.
Qed.

(** Against a text without a zero character among its first [n]
    characters, [strncmp] is zero exactly when the first [n] characters are
    the same. *)
Lemma strncmp_zero_iff (n : nat) :
  forall s1 s2 : list ascii,
    (n <= length s2)%nat ->
    zero ∉ take n s2 ->
    strncmp s1 s2 n = 0 <-> take n s1 = take n s2.
Proof.
  induction n as [|n IH]; intros s1 s2 Hlen Hz.
  { by rewrite !take_0. }
  destruct s2 as [|c2 s2]; [simpl in Hlen; lia|].
  simpl in Hlen. rewrite firstn_cons in Hz.
  apply not_elem_of_cons in Hz as [Hc2 Hz].
  rewrite strncmp_S.
  destruct s1 as [|c1 s1]; cbn [hd tl].
  - destruct (Ascii.eqb_spec zero c2) as [Heq|_]; [done|]. cbn [negb].
    split; [|done]. intros H. exfalso.
    assert (nat_of_ascii c2 = 0%nat) as H0 by (change (nat_of_ascii zero) with 0%nat in H; lia).
    apply Hc2. symmetry. apply nat_of_ascii_inj. by rewrite H0.
  - rewrite !firstn_cons.
    destruct (Ascii.eqb_spec c1 c2) as [->|Hne]; cbn [negb].
    + destruct (Ascii.eqb_spec c2 zero) as [->|_]; [done|].
      rewrite IH by (done || lia). split; [by intros ->|by intros [= ->]].
    + split.
      * intros H. exfalso. apply Hne, nat_of_ascii_inj. lia.
      * intros [= -> _]. done.
Qed.

Lemma length_list_ascii_of_string (s : string) :
  length (list_ascii_of_string s) = String.length s.
Proof. induction s as [|c s IH]; [done|]. cbn. by rewrite IH. Qed.

(** Over the whole length of a text without a zero character, [strncmp]
    is zero exactly when that text is the beginning of the other. *)
Lemma strncmp_prefix (s2 : list ascii) :
  forall s1 : list ascii,
    zero ∉ s2 ->
    strncmp s1 s2 (length s2) = 0 <-> s2 `prefix_of` s1.
Proof.
  induction s2 as [|c2 s2 IH]; intros s1 Hz.
  { split; [intros _; apply prefix_nil|done]. }
  apply not_elem_of_cons in Hz as [Hc2 Hz].
  cbn [length]. rewrite strncmp_S.
  destruct s1 as [|c1 s1]; cbn [hd tl].
  - destruct (Ascii.eqb_spec zero c2) as [Heq|_]; [done|]. cbn [negb].
    split; [|by intros ?%prefix_nil_not].
    intros H. exfalso.
    assert (nat_of_ascii c2 = 0%nat) as H0
      by (change (nat_of_ascii zero) with 0%nat in H; lia).
    apply Hc2. symmetry. apply nat_of_ascii_inj. by rewrite H0.
  - destruct (Ascii.eqb_spec c1 c2) as [->|Hne]; cbn [negb].
    + destruct (Ascii.eqb_spec c2 zero) as [->|_]; [done|].
      rewrite IH by done.
      split; [apply prefix_cons|apply prefix_cons_inv_2].
    + split.
      * intros H. exfalso. apply Hne, nat_of_ascii_inj. lia.
      * intros H%prefix_cons_inv_1. by subst.
Qed.

(** ** mysql_frm_type *)

Lemma view_header_no_zero : zero ∉ take 10 view_header.
Proof.
  intros H. vm_compute in H.
  repeat (apply elem_of_cons in H as [H|H]; [discriminate|]).
  by apply elem_of_nil in H.
Qed.

Lemma mysql_frm_type_readable (fs : gmap string file_node) (path : string)
    (f : file_node) :
  fs !! path = Some f ->
  f_open_ok f = true ->
  f_read_ok f = true ->
  mysql_frm_type fs path =
  if (length (f_bytes f) <? 10)%nat
     || bool_decide (take 10 (f_bytes f) = view_header)
  then FRMTYPE_VIEW else FRMTYPE_TABLE.
Proof.
  intros Hf Ho Hr. unfold mysql_frm_type, my_open, my_read. rewrite Hf, Ho, Hr.
  rewrite length_take. unfold MY_FILE_ERROR.
  replace (Z.of_nat (10 `min` length (f_bytes f)) =? -1) with false
    by (symmetry; apply Z.eqb_neq; lia).
  destruct (Nat.ltb_spec (length (f_bytes f)) 10) as [Hlt|Hge].
  - replace (Z.of_nat (10 `min` length (f_bytes f)) <? 10) with true
      by (symmetry; apply Z.ltb_lt; lia).
    done.
  - replace (Z.of_nat (10 `min` length (f_bytes f)) <? 10) with false
      by (symmetry; apply Z.ltb_ge; lia).
    cbn [orb].
    pose proof (strncmp_zero_iff 10 (take 10 (f_bytes f)) view_header
                  ltac:(vm_compute; lia) view_header_no_zero) as Hiff.
    rewrite take_take, Nat.min_id in Hiff.
    change (take 10 view_header) with view_header in Hiff.
    destruct (Z.eqb_spec (strncmp (take 10 (f_bytes f)) view_header 10) 0)
      as [H0|H0].
    + by rewrite (bool_decide_eq_true_2 _ (proj1 Hiff H0)).
    + rewrite bool_decide_eq_false_2; [done|]. intros H. by apply H0, Hiff.
Qed.

(** X1. The type of a record: ERROR exactly when the file is missing or
    cannot be opened or read; VIEW exactly when it can be read and is
    shorter than ten bytes or starts with the header of a view; TABLE
    exactly when it can be read, has ten bytes or more and starts with
    anything else. *)
Theorem mysql_frm_type_classifies (fs : gmap string file_node) (path : string) :
  let readable f :=
    fs !! path = Some f /\ f_open_ok f = true /\ f_read_ok f = true in
  (mysql_frm_type fs path = FRMTYPE_ERROR <-> ~ exists f, readable f)
  /\ (mysql_frm_type fs path = FRMTYPE_VIEW <->
      exists f,
        readable f
        /\ ((length (f_bytes f) < 10)%nat \/ take 10 (f_bytes f) = view_header))
  /\ (mysql_frm_type fs path = FRMTYPE_TABLE <->
      exists f,
        readable f
        /\ (10 <= length (f_bytes f))%nat /\ take 10 (f_bytes f) <> view_header).
Proof.
  intros readable. unfold readable.
  destruct (fs !! path) as [f|] eqn:Hf.
  2:{ assert (mysql_frm_type fs path = FRMTYPE_ERROR) as ->
        by (unfold mysql_frm_type, my_open; by rewrite Hf).
      split; [|split].
      - split; [|done]. intros _ (f & [=] & _).
      - split; [done|]. intros (f & ([=] & _) & _).
      - split; [done|]. intros (f & ([=] & _) & _). }
  destruct (f_open_ok f) eqn:Ho.
  2:{ assert (mysql_frm_type fs path = FRMTYPE_ERROR) as ->
        by (unfold mysql_frm_type, my_open; by rewrite Hf, Ho).
      split; [|split].
      - split; [|done]. intros _ (f' & [= <-] & Ho' & _). congruence.
      - split; [done|]. intros (f' & ([= <-] & Ho' & _) & _). congruence.
      - split; [done|]. intros (f' & ([= <-] & Ho' & _) & _). congruence. }
  destruct (f_read_ok f) eqn:Hr.
  2:{ assert (mysql_frm_type fs path = FRMTYPE_ERROR) as ->
        by (unfold mysql_frm_type, my_open, my_read; by rewrite Hf, Ho, Hr).
      split; [|split].
      - split; [|done]. intros _ (f' & [= <-] & _ & Hr'). congruence.
      - split; [done|]. intros (f' & ([= <-] & _ & Hr') & _). congruence.
      - split; [done|]. intros (f' & ([= <-] & _ & Hr') & _). congruence. }
  rewrite (mysql_frm_type_readable fs path f Hf Ho Hr).
  destruct (Nat.ltb_spec (length (f_bytes f)) 10) as [Hlt|Hge]; simpl.
  - split; [|split].
    + split; [done|]. intros H. exfalso. apply H. by exists f.
    + split; [|done]. intros _. exists f. split; [done|]. by left.
    + split; [done|]. intros (f' & ([= <-] & _) & Hlen & _). lia.
  - destruct (decide (take 10 (f_bytes f) = view_header)) as [Heq|Hne].
    + rewrite (bool_decide_eq_true_2 _ Heq). split; [|split].
      * split; [done|]. intros H. exfalso. apply H. by exists f.
      * split; [|done]. intros _. exists f. split; [done|]. by right.
      * split; [done|]. intros (f' & ([= <-] & _) & _ & Hne'). done.
    + rewrite (bool_decide_eq_false_2 _ Hne). split; [|split].
      * split; [done|]. intros H. exfalso. apply H. by exists f.
      * split; [done|]. intros (f' & ([= <-] & _) & [Hlt|Heq]); [lia|done].
      * split; [|done]. intros _. by exists f.
Qed.

(** ** mysql_drop_view *)

Lemma mysql_frm_type_ext (fs fs' : gmap string file_node) (path : string) :
  fs' !! path = fs !! path ->
  mysql_frm_type fs' path = mysql_frm_type fs path.
Proof. intros H. unfold mysql_frm_type, my_open. by rewrite H. Qed.

Lemma mysql_frm_type_missing (fs : gmap string file_node) (path : string) :
  fs !! path = None -> mysql_frm_type fs path = FRMTYPE_ERROR.
Proof. intros H. unfold mysql_frm_type, my_open. by rewrite H. Qed.

(** A file is as it was, or it was the record of a view named in the batch
    and is gone. *)
Lemma drop_view_spec_files (views : list TABLE_LIST) (st : state)
    (r : bool * state) :
  drop_view_spec views st r ->
  forall p,
    files r.2 !! p = files st !! p
    \/ (files r.2 !! p = None
        /\ exists view,
             view ∈ views /\ frm_path view = p
             /\ mysql_frm_type (files st) p = FRMTYPE_VIEW).
Proof.
  induction 1 as [st|view rest st r Hrec Hif Hspec IH|view rest st Hrec Hif
                 |view rest st Hrec Hif|view rest st Hrec Hdel
                 |view rest st r Hrec Hdel Hspec IH]; intros p;
    try (by left).
  - destruct (IH p) as [Hsame|(Hgone & v & Hin & Hp & Hty)]; [by left|].
    right. split; [done|]. exists v. split; [by right|done].
  - destruct Hrec as [_ Hty].
    destruct (decide (p = frm_path view)) as [->|Hne].
    + right. split.
      * destruct (IH (frm_path view)) as [Hsame|[Hgone _]]; [|done].
        rewrite Hsame. cbn. apply lookup_delete_eq.
      * exists view. split; [by left|done].
    + destruct (IH p) as [Hsame|(Hgone & v & Hin & Hp & Hty')].
      * left. rewrite Hsame. cbn. by apply lookup_delete_ne.
      * right. split; [done|]. exists v. split; [by right|]. split; [done|].
        rewrite <- Hty'. symmetry. apply mysql_frm_type_ext. cbn.
        by apply lookup_delete_ne.
Qed.

(** The records deleted and the invalidations of the query cache go
    together, and the acknowledgement goes with the value returned. *)
Lemma drop_view_spec_accounting (views : list TABLE_LIST) (st : state)
    (r : bool * state) :
  drop_view_spec views st r ->
  exists deleted,
    deleted `sublist_of` views
    /\ files r.2 = foldl (fun fs view => delete (frm_path view) fs) (files st) deleted
    /\ query_cache_log r.2 =
       query_cache_log st ++ ((fun view => (db view, table_name view)) <$> deleted)
    /\ ok_sent r.2 = ok_sent st || negb r.1
    /\ (r.1 = false -> lex_drop_if_exists (thd_lex st) = false ->
        deleted = views).
Proof.
  induction 1 as [st|view rest st r Hrec Hif Hspec IH|view rest st Hrec Hif
                 |view rest st Hrec Hif|view rest st Hrec Hdel
                 |view rest st r Hrec Hdel Hspec IH].
  - exists []. cbn. rewrite app_nil_r, orb_true_r. done.
  - destruct IH as (deleted & Hsub & Hfiles & Hlog & Hok & _).
    exists deleted. split; [by apply sublist_cons|].
    repeat split; [done..|]. intros _ Hno. congruence.
  - exists []. cbn. rewrite app_nil_r, orb_false_r.
    repeat split; [apply sublist_nil_l|done].
  - exists []. cbn. rewrite app_nil_r, orb_false_r.
    repeat split; [apply sublist_nil_l|done].
  - exists []. cbn. rewrite app_nil_r, orb_false_r.
    repeat split; [apply sublist_nil_l|done].
  - destruct IH as (deleted & Hsub & Hfiles & Hlog & Hok & Hall).
    exists (view :: deleted). split; [by apply sublist_skip|].
    split; [done|]. split.
    { rewrite Hlog. cbn. by rewrite <- app_assoc. }
    split; [done|]. intros Hr Hno. f_equal. by apply Hall.
Qed.

(** With IF EXISTS, and when the records of the batch can be removed, no
    error is raised, and no name of the batch is a view at the end. *)
Lemma drop_view_spec_if_exists (views : list TABLE_LIST) (st : state)
    (r : bool * state) :
  drop_view_spec views st r ->
  lex_drop_if_exists (thd_lex st) = true ->
  (forall view f,
      view ∈ views -> files st !! frm_path view = Some f ->
      f_delete_ok f = true) ->
  r.1 = false
  /\ thd_net_report_error r.2 = thd_net_report_error st
  /\ forall view,
       view ∈ views ->
       mysql_frm_type (files r.2) (frm_path view) <> FRMTYPE_VIEW.
Proof.
  induction 1 as [st|view rest st r Hrec Hif Hspec IH|view rest st Hrec Hif
                 |view rest st Hrec Hif|view rest st Hrec Hdel
                 |view rest st r Hrec Hdel Hspec IH]; intros Hexists Hok;
    try congruence.
  - do 2 (split; [done|]). intros view Hin. by apply elem_of_nil in Hin.
  - destruct IH as (Hr & Herr & Hviews); [done| |].
    { intros v f Hin Hf. apply (Hok v f); [by right|done]. }
    do 2 (split; [done|]). intros v Hin.
    apply elem_of_cons in Hin as [->|Hin]; [|by apply Hviews].
    destruct (drop_view_spec_files _ _ _ Hspec (frm_path view))
      as [Hsame|[Hgone _]].
    + rewrite (mysql_frm_type_ext _ _ _ Hsame). cbn.
      destruct Hrec as [Habs|[_ Hty]]; [|done].
      by rewrite (mysql_frm_type_missing _ _ Habs).
    + by rewrite (mysql_frm_type_missing _ _ Hgone).
  - exfalso. destruct Hrec as [[f Hf] _].
    unfold my_delete in Hdel. rewrite Hf in Hdel.
    rewrite (Hok view f) in Hdel; [done|by left|done].
  - destruct IH as (Hr & Herr & Hviews); [done| |].
    { intros v f Hin Hf. cbn in Hf.
      apply lookup_delete_Some in Hf as [_ Hf].
      apply (Hok v f); [by right|done]. }
    do 2 (split; [done|]). intros v Hin.
    apply elem_of_cons in Hin as [->|Hin]; [|by apply Hviews].
    destruct (drop_view_spec_files _ _ _ Hspec (frm_path view))
      as [Hsame|[Hgone _]].
    + rewrite (mysql_frm_type_ext _ _ _ Hsame). cbn.
      rewrite mysql_frm_type_missing; [done|apply lookup_delete_eq].
    + by rewrite (mysql_frm_type_missing _ _ Hgone).
Qed.

(** X2. DROP VIEW removes nothing but records of views named in the
    batch: at the end every file is as it was, or it was the record of a
    view of the batch, of the type VIEW at the start, and is gone.  The
    record of a table is never removed. *)
Theorem mysql_drop_view_removes_views_only (st : state) (views : option ptr)
    (l : list (ptr * TABLE_LIST)) :
  local_list (heap st) views = Some l ->
  exists res st',
    mysql_drop_view st views = Some (res, st')
    /\ forall p,
         files st' !! p = files st !! p
         \/ (files st' !! p = None
             /\ exists view,
                  view ∈ l.*2 /\ frm_path view = p
                  /\ mysql_frm_type (files st) p = FRMTYPE_VIEW).
Proof.
  intros Hl. unfold mysql_drop_view. rewrite Hl.
  destruct (mysql_drop_view_loop (l.*2) false st) as [res st'] eqn:Hloop.
  exists res, st'. split; [done|].
  pose proof (mysql_drop_view_loop_spec (l.*2) false st ltac:(done)) as Hspec.
  rewrite Hloop in Hspec. apply (drop_view_spec_files _ _ _ Hspec).
Qed.

(** X3. DROP VIEW is not undone when it fails: the records deleted are
    those of some of the names, in the order of the batch, the cached
    results are invalidated for these names and no other, and the
    acknowledgement is sent exactly when FALSE is returned.  Without IF
    EXISTS, FALSE is returned only when the record of every name was
    deleted. *)
Theorem mysql_drop_view_accounting (st : state) (views : option ptr)
    (l : list (ptr * TABLE_LIST)) :
  local_list (heap st) views = Some l ->
  exists res st' deleted,
    mysql_drop_view st views = Some (res, st')
    /\ deleted `sublist_of` l.*2
    /\ files st' =
       foldl (fun fs view => delete (frm_path view) fs) (files st) deleted
    /\ query_cache_log st' =
       query_cache_log st ++ ((fun view => (db view, table_name view)) <$> deleted)
    /\ ok_sent st' = ok_sent st || negb res
    /\ (res = false -> lex_drop_if_exists (thd_lex st) = false ->
        deleted = l.*2).
Proof.
  intros Hl. unfold mysql_drop_view. rewrite Hl.
  destruct (mysql_drop_view_loop (l.*2) false st) as [res st'] eqn:Hloop.
  pose proof (mysql_drop_view_loop_spec (l.*2) false st ltac:(done)) as Hspec.
  rewrite Hloop in Hspec.
  destruct (drop_view_spec_accounting _ _ _ Hspec) as (deleted & H).
  by exists res, st', deleted.
Qed.

(** X4. DROP VIEW IF EXISTS of names whose records, where there are any,
    can be removed returns FALSE and raises no error, and at the end no
    name of the batch is the name of a view. *)
Theorem mysql_drop_view_if_exists_succeeds (st : state) (views : option ptr)
    (l : list (ptr * TABLE_LIST)) :
  local_list (heap st) views = Some l ->
  lex_drop_if_exists (thd_lex st) = true ->
  (forall view f,
      view ∈ l.*2 -> files st !! frm_path view = Some f ->
      f_delete_ok f = true) ->
  exists st',
    mysql_drop_view st views = Some (false, st')
    /\ thd_net_report_error st' = thd_net_report_error st
    /\ forall view,
         view ∈ l.*2 ->
         mysql_frm_type (files st') (frm_path view) <> FRMTYPE_VIEW.
Proof.
  intros Hl Hif Hok. unfold mysql_drop_view. rewrite Hl.
  destruct (mysql_drop_view_loop (l.*2) false st) as [res st'] eqn:Hloop.
  pose proof (mysql_drop_view_loop_spec (l.*2) false st ltac:(done)) as Hspec.
  rewrite Hloop in Hspec.
  destruct (drop_view_spec_if_exists _ _ _ Hspec Hif Hok) as (Hr & Herr & Hv).
  cbn in Hr. subst res. by exists st'.
Qed.

(** ** insert_view_fields *)

Lemma push_view_fields_spec (trans : list Item) (remaining : nat) :
  forall (i : nat) (lst : list Field),
    (i + remaining <= length trans)%nat ->
    match mapM filed_for_view_update (take remaining (drop i trans)) with
    | Some flds =>
        push_view_fields trans i remaining lst = Some (true, lst ++ flds)
    | None =>
        exists k item pre,
          (k < remaining)%nat
          /\ trans !! (i + k)%nat = Some item
          /\ filed_for_view_update item = None
          /\ mapM filed_for_view_update (take k (drop i trans)) = Some pre
          /\ push_view_fields trans i remaining lst = Some (false, lst ++ pre)
    end.
Proof.
  induction remaining as [|remaining IH]; intros i lst Hlen.
  { rewrite take_0. cbn. by rewrite app_nil_r. }
  destruct (lookup_lt_is_Some_2 trans i ltac:(lia)) as [item Hitem].
  rewrite (drop_S _ _ _ Hitem), firstn_cons. cbn [push_view_fields].
  rewrite Hitem. cbn [mapM]. 
  destruct (filed_for_view_update item) as [fld|] eqn:Hfld; cbn [mbind option_bind].
  - specialize (IH (S i) (lst ++ [fld]) ltac:(lia)).
    destruct (mapM filed_for_view_update (take remaining (drop (S i) trans)))
      as [flds|]; cbn.
    + rewrite IH. by rewrite <- app_assoc.
    + destruct IH as (k & item' & pre & Hk & Hlook & Hnone & Hpre & Hpush).
      exists (S k), item', (fld :: pre).
      split; [lia|]. split; [by rewrite <- Nat.add_succ_comm|].
      split; [done|]. split.
      * rewrite firstn_cons. cbn. rewrite Hfld. cbn.
        by rewrite Hpre.
      * rewrite Hpush. by rewrite <- app_assoc.
  - exists 0%nat, item, []. split; [lia|]. rewrite Nat.add_0_r, take_0.
    cbn. by rewrite app_nil_r.
Qed.

(** X5. The columns of a view with a translation table are added to the
    list for INSERT: when each of the expressions of the view is a reference
    to a column, FALSE is returned and the list is extended by these
    columns, in their order; otherwise TRUE is returned with
    ER_NON_UPDATABLE_TABLE for the alias of the view, and the list stays
    extended by the columns that precede the first expression that is not
    a reference. *)
Theorem insert_view_fields_all_or_error (st : state) (lst : list Field)
    (view_ptr : ptr) (v : TABLE_LIST) (vlex : LEX) (trans : list Item) :
  heap st !! view_ptr = Some v ->
  view v = Some vlex ->
  field_translation v = Some trans ->
  (length (sl_item_list (lex_select_lex vlex)) <= length trans)%nat ->
  match mapM filed_for_view_update
          (take (length (sl_item_list (lex_select_lex vlex))) trans) with
  | Some flds =>
      insert_view_fields st lst view_ptr = Some (false, lst ++ flds, st)
  | None =>
      exists k item pre,
        (k < length (sl_item_list (lex_select_lex vlex)))%nat
        /\ trans !! k = Some item
        /\ filed_for_view_update item = None
        /\ mapM filed_for_view_update (take k trans) = Some pre
        /\ insert_view_fields st lst view_ptr =
           Some (true, lst ++ pre,
                 my_error ER_NON_UPDATABLE_TABLE [alias v; "INSERT"] st)
  end.
Proof.
  intros Hv Hview Htrans Hlen. unfold insert_view_fields.
  rewrite Hv, Hview, Htrans.
  pose proof (push_view_fields_spec trans
                (length (sl_item_list (lex_select_lex vlex))) 0 lst
                ltac:(lia)) as Hpush.
  rewrite drop_0 in Hpush.
  destruct (mapM filed_for_view_update
              (take (length (sl_item_list (lex_select_lex vlex))) trans))
    as [flds|].
  - by rewrite Hpush.
  - destruct Hpush as (k & item & pre & Hk & Hlook & Hnone & Hpre & Hpush).
    exists k, item, pre. by rewrite Hpush.
Qed.

(** ** view_checksum *)

(** X6. The checksum of a view is not checked (HA_ADMIN_NOT_IMPLEMENTED)
    exactly when the object is not a view or the checksum stored has not 32
    characters.  Otherwise, for a stored checksum without a zero character,
    HA_ADMIN_OK is returned exactly when the first 32 characters of the
    MD5 of the query are the stored checksum, and HA_ADMIN_WRONG_CHECKSUM
    in all other cases. *)
Theorem view_checksum_verifies (st : state) (view_ptr : ptr) (v : TABLE_LIST) :
  heap st !! view_ptr = Some v ->
  (view_checksum st view_ptr = Some HA_ADMIN_NOT_IMPLEMENTED <->
   view v = None \/ String.length (md5 v) <> 32%nat)
  /\ (zero ∉ list_ascii_of_string (md5 v) ->
      (view_checksum st view_ptr = Some HA_ADMIN_OK <->
       is_Some (view v)
       /\ String.length (md5 v) = 32%nat
       /\ take 32 (list_ascii_of_string (calc_md5 (query v)))
          = list_ascii_of_string (md5 v)))
  /\ (view_checksum st view_ptr = Some HA_ADMIN_WRONG_CHECKSUM
      \/ view_checksum st view_ptr = Some HA_ADMIN_OK
      \/ view_checksum st view_ptr = Some HA_ADMIN_NOT_IMPLEMENTED).
Proof.
  intros Hv. unfold view_checksum. rewrite Hv.
  destruct (view v) as [vlex|] eqn:Hview.
  2:{ rewrite bool_decide_eq_false_2 by (by intros [? ?]). cbn.
      split; [|split].
      - split; [by left|done].
      - intros _. split; [done|]. by intros [[? [=]] _].
      - by right; right. }
  rewrite bool_decide_eq_true_2 by done. cbn [negb orb].
  destruct (Nat.eqb_spec (String.length (md5 v)) 32) as [Hlen|Hlen]; cbn [negb].
  2:{ split; [|split].
      - split; [by right|done].
      - intros _. split; [done|]. by intros (_ & ? & _).
      - by right; right. }
  assert (length (list_ascii_of_string (md5 v)) = 32%nat) as Hlen'.
  { rewrite <- Hlen. clear. induction (md5 v) as [|c s IH]; [done|].
    cbn. by rewrite IH. }
  split; [|split].
  - split.
    + destruct (negb _); done.
    + intros [[=]|Hne]. done.
  - intros Hz.
    pose proof (strncmp_zero_iff 32
                  (list_ascii_of_string (calc_md5 (query v)))
                  (list_ascii_of_string (md5 v)) ltac:(lia)) as Hiff.
    rewrite (take_ge (list_ascii_of_string (md5 v))) in Hiff by lia.
    specialize (Hiff Hz).
    destruct (Z.eqb_spec
                (strncmp (list_ascii_of_string (calc_md5 (query v)))
                   (list_ascii_of_string (md5 v)) 32) 0) as [H0|H0]; cbn [negb].
    + split; [|done]. intros _. split; [done|]. split; [done|]. by apply Hiff.
    + split; [done|]. intros (_ & _ & Heq). exfalso. by apply H0, Hiff.
  - destruct (negb _); [by left|by right; left].
Qed.

(** ** mysql_register_view *)

(** The block "check old .frm" goes on as the mode allows, and past a
    record only when the record is taken for the record of a view. *)
Lemma check_old_frm_inr_mode (st st1 : state) (v v1 : TABLE_LIST)
    (mode : enum_view_create_mode) :
  check_old_frm st v mode = inr (v1, st1) ->
  let path := fn_format (frm_file v) (frm_dir v) in
  (mode = VIEW_CREATE_NEW -> files st !! path = None)
  /\ (mode = VIEW_ALTER -> is_Some (files st !! path))
  /\ match files st !! path with
     | None => v1 = v
     | Some f =>
         exists parser,
           sql_parse_prepare f = Some parser
           /\ fp_ok parser = true
           /\ strncmp (list_ascii_of_string "VIEW")
                (list_ascii_of_string (fp_type parser))
                (String.length (fp_type parser)) = 0
           /\ file_parse parser revision_number_position 1 v = Parse_ok v1
     end.
Proof.
  intros H. cbv zeta. unfold check_old_frm in H.
  set (path := fn_format (frm_file v) (frm_dir v)) in *.
  unfold access in H.
  destruct (files st !! path) as [f|] eqn:Hf.
  - change (0 =? 0) with true in H. cbv iota in H.
    destruct (bool_decide (mode = VIEW_CREATE_NEW)) eqn:Hnew; [done|].
    apply bool_decide_eq_false in Hnew.
    change (Some f ≫= sql_parse_prepare) with (sql_parse_prepare f) in H.
    destruct (sql_parse_prepare f) as [parser|]; [|done].
    destruct (fp_ok parser) eqn:Hok; [|done]. cbn [negb orb] in H.
    destruct (Z.eqb_spec
                (strncmp (list_ascii_of_string "VIEW")
                   (list_ascii_of_string (fp_type parser))
                   (String.length (fp_type parser))) 0) as [H0|H0]; [|done].
    cbn [negb] in H.
    destruct (file_parse parser revision_number_position 1 v) as [v'|r] eqn:Hp;
      [|done].
    injection H as <- <-.
    split; [done|]. split; [by eexists|]. exists parser. done.
  - change (-1 =? 0) with false in H. cbv iota in H.
    destruct (bool_decide (mode = VIEW_ALTER)) eqn:Halter; [done|].
    apply bool_decide_eq_false in Halter.
    injection H as <- <-. split; [done|]. split; [done|]. done.
Qed.

(** The notes, warnings and errors of the code from "fill structure" to
    the end. *)
Lemma register_definition_diagnostics (st st' : state) (view_ptr : ptr)
    (v : TABLE_LIST) (ret : Z) :
  register_definition st view_ptr v = Some (ret, st') ->
  exists more,
    diagnostics st' = diagnostics st ++ more
    /\ forall d,
         d ∈ more ->
         d_code d = ER_WARN_VIEW_MERGE \/ d_code d = ER_VIEW_NONUPD_CHECK.
Proof.
  intros Hrun.
  destruct (fill_structure st view_ptr v) as [[st2 v2] cbm] eqn:Hfill.
  destruct (fill_structure_spec _ _ _ _ _ _ Hfill)
    as (_ & _ & _ & _ & _ & _ & _ & _ & _ & _ & _ & _ & Hdiag).
  unfold register_definition in Hrun. rewrite Hfill in Hrun.
  destruct (compute_updatable (heap st2) (thd_lex st2) cbm v2) as [upd|];
    [|done].
  assert (forall d,
            d ∈ (if bool_decide (lex_create_view_algorithm (thd_lex st)
                                 = VIEW_ALGORITHM_MERGE)
                    && negb (lex_can_be_merged (thd_lex st))
                 then [Diag WARN_LEVEL_WARN ER_WARN_VIEW_MERGE []]
                 else []) ->
            d_code d = ER_WARN_VIEW_MERGE) as Hwarn.
  { clear. intros d. destruct (_ && _); intros Hd.
    - apply list_elem_of_singleton in Hd. by subst.
    - by apply elem_of_nil in Hd. }
  destruct (negb _ && negb upd).
  - injection Hrun as <- <-. eexists. split.
    + cbn. rewrite Hdiag, <- app_assoc. reflexivity.
    + intros d [Hd|Hd]%elem_of_app; [left; by apply Hwarn|].
      apply list_elem_of_singleton in Hd. subst. by right.
  - unfold sql_create_definition_file in Hrun.
    destruct (definition_file_write_fails _ _); cbn in Hrun;
      injection Hrun as <- <-; eexists; (split; [cbn; by rewrite Hdiag|]);
      intros d Hd; left; by apply Hwarn.
Qed.

(** X7. When a record is replaced or altered, its type is compared with
    VIEW over the length of the type only: the registration stops with
    ER_WRONG_OBJECT exactly when the parser of the record is not in order
    or its type is not a beginning of the word VIEW.  A record whose type
    is V or VI, or empty, passes for the record of a view. *)
Theorem mysql_register_view_type_test (st : state) (view_ptr : ptr)
    (v : TABLE_LIST) (mode : enum_view_create_mode) (f : file_node)
    (parser : File_parser) :
  heap st !! view_ptr = Some v ->
  mode <> VIEW_CREATE_NEW ->
  files st !! fn_format (frm_file v) (frm_dir v) = Some f ->
  sql_parse_prepare f = Some parser ->
  zero ∉ list_ascii_of_string (fp_type parser) ->
  mysql_register_view st view_ptr mode =
  Some (-1, my_error ER_WRONG_OBJECT [db v; table_name v; "VIEW"] st)
  <-> fp_ok parser = false
      \/ ~ list_ascii_of_string (fp_type parser)
           `prefix_of` list_ascii_of_string "VIEW".
Proof.
  intros Hv Hmode Hf Hparser Hz.
  pose proof (strncmp_prefix (list_ascii_of_string (fp_type parser))
                (list_ascii_of_string "VIEW") Hz) as Hpre.
  rewrite length_list_ascii_of_string in Hpre.
  unfold mysql_register_view. rewrite Hv.
  destruct (check_old_frm st v mode) as [[ret0 st0]|[v1 st1]] eqn:Hold.
  - revert Hold. unfold check_old_frm, access. rewrite Hf.
    change (0 =? 0) with true. cbv iota.
    rewrite (bool_decide_eq_false_2 _ Hmode).
    change (Some f ≫= sql_parse_prepare) with (sql_parse_prepare f).
    rewrite Hparser.
    destruct (fp_ok parser) eqn:Hok; cbn [negb orb].
    2:{ intros [= <- <-]. split; [by left|done]. }
    destruct (Z.eqb_spec
                (strncmp (list_ascii_of_string "VIEW")
                   (list_ascii_of_string (fp_type parser))
                   (String.length (fp_type parser))) 0) as [H0|H0]; cbn [negb].
    2:{ intros [= <- <-]. split; [|done]. intros _. right.
        intros Hp. by apply H0, Hpre. }
    destruct (file_parse parser revision_number_position 1 v) as [v'|r];
      [done|].
    intros [= <- <-]. split.
    + intros [= _ Hst]. exfalso.
      apply (f_equal diagnostics) in Hst. revert Hst.
      destruct r; cbn; intros Hst; apply (f_equal length) in Hst;
        rewrite length_app in Hst; cbn in Hst; lia.
    + intros [[=]|Hnp]. exfalso. by apply Hnp, Hpre.
  - pose proof (check_old_frm_inr _ _ _ _ _ Hold) as ->.
    apply check_old_frm_inr_mode in Hold as (_ & _ & Hrec).
    rewrite Hf in Hrec. destruct Hrec as (parser' & Hp' & Hok & H0 & _).
    rewrite Hparser in Hp'. injection Hp' as <-.
    split.
    + intros Hrun. exfalso.
      apply register_definition_diagnostics in Hrun as (more & Hd & Hcodes).
      cbn in Hd. apply app_inv_head in Hd. subst more.
      destruct (Hcodes _ ltac:(by apply list_elem_of_singleton)); done.
    + intros [Hno|Hnp]; [congruence|]. exfalso. by apply Hnp, Hpre.
Qed.

(** X8. The registration replaces the record of a view only where the
    mode allows it and only over the record of a view.  When the files
    are not as they were after the call, the call returned 0; the mode was
    not NEW if there was a record and not ALTER if there was none; and a
    record that was there had a parser in order and a type that is a
    beginning of the word VIEW. *)
Theorem mysql_register_view_respects_mode (st st' : state) (view_ptr : ptr)
    (v : TABLE_LIST) (mode : enum_view_create_mode) (ret : Z) :
  heap st !! view_ptr = Some v ->
  mysql_register_view st view_ptr mode = Some (ret, st') ->
  files st' <> files st ->
  let path := fn_format (frm_file v) (frm_dir v) in
  ret = 0
  /\ (mode = VIEW_CREATE_NEW -> files st !! path = None)
  /\ (mode = VIEW_ALTER -> is_Some (files st !! path))
  /\ forall f,
       files st !! path = Some f ->
       exists parser,
         sql_parse_prepare f = Some parser
         /\ fp_ok parser = true
         /\ (zero ∉ list_ascii_of_string (fp_type parser) ->
             list_ascii_of_string (fp_type parser)
               `prefix_of` list_ascii_of_string "VIEW").
Proof.
  intros Hv Hrun Hchanged path.
  pose proof (mysql_register_view_frame _ _ _ _ _ Hrun) as (_ & _ & Hfiles).
  assert (ret = 0) as ->.
  { destruct (Z.eq_dec ret 0) as [|Hne]; [done|]. exfalso.
    by apply Hchanged, Hfiles. }
  split; [done|].
  unfold mysql_register_view in Hrun. rewrite Hv in Hrun.
  destruct (check_old_frm st v mode) as [[ret0 st0]|[v1 st1]] eqn:Hold.
  { exfalso. injection Hrun as _ <-.
    apply check_old_frm_inl_files in Hold as (Hsame & _). done. }
  apply check_old_frm_inr_mode in Hold as (Hnew & Halter & Hrec).
  fold path in Hnew, Halter, Hrec.
  split; [done|]. split; [done|].
  intros f Hf. rewrite Hf in Hrec.
  destruct Hrec as (parser & Hparser & Hok & H0 & _).
  exists parser. split; [done|]. split; [done|]. intros Hz.
  apply (strncmp_prefix _ _ Hz). by rewrite length_list_ascii_of_string.
Qed.

(** X18. A record whose revision cannot be read, when the parser of the
    record reports no error, does not stop the registration with an
    error: 0 is returned, and nothing is written and nothing has changed.
    The statement is then acknowledged like one that replaced the view. *)
Theorem unread_revision_is_success (st : state) (view_ptr : ptr)
    (v : TABLE_LIST) (mode : enum_view_create_mode) (f : file_node)
    (parser : File_parser) (link : bool) :
  heap st !! view_ptr = Some v ->
  mode <> VIEW_CREATE_NEW ->
  files st !! fn_format (frm_file v) (frm_dir v) = Some f ->
  sql_parse_prepare f = Some parser ->
  fp_ok parser = true ->
  fp_type parser = "VIEW" ->
  file_parse parser revision_number_position 1 v = Parse_error false ->
  thd_net_report_error st = false ->
  mysql_register_view st view_ptr mode = Some (0, st)
  /\ (wait_if_global_read_lock (files st) = false ->
      exists st',
        register_and_invalidate st view_ptr link mode = Some (false, st')
        /\ files st' = files st
        /\ heap st' = heap st
        /\ ok_sent st' = true).
Proof.
  intros Hv Hmode Hf Hparser Hok Htype Hparse Hrep.
  assert (mysql_register_view st view_ptr mode = Some (0, st)) as Hreg.
  { unfold mysql_register_view. rewrite Hv.
    unfold check_old_frm, access. rewrite Hf.
    change (0 =? 0) with true. cbv iota.
    rewrite (bool_decide_eq_false_2 _ Hmode).
    change (Some f ≫= sql_parse_prepare) with (sql_parse_prepare f).
    rewrite Hparser, Hok, Htype.
    change (strncmp (list_ascii_of_string "VIEW") (list_ascii_of_string "VIEW")
              (String.length "VIEW") =? 0) with true.
    cbn [negb orb]. rewrite Hparse. by rewrite Hrep. }
  split; [done|]. intros Hwait.
  unfold register_and_invalidate. rewrite Hwait, Hreg, Hv.
  change (negb (0 =? 0)) with false. cbv iota.
  eexists. split; [done|]. by destruct (negb (revision v =? 1)).
Qed.

(** The loop over the tables of the main select leaves the view updatable
    exactly when it meets no view that is not updatable, no table of the
    information schema and no table under an outer join. *)
Lemma updatable_tables_loop_true (h : gmap ptr TABLE_LIST)
    (tbls : list (ptr * TABLE_LIST)) :
  updatable_tables_loop h tbls = Some true <->
  forall p tbl,
    (p, tbl) ∈ tbls ->
    (is_Some (view tbl) -> updatable_view tbl <> 0)
    /\ schema_table tbl = false
    /\ exists ups,
         embedding_list h (Some p) = Some ups
         /\ forall up, up ∈ ups -> outer_join up.2 = 0.
Proof.
  induction tbls as [|[p tbl] rest IH]; cbn [updatable_tables_loop].
  { split; [|done]. intros _ p tbl Hin. by apply elem_of_nil in Hin. }
  destruct (bool_decide (is_Some (view tbl))) eqn:Hview.
  - apply bool_decide_eq_true in Hview.
    destruct (Z.eqb_spec (updatable_view tbl) 0) as [Hupd|Hupd]; cbn [andb orb].
    { split; [done|]. intros Hall. exfalso.
      destruct (Hall p tbl ltac:(by left)) as (Hu & _). by apply Hu. }
    destruct (schema_table tbl) eqn:Hschema.
    { split; [done|]. intros Hall.
      destruct (Hall p tbl ltac:(by left)) as (_ & ? & _). congruence. }
    destruct (embedding_list h (Some p)) as [ups|] eqn:Hups.
    2:{ split; [done|]. intros Hall.
        destruct (Hall p tbl ltac:(by left)) as (_ & _ & ups & ? & _).
        congruence. }
    destruct (under_outer_join ups) eqn:Houter.
    { split; [done|]. intros Hall. exfalso.
      destruct (Hall p tbl ltac:(by left)) as (_ & _ & ups' & Hups' & Hno).
      rewrite Hups in Hups'. injection Hups' as <-.
      unfold under_outer_join in Houter.
      apply existsb_exists in Houter as (up & Hin & Hup).
      apply list_elem_of_In in Hin.
      rewrite (Hno up Hin) in Hup. done. }
    rewrite IH. split.
    + intros Hall q t [[= -> ->]|Hin]%elem_of_cons; [|by apply Hall].
      split; [done|]. split; [done|]. exists ups. split; [done|].
      intros up Hin. unfold under_outer_join in Houter.
      destruct (Z.eqb_spec (outer_join up.2) 0) as [|Hne]; [done|].
      exfalso. apply (eq_true_false_abs _ eq_refl). rewrite <- Houter.
      symmetry. apply existsb_exists. exists up.
      split; [by apply list_elem_of_In|]. by apply negb_true_iff, Z.eqb_neq.
    + intros Hall q t Hin. apply Hall. by right.
  - apply bool_decide_eq_false in Hview. cbn [andb orb].
    destruct (schema_table tbl) eqn:Hschema.
    { split; [done|]. intros Hall.
      destruct (Hall p tbl ltac:(by left)) as (_ & ? & _). congruence. }
    destruct (embedding_list h (Some p)) as [ups|] eqn:Hups.
    2:{ split; [done|]. intros Hall.
        destruct (Hall p tbl ltac:(by left)) as (_ & _ & ups & ? & _).
        congruence. }
    destruct (under_outer_join ups) eqn:Houter.
    { split; [done|]. intros Hall. exfalso.
      destruct (Hall p tbl ltac:(by left)) as (_ & _ & ups' & Hups' & Hno).
      rewrite Hups in Hups'. injection Hups' as <-.
      unfold under_outer_join in Houter.
      apply existsb_exists in Houter as (up & Hin & Hup).
      apply list_elem_of_In in Hin.
      rewrite (Hno up Hin) in Hup. done. }
    rewrite IH. split.
    + intros Hall q t [[= -> ->]|Hin]%elem_of_cons; [|by apply Hall].
      split; [done|]. split; [done|]. exists ups. split; [done|].
      intros up Hin. unfold under_outer_join in Houter.
      destruct (Z.eqb_spec (outer_join up.2) 0) as [|Hne]; [done|].
      exfalso. apply (eq_true_false_abs _ eq_refl). rewrite <- Houter.
      symmetry. apply existsb_exists. exists up.
      split; [by apply list_elem_of_In|]. by apply negb_true_iff, Z.eqb_neq.
    + intros Hall q t Hin. apply Hall. by right.
Qed.

(** X9. The value the registration leaves in [updatable_view] before the
    test of the check option.  The view is updatable exactly when its
    query can be merged and its algorithm is not TEMPTABLE; no table of
    the main select is a view that is not updatable or a table of the
    information schema, or lies, itself or through the joins that embed
    it, under an outer join; and, when the query is no union and has one
    table in the main select, the first table of the statement is not
    found again among the tables that follow it. *)
Theorem compute_updatable_iff (h : gmap ptr TABLE_LIST) (lex : LEX)
    (cbm : bool) (v : TABLE_LIST) :
  compute_updatable h lex cbm v = Some true <->
  cbm = true
  /\ algorithm v <> VIEW_ALGORITHM_TMPTABLE
  /\ (exists tbls,
        local_list h (sl_table_list_first (lex_select_lex lex)) = Some tbls
        /\ forall p tbl,
             (p, tbl) ∈ tbls ->
             (is_Some (view tbl) -> updatable_view tbl <> 0)
             /\ schema_table tbl = false
             /\ exists ups,
                  embedding_list h (Some p) = Some ups
                  /\ forall up, up ∈ ups -> outer_join up.2 = 0)
  /\ (lex_next_selects lex = [] ->
      exists ft,
        sl_table_list_first (lex_select_lex lex) ≫= (h !!.) = Some ft
        /\ (next_local ft = None ->
            exists qt,
              lex_query_tables lex ≫= (h !!.) = Some qt
              /\ find_table_in_global_list h (next_global qt) (db qt)
                   (table_name qt) = None)).
Proof.
  unfold compute_updatable.
  destruct cbm; cbn [andb].
  2:{ split; [done|]. by intros [? _]. }
  destruct (bool_decide (algorithm v = VIEW_ALGORITHM_TMPTABLE)) eqn:Halg;
    cbn [negb].
  { apply bool_decide_eq_true in Halg. split; [done|]. by intros (_ & ? & _). }
  apply bool_decide_eq_false in Halg.
  destruct (local_list h (sl_table_list_first (lex_select_lex lex)))
    as [tbls|] eqn:Hlist.
  2:{ split; [done|]. by intros (_ & _ & (? & [=] & _) & _). }
  pose proof (updatable_tables_loop_true h tbls) as Hloop.
  destruct (updatable_tables_loop h tbls) as [[]|].
  2:{ split; [done|]. intros (_ & _ & (tbls' & [= <-] & Hall) & _).
      by apply Hloop in Hall. }
  2:{ split; [done|]. intros (_ & _ & (tbls' & [= <-] & Hall) & _).
      by apply Hloop in Hall. }
  assert (forall P : Prop,
             P <->
             true = true /\ algorithm v <> VIEW_ALGORITHM_TMPTABLE
             /\ (exists tbls0,
                   Some tbls = Some tbls0
                   /\ forall p tbl,
                        (p, tbl) ∈ tbls0 ->
                        (is_Some (view tbl) -> updatable_view tbl <> 0)
                        /\ schema_table tbl = false
                        /\ exists ups,
                             embedding_list h (Some p) = Some ups
                             /\ forall up, up ∈ ups -> outer_join up.2 = 0)
             /\ P) as Hframe.
  { intros P. split; [|by intros (_ & _ & _ & ?)].
    intros HP. split; [done|]. split; [done|]. split; [|done].
    exists tbls. split; [done|]. by apply Hloop. }
  rewrite <- Hframe. clear Hframe Hloop.
  destruct (bool_decide (lex_next_selects lex = [])) eqn:Hnext.
  2:{ apply bool_decide_eq_false in Hnext. split; [|done]. by intros _ ?. }
  apply bool_decide_eq_true in Hnext.
  destruct (sl_table_list_first (lex_select_lex lex) ≫= (h !!.)) as [ft|].
  2:{ split; [done|]. intros H. by destruct (H Hnext) as (? & [=] & _). }
  destruct (bool_decide (next_local ft = None)) eqn:Hone.
  2:{ apply bool_decide_eq_false in Hone. split; [|done].
      intros _ _. exists ft. split; [done|]. by intros ?. }
  apply bool_decide_eq_true in Hone.
  destruct (lex_query_tables lex ≫= (h !!.)) as [qt|].
  2:{ split; [done|]. intros H.
      destruct (H Hnext) as (? & [= <-] & Hq).
      by destruct (Hq Hone) as (? & [=] & _). }
  destruct (find_table_in_global_list h (next_global qt) (db qt) (table_name qt))
    as [found|] eqn:Hfound.
  - rewrite bool_decide_eq_true_2 by (by eexists). split; [done|].
    intros H. destruct (H Hnext) as (? & [= <-] & Hq).
    destruct (Hq Hone) as (? & [= <-] & Hnone). congruence.
  - rewrite bool_decide_eq_false_2 by (by intros [? ?]). split; [|done].
    intros _ _. exists ft. split; [done|]. intros _. by exists qt.
Qed.

(** ** mysql_create_view *)

Lemma name_among (item : Item) (before : list Item) :
  existsb (fun check => strcmp (name item) (name check) =? 0) before = true
  <-> name item ∈ name <$> before.
Proof.
  rewrite existsb_exists, list_elem_of_fmap. split.
  - intros (check & Hin & Heq). exists check.
    split; [by apply strcmp_eq|by apply list_elem_of_In].
  - intros (check & Heq & Hin). exists check.
    split; [by apply list_elem_of_In|by apply strcmp_eq].
Qed.

(** The test of the names stops at the first item that has the name of an
    item before it. *)
Lemma dup_fieldname_from_spec (rest : list Item) :
  forall before : list Item,
    NoDup (name <$> before) ->
    match dup_fieldname_from before rest with
    | None => NoDup (name <$> (before ++ rest))
    | Some n =>
        exists pre item post,
          rest = pre ++ item :: post
          /\ name item = n
          /\ n ∈ name <$> (before ++ pre)
          /\ NoDup (name <$> (before ++ pre))
    end.
Proof.
  induction rest as [|item rest IH]; intros before Hnd; cbn [dup_fieldname_from].
  { by rewrite app_nil_r. }
  destruct (existsb _ before) eqn:Hdup.
  - apply name_among in Hdup.
    exists [], item, rest. by rewrite app_nil_r.
  - assert (name item ∉ name <$> before) as Hnew.
    { intros Hin. apply name_among in Hin. congruence. }
    assert (NoDup (name <$> (before ++ [item]))) as Hnd'.
    { rewrite fmap_app. apply NoDup_app. split; [done|]. split.
      - intros n Hn [->|[]%elem_of_nil]%elem_of_cons. done.
      - apply NoDup_singleton. }
    specialize (IH (before ++ [item]) Hnd').
    destruct (dup_fieldname_from (before ++ [item]) rest) as [n|].
    + destruct IH as (pre & item' & post & -> & Hname & Hin & Hnd'').
      exists (item :: pre), item', post.
      rewrite <- app_assoc in Hin, Hnd''. done.
    + by rewrite <- app_assoc in IH.
Qed.


(** X10. The test of the names of the columns of a view: it passes
    exactly when the names are different from each other, and otherwise
    it reports the name of the first column that has the name of a column
    before it. *)
Theorem dup_fieldname_first_duplicate (items : list Item) :
  match dup_fieldname items with
  | None => NoDup (name <$> items)
  | Some n =>
      exists pre item post,
        items = pre ++ item :: post
        /\ name item = n
        /\ n ∈ name <$> pre
        /\ NoDup (name <$> pre)
  end.
Proof.
  destruct items as [|first rest]; cbn [dup_fieldname]; [constructor|].
  pose proof (dup_fieldname_from_spec rest [first] ltac:(apply NoDup_singleton))
    as Hspec.
  destruct (dup_fieldname_from [first] rest) as [n|]; [|done].
  destruct Hspec as (pre & item & post & -> & Hname & Hin & Hnd).
  by exists (first :: pre), item, post.
Qed.

(** What a failure and a success of the last part leave behind. *)
Lemma register_and_invalidate_outcome (st st' : state) (p : ptr)
    (link res : bool) (mode : enum_view_create_mode) :
  register_and_invalidate st p link mode = Some (res, st') ->
  if res then files st' = files st /\ ok_sent st' = ok_sent st
  else ok_sent st' = true.
Proof.
  unfold register_and_invalidate.
  destruct (wait_if_global_read_lock (files st)).
  { intros [= <- <-]. done. }
  destruct (mysql_register_view st p mode) as [[ret st1]|] eqn:Hreg; [|done].
  apply mysql_register_view_frame in Hreg as (_ & Hok & Hfiles).
  destruct (heap st1 !! p) as [v|]; [|done].
  destruct (Z.eqb_spec ret 0) as [->|Hne]; cbn [negb].
  - intros [= <- <-]. done.
  - intros [= <- <-]. cbn. rewrite <- (Hfiles Hne), <- Hok.
    by destruct (negb (revision v =? 1)).
Qed.

Lemma prepare_and_check_outcome (st st' : state) (p : ptr) (v : TABLE_LIST)
    (link res : bool) (mode : enum_view_create_mode) :
  prepare_and_check st p v link mode = Some (res, st') ->
  if res then files st' = files st /\ ok_sent st' = ok_sent st
  else ok_sent st' = true.
Proof.
  unfold prepare_and_check. cbn [thd_lex set_thd_lex heap].
  destruct (unit_prepare _ _) as [lex|].
  2:{ intros [= <- <-]. done. }
  destruct (_ && _).
  { intros [= <- <-]. cbn. done. }
  destruct (dup_fieldname _).
  { intros [= <- <-]. done. }
  destruct (column_with_more_privileges _ _).
  { intros [= <- <-]. done. }
  intros Hrun. apply register_and_invalidate_outcome in Hrun. exact Hrun.
Qed.

Lemma open_and_check_outcome (st st' : state) (p : ptr) (v : TABLE_LIST)
    (link res : bool) (mode : enum_view_create_mode) :
  open_and_check st p v link mode = Some (res, st') ->
  if res then files st' = files st /\ ok_sent st' = ok_sent st
  else ok_sent st' = true.
Proof.
  unfold open_and_check.
  destruct (open_and_lock_tables _ _) as [h|].
  2:{ intros [= <- <-]. done. }
  cbn [heap set_heap thd_lex].
  destruct (global_list h _) as [tbls|]; [|done].
  intros Hrun.
  assert (prepare_and_check (set_heap h st) p v link mode = Some (res, st')
          \/ res = true /\ files st' = files st /\ ok_sent st' = ok_sent st)
    as [Hprep|(-> & ? & ?)]; [|by apply prepare_and_check_outcome in Hprep|done].
  destruct (examine_tables v tbls) as [[] [tbl|]]; try done;
    try (by left); right; injection Hrun as <- <-; done.
Qed.

(** X11. CREATE VIEW and ALTER VIEW write nothing when they fail: when
    TRUE is returned the files are as they were and no acknowledgement
    was sent; when FALSE is returned the acknowledgement was sent. *)
Theorem mysql_create_view_all_or_nothing (st st' : state)
    (mode : enum_view_create_mode) (res : bool) :
  mysql_create_view st mode = Some (res, st') ->
  if res then files st' = files st /\ ok_sent st' = ok_sent st
  else ok_sent st' = true.
Proof.
  unfold mysql_create_view.
  destruct (unlink_first_table _ _) as [[[p lex] link]|]; [|done].
  cbn [heap set_thd_lex].
  destruct (heap st !! p) as [v|]; [|done].
  destruct (_ || _).
  { intros [= <- <-]. done. }
  destruct (_ || _).
  { intros [= <- <-]. done. }
  destruct (check_privileges _ _ _ _ _) as [[[b st1]|st1]|] eqn:Hpriv; [| |done].
  - apply check_privileges_frame in Hpriv as [-> (? & _ & ?)].
    intros [= <- <-]. done.
  - apply check_privileges_frame in Hpriv as ((Hf & _ & Hok) & _).
    intros Hrun. apply open_and_check_outcome in Hrun.
    cbn in Hf, Hok. rewrite <- Hf, <- Hok. exact Hrun.
Qed.




(** The loop over the opened tables stops at the first table that is
    temporary or is the view itself. *)
Lemma examine_tables_first (v : TABLE_LIST) (tbls : list (ptr * TABLE_LIST)) :
  (forall tbl, tbl ∈ tbls.*2 -> is_Some (table tbl)) ->
  (examine_tables v tbls = (Table_ok, None)
   /\ forall tbl, tbl ∈ tbls.*2 -> examine_table v tbl = Table_ok)
  \/ exists verdict tbl pre post,
       examine_tables v tbls = (verdict, Some tbl)
       /\ (verdict = Table_temporary \/ verdict = Table_is_the_view)
       /\ tbls.*2 = pre ++ tbl :: post
       /\ (forall t, t ∈ pre -> examine_table v t = Table_ok)
       /\ examine_table v tbl = verdict.
Proof.
  intros Hopen.
  induction tbls as [|[p tbl] rest IH]; cbn [examine_tables].
  { left. split; [done|]. intros tbl Hin. by apply elem_of_nil in Hin. }
  assert (examine_table v tbl <> Table_not_opened) as Hnot.
  { unfold examine_table. destruct (Hopen tbl) as [tab ->]; [left|].
    repeat case_match; done. }
  destruct (examine_table v tbl) eqn:Hex; [|..|done].
  - destruct IH as [[Hrun Hall]|(verdict & stop & pre & post & Hrun & Hv & Heq
                                 & Hpre & Hstop)].
    { intros t Ht. apply Hopen. by right. }
    + left. split; [done|]. intros t [->|Ht]%elem_of_cons; auto.
    + right. exists verdict, stop, (tbl :: pre), post.
      split; [done|]. split; [done|]. split; [cbn; by rewrite Heq|].
      split; [|done]. intros t [->|Ht]%elem_of_cons; auto.
  - right. exists Table_temporary, tbl, [], (rest.*2).
    split; [done|]. split; [by left|]. split; [done|]. split; [|done].
    intros t Ht. by apply elem_of_nil in Ht.
  - right. exists Table_is_the_view, tbl, [], (rest.*2).
    split; [done|]. split; [by right|]. split; [done|]. split; [|done].
    intros t Ht. by apply elem_of_nil in Ht.
Qed.

Lemma examine_table_verdict (v tbl : TABLE_LIST) :
  is_Some (table tbl) ->
  match examine_table v tbl with
  | Table_ok => ~ is_temporary tbl /\ ~ is_the_view v tbl
  | Table_temporary => is_temporary tbl
  | Table_is_the_view => is_the_view v tbl
  | Table_not_opened => False
  end.
Proof.
  intros [tab Htab]. unfold examine_table, is_temporary, is_the_view.
  rewrite Htab.
  destruct (decide (s_tmp_table tab = NO_TMP_TABLE)) as [Htmp|Htmp].
  - rewrite (bool_decide_eq_true_2 _ Htmp). cbn [negb andb].
    destruct (view tbl) as [vlex|] eqn:Hview.
    + rewrite bool_decide_eq_true_2 by done. cbn [andb].
      destruct (strcmp (view_db tbl) (db v) =? 0) eqn:Hdb; cbn [andb].
      * destruct (strcmp (view_name tbl) (table_name v) =? 0) eqn:Hname.
        -- apply strcmp_eq in Hdb, Hname. done.
        -- split; [by intros (? & _ & _ & [=] & _)|].
           intros (_ & _ & Hn). apply strcmp_eq in Hn. congruence.
      * split; [by intros (? & _ & _ & [=] & _)|].
        intros (_ & Hd & _). apply strcmp_eq in Hd. congruence.
    + rewrite bool_decide_eq_false_2 by (by intros [? ?]). cbn [andb].
      split; [|by intros ([? ?] & _)].
      intros (tab' & [= <-] & ? & _). done.
  - rewrite (bool_decide_eq_false_2 _ Htmp). cbn [negb andb].
    destruct (view tbl) as [vlex|] eqn:Hview.
    + rewrite bool_decide_eq_true_2 by done. cbn [negb andb].
      destruct (strcmp (view_db tbl) (db v) =? 0) eqn:Hdb; cbn [andb].
      * destruct (strcmp (view_name tbl) (table_name v) =? 0) eqn:Hname.
        -- apply strcmp_eq in Hdb, Hname. done.
        -- split; [by intros (? & _ & _ & [=] & _)|].
           intros (_ & _ & Hn). apply strcmp_eq in Hn. congruence.
      * split; [by intros (? & _ & _ & [=] & _)|].
        intros (_ & Hd & _). apply strcmp_eq in Hd. congruence.
    + rewrite bool_decide_eq_false_2 by (by intros [? ?]). cbn [negb andb].
      destruct (schema_table tbl) eqn:Hschema; cbn [negb].
      * split; [|by intros ([? ?] & _)].
        intros (tab' & _ & _ & _ & ?). done.
      * by exists tab.
Qed.

(** X13. A view cannot be defined on a temporary table, nor on itself.
    When a table opened for the query is temporary or is the view that is
    defined, the statement fails; the first such table, in the order of the
    tables of the statement, gives the error: ER_VIEW_SELECT_TMPTABLE with
    its alias when it is temporary, ER_NO_SUCH_TABLE with the name of the
    view otherwise. *)
Theorem first_offending_table_decides (st st1 : state)
    (mode : enum_view_create_mode) (view_ptr : ptr) (lex : LEX) (link : bool)
    (v : TABLE_LIST) (h : gmap ptr TABLE_LIST) (tbls : list (ptr * TABLE_LIST))
    (offending : TABLE_LIST) :
  unlink_first_table (heap st) (thd_lex st) = Some (view_ptr, lex, link) ->
  heap st !! view_ptr = Some v ->
  lex_proc_list_first lex = false ->
  lex_result lex = false ->
  lex_derived_tables lex = 0 ->
  lex_variables_used lex = false ->
  lex_param_list_elements lex = 0%nat ->
  check_privileges (set_thd_lex lex st) view_ptr v link mode = Some (inr st1) ->
  open_and_lock_tables (heap st1) (lex_query_tables lex) = Some h ->
  global_list h (lex_query_tables lex) = Some tbls ->
  (forall tbl, tbl ∈ tbls.*2 -> is_Some (table tbl)) ->
  offending ∈ tbls.*2 ->
  is_temporary offending \/ is_the_view v offending ->
  exists st' pre stop post,
    mysql_create_view st mode = Some (true, st')
    /\ tbls.*2 = pre ++ stop :: post
    /\ (forall t, t ∈ pre -> ~ is_temporary t /\ ~ is_the_view v t)
    /\ (is_temporary stop
        /\ diagnostics st' =
           diagnostics st
           ++ [Diag LEVEL_ERROR ER_VIEW_SELECT_TMPTABLE [alias stop]]
        \/ is_the_view v stop
           /\ diagnostics st' =
              diagnostics st
              ++ [Diag LEVEL_ERROR ER_NO_SUCH_TABLE [db v; table_name v]]).
Proof.
  intros Hun Hv Hproc Hres Hder Hvar Hpar Hpriv Hopen Hlist Hopened Hin Hoff.
  pose proof (check_privileges_frame _ _ _ _ _ _ Hpriv) as (_ & Hlex & Hd).
  cbn in Hlex, Hd.
  assert (mysql_create_view st mode = open_and_check st1 view_ptr v link mode)
    as Hrun.
  { unfold mysql_create_view.
    rewrite Hun. cbn. rewrite Hv, Hproc, Hres, Hder, Hvar, Hpar. cbn.
    by rewrite Hpriv. }
  rewrite Hrun. unfold open_and_check. rewrite Hlex, Hopen.
  cbn [heap set_heap thd_lex]. rewrite Hlist.
  destruct (examine_tables_first v tbls Hopened)
    as [[_ Hall]|(verdict & stop & pre & post & Hex & Hverdict & Heq & Hpre
                  & Hstop)].
  { exfalso. pose proof (examine_table_verdict v offending (Hopened _ Hin)) as H.
    rewrite (Hall _ Hin) in H. destruct H as [Ht Hs].
    destruct Hoff; [by apply Ht|by apply Hs]. }
  assert (stop ∈ tbls.*2) as Hstop_in.
  { rewrite Heq. apply elem_of_app. right. by left. }
  pose proof (examine_table_verdict v stop (Hopened _ Hstop_in)) as Hstop'.
  rewrite Hstop in Hstop'. rewrite Hex.
  assert (forall t, t ∈ pre -> ~ is_temporary t /\ ~ is_the_view v t) as Hpre'.
  { intros t Ht.
    assert (t ∈ tbls.*2) as Ht' by (rewrite Heq; apply elem_of_app; by left).
    pose proof (examine_table_verdict v t (Hopened _ Ht')) as H.
    by rewrite (Hpre _ Ht) in H. }
  destruct Hverdict as [->| ->].
  - eexists _, pre, stop, post. split; [done|]. split; [done|].
    split; [done|]. left. split; [done|]. cbn. by rewrite Hd.
  - eexists _, pre, stop, post. split; [done|]. split; [done|].
    split; [done|]. right. split; [done|]. cbn.
    destruct Hstop' as (_ & -> & ->). by rewrite Hd.
Qed.



(** ** mysql_make_view, further *)

Lemma parse_view_inr (st st1 : state) (parser : File_parser) (p : ptr)
    (t : TABLE_LIST) (lex : LEX) :
  parse_view st parser p t = inr (st1, lex) ->
  thd_lex st1 = thd_lex st
  /\ yyparse_calls st1 = S (yyparse_calls st)
  /\ sl_select_number (lex_select_lex lex) = S (thd_select_number st).
Proof.
  unfold parse_view.
  destruct (file_parse parser 0 required_view_parameters t) as [t0|r]; [|done].
  cbn zeta. destruct (_ && _); [|done]. intros [= <- <-]. done.
Qed.



(** The LEX of the statement after the tables of the view are linked: the
    end of its list of tables may have moved, nothing else. *)
Lemma splice_view_tables_after (table_ptr : ptr) (view_tables tail : option ptr)
    (st st' : state) :
  splice_view_tables table_ptr view_tables tail st = Some st' ->
  same_member marks st st'
  /\ same_member prelocking_placeholder st st'
  /\ exists last,
       thd_lex st' = set_lex_query_tables_last last (thd_lex st).
Proof.
  unfold splice_view_tables.
  destruct view_tables as [vt|].
  2:{ intros [= <-]. split; [done|]. split; [done|].
      exists (lex_query_tables_last (thd_lex st)). by destruct (thd_lex st). }
  destruct tail as [tl|]; [|done].
  destruct (heap st !! table_ptr) as [t|]; [|done].
  intros [= <-].
  destruct (next_global t) as [nxt|].
  - split; [|split].
    + repeat (eapply same_member_trans; [|by apply same_member_upd]). done.
    + repeat (eapply same_member_trans; [|by apply same_member_upd]). done.
    + rewrite !(proj1 (upd_frame _ _ _)).
      exists (lex_query_tables_last (thd_lex st)). by destruct (thd_lex st).
  - split; [|split].
    + repeat (eapply same_member_trans; [|by apply same_member_upd]).
      by apply same_member_heap.
    + repeat (eapply same_member_trans; [|by apply same_member_upd]).
      by apply same_member_heap.
    + rewrite !(proj1 (upd_frame _ _ _)). by eexists.
Qed.

Lemma upd_each_marked (top : ptr) (ps : list ptr) :
  forall (st : state) (a : ptr),
    is_Some (heap st !! a) ->
    a ∈ ps \/ marks <$> heap st !! a = Some (Some top, true) ->
    marks
    <$> heap
          (upd_each ps
             (fun tbl => set_belong_to_view (Some top) (set_skip_temporary true tbl))
             st) !! a
    = Some (Some top, true).
Proof.
  induction ps as [|p ps IH]; intros st a Ha Hin.
  { destruct Hin as [Hin|Hm]; [by apply elem_of_nil in Hin|done]. }
  rewrite upd_each_cons. apply IH.
  { by apply lookup_upd_is_Some. }
  destruct (decide (p = a)) as [->|Hne].
  - right. rewrite lookup_upd, decide_True by done.
    destruct Ha as [ta ->]. done.
  - destruct Hin as [[->|Hin]%elem_of_cons|Hm]; [done|by left|].
    right. by rewrite lookup_upd, decide_False.
Qed.

Lemma link_view_tables_after (st st' : state) (p : ptr) (t : TABLE_LIST)
    (lex : LEX) :
  link_view_tables st p t lex = Some st' ->
  (exists tbls,
     global_list (heap st) (lex_query_tables lex) = Some tbls
     /\ forall a,
          a ∈ tbls.*1 ->
          marks <$> heap st' !! a
          = Some (Some (default p (belong_to_view t)), true))
  /\ same_member prelocking_placeholder st st'
  /\ exists last,
       thd_lex st' = set_lex_query_tables_last last (thd_lex st).
Proof.
  unfold link_view_tables.
  destruct (global_list (heap st) (lex_query_tables lex)) as [tbls|] eqn:Hlist;
    [|done].
  set (top := match belong_to_view t with Some top => top | None => p end).
  set (mark := fun tbl : TABLE_LIST =>
                 set_belong_to_view (Some top) (set_skip_temporary true tbl)).
  set (st_a := upd_each (tbls.*1) mark st).
  destruct (splice_view_tables p (lex_query_tables lex) (last (tbls.*1)) st_a)
    as [st_b|] eqn:Hsplice; [|done].
  apply splice_view_tables_after in Hsplice as (Hmarks & Hpl & lst & Hlex).
  assert (forall a,
            a ∈ tbls.*1 -> marks <$> heap st_b !! a = Some (Some top, true))
    as Hmarked.
  { intros a Ha. rewrite Hmarks. apply upd_each_marked; [|by left].
    apply walk_lseg in Hlist. by eapply lseg_lookup. }
  assert (thd_lex st_a = thd_lex st) as Hlexa
    by apply (upd_each_frame (tbls.*1) mark st).
  assert (same_member prelocking_placeholder st st_b) as Hpl'.
  { eapply same_member_trans; [|exact Hpl]. by apply same_member_upd_each. }
  assert (top = default p (belong_to_view t)) as <-
    by (unfold top; by destruct (belong_to_view t)).
  destruct (bool_decide (lex_next_selects lex = [])).
  - destruct (local_list (heap st_b) _) as [locals|]; [|done].
    intros [= <-]. split; [|split].
    + exists tbls. split; [done|]. intros a Ha.
      rewrite lookup_upd_each_keeps by done. by apply Hmarked.
    + eapply same_member_trans; [exact Hpl'|]. by apply same_member_upd_each.
    + exists lst.
      rewrite (proj1 (upd_each_frame _ _ _)). by rewrite Hlex, Hlexa.
  - intros [= <-]. split; [|split].
    + by exists tbls.
    + done.
    + exists lst. by rewrite Hlex, Hlexa.
Qed.

Lemma same_member_fst {A B : Type} (g : TABLE_LIST -> A * B) (st st' : state) :
  same_member g st st' ->
  same_member (fun t => (g t).1) st st'
  /\ same_member (fun t => (g t).2) st st'.
Proof.
  intros Hs. split; intros a; specialize (Hs a);
    destruct (heap st' !! a), (heap st !! a); cbn in *; congruence.
Qed.

Lemma make_view_merge_after (st st' : state) (p : ptr) (lex : LEX)
    (view_tables : option ptr) :
  make_view_merge st p lex view_tables = Some st' ->
  same_member (fun t => (marks t, prelocking_placeholder t)) st st'
  /\ thd_lex st' = thd_lex st.
Proof.
  unfold make_view_merge.
  destruct view_tables as [vt|]; [|done].
  match goal with
  | |- context [upd p ?f st] => set (f0 := f); set (st0 := upd p f0 st)
  end.
  destruct (heap st0 !! p) as [t1|]; [|done].
  destruct (local_list _ _) as [locals|]; [|done].
  set (st1 := upd_each (locals.*1) (set_select_lex (select_lex t1)) st0).
  destruct (heap st1 !! vt) as [first|]; [|done].
  intros [= <-].
  assert (same_member (fun t => (marks t, prelocking_placeholder t)) st st1
          /\ thd_lex st1 = thd_lex st) as [Hm Hl].
  { split.
    - eapply same_member_trans; [|by apply same_member_upd_each].
      by apply same_member_upd.
    - unfold st1. rewrite (proj1 (upd_each_frame _ _ _)).
      apply upd_frame. }
  split.
  - eapply same_member_trans; [|by apply same_member_upd].
    eapply same_member_trans; [|by apply same_member_upd_each].
    eapply same_member_trans; [|by apply same_member_upd].
    destruct (bool_decide _); [|done].
    eapply same_member_trans; [exact Hm|]. by apply same_member_upd.
  - rewrite (proj1 (upd_frame _ _ _)), (proj1 (upd_each_frame _ _ _)),
      (proj1 (upd_frame _ _ _)).
    destruct (bool_decide _); [|done].
    by rewrite (proj1 (upd_frame _ _ _)).
Qed.

Lemma move_options_subqueries (lex old_lex : LEX) :
  move_options lex old_lex
  = set_lex_subqueries (lex_subqueries old_lex) (move_options lex old_lex).
Proof.
  unfold move_options. destruct (negb _); by destruct old_lex.
Qed.

(** What the choice of the algorithm leaves in the LEX of the statement
    and at the node. *)
Lemma choose_algorithm_after (st st' : state) (p : ptr) (t : TABLE_LIST)
    (lex : LEX) (r : Z) :
  choose_algorithm st p t lex = Some (r, st') ->
  same_member (fun t => (marks t, prelocking_placeholder t)) st st'
  /\ (exists t' vlex,
        heap st' !! p = Some t' /\ view t' = Some vlex
        /\ lex_safe_to_cache_query vlex = lex_safe_to_cache_query lex
        /\ sl_options (lex_select_lex vlex) = sl_options (lex_select_lex lex))
  /\ if prelocking_placeholder t then thd_lex st' = thd_lex st
     else exists sub,
            thd_lex st' = set_lex_subqueries sub (move_options lex (thd_lex st)).
Proof.
  unfold choose_algorithm.
  destruct (prelocking_placeholder t).
  { intros Hok. apply make_view_ok_spec in Hok as (_ & -> & t0 & Ht0 & Ht').
    split; [by apply same_member_upd|].
    split; [by exists (set_view (Some lex) t0), lex|].
    apply upd_frame. }
  set (st0 := set_thd_lex (move_options lex (thd_lex st)) st).
  assert (forall (A : Type) (g : TABLE_LIST -> A), same_member g st st0)
    as H0 by (intros A g; by apply same_member_heap).
  destruct (merge_ability t lex (thd_lex st0)).
  - destruct (make_view_merge st0 p lex (lex_query_tables lex)) as [st1|] eqn:Hm;
      [|done].
    apply make_view_merge_after in Hm as (Hkept & Hlex).
    intros Hok. apply make_view_ok_spec in Hok as (_ & -> & t0 & Ht0 & Ht').
    split.
    { eapply same_member_trans; [apply H0|].
      eapply same_member_trans; [exact Hkept|]. by apply same_member_upd. }
    split; [by exists (set_view (Some lex) t0), lex|].
    exists (lex_subqueries (thd_lex st)).
    rewrite (proj1 (upd_frame _ _ _)), Hlex. cbn [st0 thd_lex set_thd_lex].
    rewrite move_options_subqueries at 1. f_equal.
  - destruct (make_view_tmptable st0 p lex) as [st1 lex1] eqn:Htmp.
    intros Hok. apply make_view_ok_spec in Hok as (_ & -> & t0 & Ht0 & Ht').
    unfold make_view_tmptable in Htmp. injection Htmp as <- <-.
    split.
    { eapply same_member_trans; [apply H0|].
      repeat (eapply same_member_trans; [|by apply same_member_upd]).
      apply same_member_heap. cbn [heap set_thd_lex].
      repeat (eapply same_member_trans; [|by apply same_member_upd]).
      done. }
    split; [by eexists _, _|].
    exists true. rewrite !(proj1 (upd_frame _ _ _)). cbn [thd_lex set_thd_lex].
    reflexivity.
Qed.

(** The steps of a call that returns 0 for a node that was not resolved
    before. *)
Lemma mysql_make_view_steps (st st' : state) (parser : File_parser) (p : ptr)
    (t : TABLE_LIST) :
  heap st !! p = Some t ->
  view t = None ->
  mysql_make_view st parser p = Some (0, st') ->
  exists st1 lex t1 st2,
    parse_view st parser p t = inr (st1, lex)
    /\ heap st1 !! p = Some t1
    /\ view_access_denied st1 p t1 (lex_query_tables lex) = None
    /\ link_view_tables st1 p t1 lex = Some st2
    /\ choose_algorithm st2 p t1 lex = Some (0, st').
Proof.
  intros Ht Hview Hrun. unfold mysql_make_view in Hrun.
  rewrite Ht, Hview in Hrun.
  rewrite bool_decide_eq_false_2 in Hrun by (by intros [? ?]).
  destruct (parse_view st parser p t) as [st1|[st1 lex]] eqn:Hparse; [done|].
  unfold make_view_parsed in Hrun.
  destruct (heap st1 !! p) as [t1|] eqn:Ht1; [|done].
  destruct (view_access_denied _ _ _ _) eqn:Hacc; [done|].
  destruct (link_view_tables _ _ _ _) as [st2|] eqn:Hlink; [|done].
  by exists st1, lex, t1, st2.
Qed.

(** X14. The tables of a view that was resolved are marked: each table of
    the query of the view belongs to the view at the top (the view the
    node itself belongs to, or the node), and no temporary table may stand
    for it. *)
Theorem view_tables_are_marked (st st1 st' : state) (parser : File_parser)
    (p : ptr) (t t1 : TABLE_LIST) (lex : LEX) (tbls : list (ptr * TABLE_LIST)) :
  heap st !! p = Some t ->
  view t = None ->
  parse_view st parser p t = inr (st1, lex) ->
  heap st1 !! p = Some t1 ->
  global_list (heap st1) (lex_query_tables lex) = Some tbls ->
  mysql_make_view st parser p = Some (0, st') ->
  forall a,
    a ∈ tbls.*1 ->
    exists ta,
      heap st' !! a = Some ta
      /\ belong_to_view ta = Some (default p (belong_to_view t1))
      /\ skip_temporary ta = true.
Proof.
  intros Ht Hview Hparse Ht1 Hlist Hrun a Ha.
  destruct (mysql_make_view_steps _ _ _ _ _ Ht Hview Hrun)
    as (st1' & lex' & t1' & st2 & Hparse' & Ht1' & _ & Hlink & Hchoose).
  rewrite Hparse in Hparse'. injection Hparse' as <- <-.
  rewrite Ht1 in Ht1'. injection Ht1' as <-.
  apply link_view_tables_after in Hlink as ((tbls' & Hlist' & Hmarked) & _).
  rewrite Hlist in Hlist'. injection Hlist' as <-.
  apply choose_algorithm_after in Hchoose as (Hkept & _).
  apply same_member_fst in Hkept as [Hmarks _].
  specialize (Hmarked a Ha). specialize (Hmarks a). cbn in Hmarks.
  change (fun t0 => marks t0) with marks in Hmarks.
  rewrite Hmarked in Hmarks.
  destruct (heap st' !! a) as [ta|]; [|done].
  injection Hmarks as Hb Hs. by exists ta.
Qed.

(** X15. What resolving a view does to the statement around it.  For a
    node that is a placeholder for prelocking the statement keeps its
    options.  Otherwise the statement can be cached only if it could
    before and the query of the view can; it has the flag DERIVED_VIEW
    among its derived tables; and it takes the option SQL_CACHE over from
    the query of the view. *)
Theorem view_options_move_to_the_statement (st st' : state)
    (parser : File_parser) (p : ptr) (t : TABLE_LIST) :
  heap st !! p = Some t ->
  view t = None ->
  mysql_make_view st parser p = Some (0, st') ->
  exists t' vlex,
    heap st' !! p = Some t'
    /\ view t' = Some vlex
    /\ if prelocking_placeholder t'
       then lex_safe_to_cache_query (thd_lex st')
            = lex_safe_to_cache_query (thd_lex st)
            /\ lex_derived_tables (thd_lex st') = lex_derived_tables (thd_lex st)
            /\ sl_options (lex_select_lex (thd_lex st'))
               = sl_options (lex_select_lex (thd_lex st))
       else lex_safe_to_cache_query (thd_lex st')
            = lex_safe_to_cache_query (thd_lex st)
              && lex_safe_to_cache_query vlex
            /\ lex_derived_tables (thd_lex st')
               = Z.lor (lex_derived_tables (thd_lex st)) DERIVED_VIEW
            /\ sl_options (lex_select_lex (thd_lex st'))
               = if Z.land (sl_options (lex_select_lex vlex))
                      OPTION_TO_QUERY_CACHE =? 0
                 then sl_options (lex_select_lex (thd_lex st))
                 else Z.lor (sl_options (lex_select_lex (thd_lex st)))
                        OPTION_TO_QUERY_CACHE.
Proof.
  intros Ht Hview Hrun.
  destruct (mysql_make_view_steps _ _ _ _ _ Ht Hview Hrun)
    as (st1 & lex & t1 & st2 & Hparse & Ht1 & _ & Hlink & Hchoose).
  apply parse_view_inr in Hparse as (Hlex1 & _).
  apply link_view_tables_after in Hlink as (_ & Hpl2 & lst & Hlex2).
  apply choose_algorithm_after in Hchoose
    as (Hkept & (t' & vlex & Ht' & Hvlex & Hsafe & Hopt) & Hlex').
  apply same_member_fst in Hkept as [_ Hpl'].
  exists t', vlex. split; [done|]. split; [done|].
  assert (prelocking_placeholder t' = prelocking_placeholder t1) as ->.
  { specialize (Hpl' p). specialize (Hpl2 p).
    rewrite Ht' in Hpl'. rewrite Ht1 in Hpl2.
    destruct (heap st2 !! p); cbn in *; congruence. }
  destruct (prelocking_placeholder t1).
  - by rewrite Hlex', Hlex2, Hlex1.
  - destruct Hlex' as [sub ->]. rewrite Hlex2, Hlex1, Hsafe, Hopt.
    unfold move_options.
    destruct (Z.land (sl_options (lex_select_lex lex)) OPTION_TO_QUERY_CACHE =? 0);
      done.
Qed.


(** X17. A view that cannot be merged is resolved as a temporary table.
    The call returns 0; the node gets the algorithm TEMPTABLE, is not
    updatable, has no check option in effect, and stands for the derived
    table of the select of the view, whose linkage is that of a derived
    table; the statement is marked as having subqueries; and the tables of
    the view are in the global list of the statement right after the
    node, as they are for a merged view. *)
Theorem temptable_view_is_a_derived_table (st st1 : state)
    (parser : File_parser) (p : ptr) (t t1 : TABLE_LIST) (lex : LEX)
    (pre post V locals : list ptr) :
  heap st !! p = Some t ->
  view t = None ->
  parse_view st parser p t = inr (st1, lex) ->
  heap st1 !! p = Some t1 ->
  view_access_denied st1 p t1 (lex_query_tables lex) = None ->
  prelocking_placeholder t1 = false ->
  merge_ability t1 lex (thd_lex st1) = false ->
  fmap (M := option) (fmap fst)
    (global_list (heap st1) (lex_query_tables (thd_lex st1)))
  = Some (pre ++ p :: post) ->
  fmap (M := option) (fmap fst) (global_list (heap st1) (lex_query_tables lex))
  = Some V ->
  (forall a, a ∈ V -> a ∉ pre ++ p :: post) ->
  fmap (M := option) (fmap fst)
    (local_list (heap st1) (sl_table_list_first (lex_select_lex lex)))
  = Some locals ->
  exists st' t' vlex,
    mysql_make_view st parser p = Some (0, st')
    /\ heap st' !! p = Some t'
    /\ effective_algorithm t' = VIEW_ALGORITHM_TMPTABLE
    /\ updatable t' = false
    /\ effective_with_check t' = VIEW_CHECK_NONE
    /\ derived t' = Some (S (thd_select_number st))
    /\ view t' = Some vlex
    /\ sl_linkage (lex_select_lex vlex) = DERIVED_TABLE_TYPE
    /\ sl_select_number (lex_select_lex vlex) = S (thd_select_number st)
    /\ lex_subqueries (thd_lex st') = true
    /\ fmap (M := option) (fmap fst)
         (global_list (heap st') (lex_query_tables (thd_lex st')))
       = Some (pre ++ p :: V ++ post).
Proof.
  intros Ht Hview Hparse Ht1 Hacc Hpl Hm Hout HV Hdisj Hloc.
  apply walk_ptrs_lseg in Hout, HV, Hloc.
  destruct (link_view_tables_spec st1 p t1 lex pre post V locals
              Ht1 Hout HV Hdisj Hloc)
    as (st2 & Hlink & Hlist & _).
  pose proof (link_view_tables_after _ _ _ _ _ Hlink) as (_ & _ & lst & Hlex2).
  pose proof (parse_view_inr _ _ _ _ _ _ Hparse) as (_ & _ & Hnumber).
  assert (merge_ability t1 lex (thd_lex st2) = false) as Hm2.
  { rewrite Hlex2. rewrite <- Hm. reflexivity. }
  assert (is_Some (heap st2 !! p)) as [t2 Ht2].
  { eapply (lseg_lookup next_global); [exact Hlist|].
    apply elem_of_app. right. left. }
  destruct (make_view_tmptable
              (set_thd_lex (move_options lex (thd_lex st2)) st2) p lex)
    as [st3 lex3] eqn:Htmp.
  assert (exists t3,
            heap st3 !! p = Some t3
            /\ effective_algorithm t3 = VIEW_ALGORITHM_TMPTABLE
            /\ updatable t3 = false
            /\ effective_with_check t3 = VIEW_CHECK_NONE
            /\ derived t3 = Some (sl_select_number (lex_select_lex lex))
            /\ lex3 = set_lex_select_lex
                        (set_sl_linkage DERIVED_TABLE_TYPE (lex_select_lex lex))
                        lex
            /\ lex_subqueries (thd_lex st3) = true) as Hnode.
  { unfold make_view_tmptable in Htmp. injection Htmp as <- <-.
    eexists. split.
    - rewrite !lookup_upd, !decide_True by done. cbn [heap set_thd_lex].
      rewrite !lookup_upd, !decide_True by done. cbn [heap set_thd_lex].
      rewrite Ht2. reflexivity.
    - cbn. done. }
  destruct Hnode as (t3 & Ht3 & Halg & Hupd & Hchk & Hder & -> & Hsub).
  assert (choose_algorithm st2 p t1 lex
          = Some (0, upd p
                       (set_view
                          (Some (set_lex_select_lex
                                   (set_sl_linkage DERIVED_TABLE_TYPE
                                      (lex_select_lex lex)) lex))) st3))
    as Hchoose.
  { unfold choose_algorithm. rewrite Hpl. cbn [thd_lex set_thd_lex].
    rewrite merge_ability_move_options, Hm2, Htmp.
    unfold make_view_ok. by rewrite Ht3. }
  pose proof (choose_algorithm_spec _ _ _ _ _ _ Hchoose)
    as (_ & _ & Hg & Hq & _).
  eexists _, (set_view _ t3), _.
  split.
  { unfold mysql_make_view. rewrite Ht, Hview.
    rewrite bool_decide_eq_false_2 by (by intros [? ?]).
    rewrite Hparse. unfold make_view_parsed. rewrite Ht1, Hacc, Hlink.
    exact Hchoose. }
  split.
  { rewrite lookup_upd, decide_True by done. by rewrite Ht3. }
  split; [done|]. split; [done|]. split; [done|].
  split; [by rewrite <- Hnumber|]. split; [done|]. split; [done|].
  split; [done|].
  split; [by rewrite (proj1 (upd_frame _ _ _))|].
  apply walk_ptrs_lseg. rewrite Hq.
  by apply (lseg_same_member next_global st2).
Qed.

(** ** The MERGE branch of mysql_make_view *)

Lemma lookup_upd_sets {A : Type} (g : TABLE_LIST -> A) (x : A) (p : ptr)
    (f : TABLE_LIST -> TABLE_LIST) (st : state) :
  (forall t, g (f t) = x) ->
  is_Some (heap st !! p) ->
  g <$> heap (upd p f st) !! p = Some x.
Proof.
  intros Hset [t Ht]. rewrite lookup_upd, decide_True by done.
  rewrite Ht. cbn. by rewrite Hset.
Qed.

Lemma upd_each_sets {A : Type} (g : TABLE_LIST -> A) (x : A)
    (f : TABLE_LIST -> TABLE_LIST) (ps : list ptr) :
  (forall t, g (f t) = x) ->
  forall (st : state) (a : ptr),
    is_Some (heap st !! a) ->
    a ∈ ps \/ g <$> heap st !! a = Some x ->
    g <$> heap (upd_each ps f st) !! a = Some x.
Proof.
  intros Hset. induction ps as [|p ps IH]; intros st a Ha Hin.
  { destruct Hin as [Hin|Hm]; [by apply elem_of_nil in Hin|done]. }
  rewrite upd_each_cons. apply IH.
  { by apply lookup_upd_is_Some. }
  destruct (decide (p = a)) as [->|Hne].
  - right. by apply lookup_upd_sets.
  - destruct Hin as [[->|Hin]%elem_of_cons|Hm]; [done|by left|].
    right. by rewrite lookup_upd, decide_False.
Qed.

Lemma splice_view_tables_keeps {A : Type} (g : TABLE_LIST -> A)
    (table_ptr : ptr) (view_tables tail : option ptr) (st st' : state) :
  (forall x, keeps g (set_next_global x)) ->
  (forall x, keeps g (set_prev_global x)) ->
  splice_view_tables table_ptr view_tables tail st = Some st' ->
  same_member g st st'.
Proof.
  intros Kn Kp. unfold splice_view_tables.
  destruct view_tables as [vt|]; [|by intros [= <-]].
  destruct tail as [tl|]; [|done].
  destruct (heap st !! table_ptr) as [t|]; [|done].
  intros [= <-].
  destruct (next_global t) as [nxt|].
  - repeat (eapply same_member_trans; [|by apply same_member_upd]). done.
  - repeat (eapply same_member_trans; [|by apply same_member_upd]).
    by apply same_member_heap.
Qed.

(** The members of the tables after the tables of the view are linked:
    the tables of the main select of a view without union have the lock
    type of the node. *)
Lemma link_view_tables_members (st st' : state) (p : ptr) (t : TABLE_LIST)
    (lex : LEX) (locals : list ptr) :
  link_view_tables st p t lex = Some st' ->
  lseg next_local (heap st) (sl_table_list_first (lex_select_lex lex))
    locals None ->
  same_member (fun t => (select_lex t, updatable_view t, with_check t)) st st'
  /\ same_member next_local st st'
  /\ (forall a, is_Some (heap st' !! a) <-> is_Some (heap st !! a))
  /\ (lex_next_selects lex = [] ->
      forall a, a ∈ locals -> lock_type <$> heap st' !! a = Some (lock_type t)).
Proof.
  unfold link_view_tables. intros Hlink Hloc.
  destruct (global_list (heap st) (lex_query_tables lex)) as [tbls|]; [|done].
  match type of Hlink with
  | context [upd_each (tbls.*1) ?f st] =>
      set (mark := f) in *; set (st_a := upd_each (tbls.*1) mark st) in *
  end.
  destruct (splice_view_tables p (lex_query_tables lex) (last (tbls.*1)) st_a)
    as [st_b|] eqn:Hsplice; [|done].
  assert (forall (A : Type) (g : TABLE_LIST -> A),
            keeps g mark ->
            (forall x, keeps g (set_next_global x)) ->
            (forall x, keeps g (set_prev_global x)) ->
            same_member g st st_b) as Hb.
  { intros A g Km Kn Kp.
    eapply same_member_trans; [by apply same_member_upd_each|].
    by eapply splice_view_tables_keeps. }
  assert (forall a, is_Some (heap st_b !! a) <-> is_Some (heap st !! a)) as Hsome.
  { intros a. by apply (same_member_is_Some next_local), Hb. }
  destruct (bool_decide (lex_next_selects lex = [])) eqn:Hunion.
  - destruct (local_list (heap st_b) (sl_table_list_first (lex_select_lex lex)))
      as [L|] eqn:HL; [|done].
    injection Hlink as <-.
    assert (L.*1 = locals) as HLl.
    { apply walk_lseg in HL.
      eapply (lseg_det next_local); [exact HL|].
      apply (lseg_same_member next_local st); [by apply Hb|done]. }
    rewrite HLl.
    split; [|split; [|split]].
    + eapply same_member_trans; [by apply Hb|]. by apply same_member_upd_each.
    + eapply same_member_trans; [by apply Hb|]. by apply same_member_upd_each.
    + intros a. by rewrite lookup_upd_each_is_Some.
    + intros _ a Ha. apply upd_each_sets; [done| |by left].
      apply Hsome. by eapply (lseg_lookup next_local).
  - injection Hlink as <-. apply bool_decide_eq_false in Hunion.
    split; [by apply Hb|]. split; [by apply Hb|]. done.
Qed.

(** The members the MERGE branch leaves at the node, at the tables of the
    top join list of the view and at the tables of its main select. *)
Lemma make_view_merge_details (st st' : state) (p vt : ptr) (lex : LEX)
    (t0 : TABLE_LIST) (locals : list ptr) :
  make_view_merge st p lex (Some vt) = Some st' ->
  heap st !! p = Some t0 ->
  lseg next_local (heap st) (sl_table_list_first (lex_select_lex lex))
    locals None ->
  (forall a, a ∈ sl_top_join_list (lex_select_lex lex) -> is_Some (heap st !! a)) ->
  (fun t => (effective_algorithm t, updatable t, effective_with_check t,
             ancestor t)) <$> heap st' !! p
  = Some (VIEW_ALGORITHM_MERGE, negb (updatable_view t0 =? 0), with_check t0,
          Some vt)
  /\ nested_join <$> heap st' !! p
     = Some (Some {| nj_join_list := sl_top_join_list (lex_select_lex lex) |})
  /\ where_ <$> heap st' !! p = Some (sl_where (lex_select_lex lex))
  /\ (forall a,
        a ∈ sl_top_join_list (lex_select_lex lex) ->
        (fun ta => (embedding ta, join_list ta)) <$> heap st' !! a
        = Some (Some p, Some (Join_list_of_nested p)))
  /\ (forall a,
        a ∈ locals -> select_lex <$> heap st' !! a = Some (select_lex t0))
  /\ same_member lock_type st st'
  /\ (forall a, is_Some (heap st' !! a) <-> is_Some (heap st !! a)).
Proof.
  unfold make_view_merge. intros Hrun Ht0 Hloc Htjl.
  match type of Hrun with
  | context [upd p ?f st] => set (f0 := f) in *; set (st0 := upd p f0 st) in *
  end.
  assert (heap st0 !! p = Some (f0 t0)) as Hp0.
  { unfold st0. rewrite lookup_upd, decide_True by done. by rewrite Ht0. }
  rewrite Hp0 in Hrun.
  destruct (local_list (heap st0) (sl_table_list_first (lex_select_lex lex)))
    as [L|] eqn:HL; [|done].
  assert (L.*1 = locals) as HLl.
  { apply walk_lseg in HL.
    eapply (lseg_det next_local); [exact HL|].
    apply (lseg_same_member next_local st); [by apply same_member_upd|done]. }
  rewrite HLl in Hrun.
  destruct (heap _ !! vt) as [first|]; [|done].
  injection Hrun as <-.
  assert (forall a, is_Some (heap st0 !! a) <-> is_Some (heap st !! a)) as Hs0.
  { intros a. apply lookup_upd_is_Some. }
  destruct (bool_decide (is_Some (next_local first))).
  - split; [|split; [|split; [|split; [|split; [|split]]]]].
    + rewrite lookup_upd_keeps, lookup_upd_each_keeps, !lookup_upd_keeps,
        lookup_upd_each_keeps by done.
      by rewrite Hp0.
    + rewrite lookup_upd_keeps, lookup_upd_each_keeps by done.
      apply lookup_upd_sets; [done|].
      rewrite lookup_upd_is_Some, lookup_upd_each_is_Some. by rewrite Hp0.
    + apply lookup_upd_sets; [done|].
      rewrite lookup_upd_each_is_Some, !lookup_upd_is_Some,
        lookup_upd_each_is_Some.
      by rewrite Hp0.
    + intros a Ha. rewrite lookup_upd_keeps by done.
      apply upd_each_sets; [done| |by left].
      rewrite !lookup_upd_is_Some, lookup_upd_each_is_Some.
      by apply Hs0, Htjl.
    + intros a Ha.
      rewrite lookup_upd_keeps, lookup_upd_each_keeps, !lookup_upd_keeps by done.
      apply upd_each_sets; [done| |by left].
      apply Hs0. by eapply (lseg_lookup next_local).
    + repeat first [ eapply same_member_trans; [|by apply same_member_upd]
                   | eapply same_member_trans; [|by apply same_member_upd_each] ].
      done.
    + intros a.
      rewrite lookup_upd_is_Some, lookup_upd_each_is_Some, !lookup_upd_is_Some,
        lookup_upd_each_is_Some.
      apply Hs0.
  - split; [|split; [|split; [|split; [|split; [|split]]]]].
    + rewrite lookup_upd_keeps, lookup_upd_each_keeps, !lookup_upd_keeps,
        lookup_upd_each_keeps by done.
      by rewrite Hp0.
    + rewrite lookup_upd_keeps, lookup_upd_each_keeps by done.
      apply lookup_upd_sets; [done|].
      rewrite lookup_upd_each_is_Some. by rewrite Hp0.
    + apply lookup_upd_sets; [done|].
      rewrite lookup_upd_each_is_Some, !lookup_upd_is_Some,
        lookup_upd_each_is_Some.
      by rewrite Hp0.
    + intros a Ha. rewrite lookup_upd_keeps by done.
      apply upd_each_sets; [done| |by left].
      rewrite !lookup_upd_is_Some, lookup_upd_each_is_Some.
      by apply Hs0, Htjl.
    + intros a Ha.
      rewrite lookup_upd_keeps, lookup_upd_each_keeps, !lookup_upd_keeps by done.
      apply upd_each_sets; [done| |by left].
      apply Hs0. by eapply (lseg_lookup next_local).
    + repeat first [ eapply same_member_trans; [|by apply same_member_upd]
                   | eapply same_member_trans; [|by apply same_member_upd_each] ].
      done.
    + intros a.
      rewrite lookup_upd_is_Some, lookup_upd_each_is_Some, !lookup_upd_is_Some,
        lookup_upd_each_is_Some.
      apply Hs0.
Qed.

(** X19. A view that is merged is nested into the statement.  The call
    returns 0 and the node, with the algorithm MERGE, is updatable as its
    definition says, has the check option of its definition in effect,
    has the tables of the view as its ancestor, the top join list of the
    view as its nested join and the WHERE clause of the view as its own;
    the tables of that join list are embedded in the node; and the tables
    of the main select of the view belong to the select of the node and,
    when the view is no union, have its lock type. *)
Theorem merged_view_is_nested (st st1 : state) (parser : File_parser)
    (p : ptr) (t t1 : TABLE_LIST) (lex : LEX) (pre post V locals : list ptr) :
  heap st !! p = Some t ->
  view t = None ->
  parse_view st parser p t = inr (st1, lex) ->
  heap st1 !! p = Some t1 ->
  view_access_denied st1 p t1 (lex_query_tables lex) = None ->
  prelocking_placeholder t1 = false ->
  merge_ability t1 lex (thd_lex st1) = true ->
  fmap (M := option) (fmap fst)
    (global_list (heap st1) (lex_query_tables (thd_lex st1)))
  = Some (pre ++ p :: post) ->
  fmap (M := option) (fmap fst) (global_list (heap st1) (lex_query_tables lex))
  = Some V ->
  V <> [] ->
  (forall a, a ∈ V -> a ∉ pre ++ p :: post) ->
  fmap (M := option) (fmap fst)
    (local_list (heap st1) (sl_table_list_first (lex_select_lex lex)))
  = Some locals ->
  (forall a,
      a ∈ sl_top_join_list (lex_select_lex lex) -> is_Some (heap st1 !! a)) ->
  exists st' t',
    mysql_make_view st parser p = Some (0, st')
    /\ heap st' !! p = Some t'
    /\ effective_algorithm t' = VIEW_ALGORITHM_MERGE
    /\ updatable t' = negb (updatable_view t1 =? 0)
    /\ effective_with_check t' = with_check t1
    /\ ancestor t' = lex_query_tables lex
    /\ nested_join t'
       = Some {| nj_join_list := sl_top_join_list (lex_select_lex lex) |}
    /\ where_ t' = sl_where (lex_select_lex lex)
    /\ view t' = Some lex
    /\ (forall a,
          a ∈ sl_top_join_list (lex_select_lex lex) ->
          exists ta,
            heap st' !! a = Some ta
            /\ embedding ta = Some p
            /\ join_list ta = Some (Join_list_of_nested p))
    /\ (forall a,
          a ∈ locals ->
          exists ta,
            heap st' !! a = Some ta
            /\ select_lex ta = select_lex t1
            /\ (lex_next_selects lex = [] -> lock_type ta = lock_type t1)).
Proof.
  intros Ht Hview Hparse Ht1 Hacc Hpl Hm Hout HV HVne Hdisj Hloc Htjl.
  apply walk_ptrs_lseg in Hout, HV, Hloc.
  destruct (link_view_tables_spec st1 p t1 lex pre post V locals
              Ht1 Hout HV Hdisj Hloc)
    as (st2 & Hlink & Hlist & _).
  pose proof (link_view_tables_after _ _ _ _ _ Hlink) as (_ & _ & lst & Hlex2).
  pose proof (link_view_tables_members _ _ _ _ _ _ Hlink Hloc)
    as (Hmembers & Hlocal & Hsome & Hlock).
  destruct V as [|vt V']; [done|].
  pose proof HV as HV0. cbn in HV0. destruct HV0 as (Hvt & tvt & Htvt & _).
  assert (merge_ability t1 lex (thd_lex st2) = true) as Hm2.
  { rewrite Hlex2. rewrite <- Hm. reflexivity. }
  assert (is_Some (heap st2 !! p)) as [t2 Ht2].
  { apply Hsome. by rewrite Ht1. }
  assert (is_Some (heap st2 !! vt)) as Hvt2.
  { apply Hsome. by rewrite Htvt. }
  assert (lseg next_local (heap st2) (sl_table_list_first (lex_select_lex lex))
            locals None) as Hloc2
    by by apply (lseg_same_member next_local st1).
  destruct (choose_algorithm_merge st2 p vt t1 t2 lex locals Hpl Hm2 Hvt Ht2
              Hvt2 Hloc2) as (st' & Hchoose).
  assert (mysql_make_view st parser p = Some (0, st')) as Hrun.
  { unfold mysql_make_view. rewrite Ht, Hview.
    rewrite bool_decide_eq_false_2 by (by intros [? ?]).
    rewrite Hparse. unfold make_view_parsed. by rewrite Ht1, Hacc, Hlink. }
  unfold choose_algorithm in Hchoose. rewrite Hpl in Hchoose.
  cbn [thd_lex set_thd_lex] in Hchoose.
  rewrite merge_ability_move_options, Hm2, Hvt in Hchoose.
  destruct (make_view_merge _ p lex (Some vt)) as [st3|] eqn:Hmerge; [|done].
  apply make_view_ok_spec in Hchoose as (_ & -> & t3 & Ht3 & Ht').
  destruct (make_view_merge_details _ _ _ _ _ t2 locals Hmerge Ht2 Hloc2)
    as (Hnode & Hnested & Hwhere & Hemb & Hsel & Hlt & _).
  { intros a Ha. apply Hsome. by apply Htjl. }
  assert (select_lex t2 = select_lex t1 /\ updatable_view t2 = updatable_view t1
          /\ with_check t2 = with_check t1) as (Hsl & Huv & Hwc).
  { specialize (Hmembers p). rewrite Ht2, Ht1 in Hmembers.
    injection Hmembers as -> -> ->. done. }
  rewrite Ht3 in Hnode, Hnested, Hwhere.
  injection Hnode as Halg Hupd Hchk Hanc. injection Hnested as Hnested.
  injection Hwhere as Hwhere.
  exists (upd p (set_view (Some lex)) st3), (set_view (Some lex) t3).
  split; [done|]. split; [done|]. split; [done|].
  split; [by rewrite <- Huv|]. split; [by rewrite <- Hwc|].
  split; [by rewrite Hvt|]. split; [done|]. split; [done|]. split; [done|].
  split.
  - intros a Ha. specialize (Hemb a Ha).
    rewrite <- (lookup_upd_keeps _ p a (set_view (Some lex)) st3) in Hemb by done.
    destruct (heap (upd p (set_view (Some lex)) st3) !! a) as [ta|]; [|done].
    injection Hemb as He Hj. by exists ta.
  - intros a Ha. specialize (Hsel a Ha).
    rewrite <- (lookup_upd_keeps _ p a (set_view (Some lex)) st3) in Hsel by done.
    assert (lex_next_selects lex = [] ->
            lock_type <$> heap (upd p (set_view (Some lex)) st3) !! a
            = Some (lock_type t1)) as Hl.
    { intros Hunion. rewrite lookup_upd_keeps by done.
      rewrite (Hlt a). cbn [heap set_thd_lex]. by apply Hlock. }
    destruct (heap (upd p (set_view (Some lex)) st3) !! a) as [ta|]; [|done].
    injection Hsel as Hs. exists ta. split; [done|]. split; [congruence|].
    intros Hunion. specialize (Hl Hunion). by injection Hl.
Qed.

End Proofs.

(** * The properties on the installation *)

(** C1. A definition registered as updatable is not stored with the
    algorithm TEMPTABLE; a node that [mysql_make_view] resolves (other
    than a placeholder for prelocking) gets the algorithm MERGE or
    TEMPTABLE and is not updatable when it gets TEMPTABLE; and a node
    resolved with MERGE need not be updatable. *)
Theorem updatable_is_not_temptable :
  (forall (Env : Environment) (st st1 st' : state) (view_ptr : ptr)
      (mode : enum_view_create_mode) (v v1 v' : TABLE_LIST) (ret : Z),
      heap st !! view_ptr = Some v ->
      check_old_frm st v mode = inr (v1, st1) ->
      mysql_register_view st view_ptr mode = Some (ret, st') ->
      heap st' !! view_ptr = Some v' ->
      updatable_view v' <> 0 ->
      algorithm v' <> VIEW_ALGORITHM_TMPTABLE)
  /\ (forall (Env : Environment) (st st1 st' : state) (parser : File_parser)
        (p : ptr) (t t1 : TABLE_LIST) (lex : LEX),
        heap st !! p = Some t ->
        view t = None ->
        parse_view st parser p t = inr (st1, lex) ->
        heap st1 !! p = Some t1 ->
        prelocking_placeholder t1 = false ->
        mysql_make_view st parser p = Some (0, st') ->
        exists t',
          heap st' !! p = Some t'
          /\ (effective_algorithm t' = VIEW_ALGORITHM_MERGE
              \/ effective_algorithm t' = VIEW_ALGORITHM_TMPTABLE)
          /\ (effective_algorithm t' = VIEW_ALGORITHM_TMPTABLE ->
              updatable t' = false)
          /\ (updatable t' = true ->
              effective_algorithm t' = VIEW_ALGORITHM_MERGE))
  /\ (exists (Env : Environment) (st st' : state) (parser : File_parser)
        (p : ptr) (t' : TABLE_LIST),
        mysql_make_view st parser p = Some (0, st')
        /\ heap st' !! p = Some t'
        /\ effective_algorithm t' = VIEW_ALGORITHM_MERGE
        /\ updatable t' = false).
Proof.
  split; [|split].
  - intros Env st st1 st' view_ptr mode v v1 v' ret Hv Hold Hrun Hv' Hupd.
    unfold mysql_register_view in Hrun. rewrite Hv, Hold in Hrun.
    by eapply register_definition_updatable.
  - intros Env st st1 st' parser p t t1 lex.
    apply mysql_make_view_updatable.
  - exists example_env, select_from_v1_t.
    destruct (mysql_make_view (Env := example_env) select_from_v1_t
                example_parser 1%nat) as [[r st']|] eqn:Hrun;
      [|by vm_compute in Hrun].
    destruct (heap st' !! 1%nat) as [t'|] eqn:Ht'.
    2:{ exfalso. revert Ht'. apply eq_sym in Hrun. vm_compute in Hrun.
        injection Hrun as -> ->. by vm_compute. }
    exists st', example_parser, 1%nat, t'.
    apply eq_sym in Hrun. vm_compute in Hrun. injection Hrun as -> ->.
    vm_compute in Ht'. injection Ht' as <-.
    repeat split; reflexivity.
Qed.

Lemma updatable_is_not_temptable_witness :
  exists st' t',
    mysql_make_view (Env := example_env) select_from_v1_t example_parser 1%nat
    = Some (0, st')
    /\ heap st' !! 1%nat = Some t'
    /\ (effective_algorithm t' = VIEW_ALGORITHM_TMPTABLE -> updatable t' = false).
Proof.
  pose proof (fun st1 st' =>
                proj1 (proj2 updatable_is_not_temptable) example_env
                  select_from_v1_t st1 st' example_parser 1%nat) as H.
  edestruct H as (t' & Ht' & _ & Htmp & _);
    [ reflexivity | reflexivity | vm_compute; reflexivity
    | vm_compute; reflexivity | reflexivity | vm_compute; reflexivity | ].
  eexists _, t'. split; [vm_compute; reflexivity|]. split; [exact Ht'|exact Htmp].
Defined.

Lemma mysql_frm_type_short_file_witness :
  mysql_frm_type
    (<["/data/test/v.frm" := regular_file (list_ascii_of_string "TYPE=")]> ∅)
    "/data/test/v.frm"
  = FRMTYPE_VIEW.
Proof.
  eapply mysql_frm_type_short_file;
    [vm_compute; reflexivity | reflexivity | reflexivity | simpl; lia].
Defined.

Lemma mysql_drop_view_each_name_witness :
  exists r,
    mysql_drop_view (Env := example_env) (drop_view_t true) (Some 2%nat) = Some r
    /\ drop_view_spec (Env := example_env)
         ([(2%nat, new_table_list "test" "t")].*2) (drop_view_t true) r.
Proof.
  apply (mysql_drop_view_each_name (Env := example_env) (drop_view_t true)
           (Some 2%nat) [(2%nat, new_table_list "test" "t")]).
  vm_compute. reflexivity.
Defined.

(** C7, as stated, fails: with IF EXISTS a record that is present and is
    not a view does not make the statement fail with ER_WRONG_OBJECT; the
    name is skipped with a note and the statement succeeds. *)
Lemma drop_if_exists_skips_a_table :
  record_not_view (Env := example_env) (drop_view_t true)
    (new_table_list "test" "t")
  /\ lex_drop_if_exists (thd_lex (drop_view_t true)) = true
  /\ exists st',
       mysql_drop_view (Env := example_env) (drop_view_t true) (Some 2%nat)
       = Some (false, st')
       /\ diagnostics st' = [Diag WARN_LEVEL_NOTE ER_BAD_TABLE_ERROR ["test.t"]]
       /\ ok_sent st' = true
       /\ is_Some (files st' !! "/data/test/t.frm").
Proof.
  split.
  { unfold record_not_view. split.
    - vm_compute. by eexists.
    - vm_compute. discriminate. }
  split; [reflexivity|].
  eexists. split; [vm_compute; reflexivity|].
  split; [reflexivity|]. split; [reflexivity|]. vm_compute. by eexists.
Qed.

Lemma check_key_in_view_coverage_witness :
  check_key_in_view (Env := example_env)
    (update_with_limit SQLCOM_UPDATE [item_a; item_b] 0) 5%nat
  = Some (false, update_with_limit SQLCOM_UPDATE [item_a; item_b] 0).
Proof.
  edestruct (check_key_in_view_coverage (Env := example_env)
               (update_with_limit SQLCOM_UPDATE [item_a; item_b] 0) 5%nat)
    as [_ Hupdate];
    [ vm_compute; reflexivity
    | left; vm_compute; by eexists
    | vm_compute; discriminate
    | reflexivity
    | reflexivity
    | reflexivity
    | reflexivity
    | simpl; lia
    | intros key Hin _; apply list_elem_of_singleton in Hin as ->; discriminate
    | ].
  destruct Hupdate as [Hiff _]; [discriminate|].
  apply Hiff. left. exists {| flags := 1; key_part := [100%nat] |}.
  split; [by left|]. split; [reflexivity|].
  intros f Hf. apply list_elem_of_singleton in Hf as ->.
  exists 0%nat, item_a. split; [simpl; lia|]. split; reflexivity.
Defined.

(** C2, as stated, fails: for a plain INSERT the check is skipped.  The
    statement carries a row limit, the view shows neither a unique key
    without nulls nor all columns of the table, the variable asks for the
    rejection, and still the check reports safe, without a warning. *)
Lemma insert_with_limit_is_not_checked :
  sl_select_limit
    (lex_select_lex (thd_lex (update_with_limit SQLCOM_INSERT [item_b] 0))) = 1
  /\ thd_updatable_views_with_limit (update_with_limit SQLCOM_INSERT [item_b] 0) = 0
  /\ ~ covers_unique_not_null_key (Env := example_env) [item_b] 1 example_table
  /\ ~ covers_all_fields [item_b] 1 example_table
  /\ check_key_in_view (Env := example_env)
       (update_with_limit SQLCOM_INSERT [item_b] 0) 5%nat
     = Some (false, update_with_limit SQLCOM_INSERT [item_b] 0)
  /\ check_key_in_view (Env := example_env)
       (update_with_limit SQLCOM_UPDATE [item_b] 0) 5%nat
     = Some (true, update_with_limit SQLCOM_UPDATE [item_b] 0).
Proof.
  split; [reflexivity|]. split; [reflexivity|].
  split; [|split; [|split]].
  - destruct (usable_key_found_spec (Env := example_env) [item_b] 1
                (key_info example_table)) as (b & Hb & Hiff).
    + simpl. lia.
    + intros key Hin _. apply list_elem_of_singleton in Hin as ->. discriminate.
    + vm_compute in Hb. injection Hb as <-.
      intros Hc. apply Hiff in Hc. discriminate.
  - destruct (field_missing_spec [item_b] 1 (field example_table))
      as (m & Hm & Hiff).
    + simpl. lia.
    + vm_compute in Hm. injection Hm as <-.
      intros Hc. apply Hiff in Hc. discriminate.
  - vm_compute. reflexivity.
  - vm_compute. reflexivity.
Qed.

Lemma check_option_requires_updatable_witness :
  exists st',
    mysql_register_view (Env := example_env)
      (create_v1_unlinked VIEW_ALGORITHM_UNDEFINED VIEW_CHECK_CASCADED false)
      1%nat VIEW_CREATE_NEW
    = Some (-1, st')
    /\ files st' =
       files (create_v1_unlinked VIEW_ALGORITHM_UNDEFINED VIEW_CHECK_CASCADED false).
Proof.
  pose proof (fun st1 st2 v v1 v2 cbm =>
                check_option_requires_updatable (Env := example_env)
                  (create_v1_unlinked VIEW_ALGORITHM_UNDEFINED
                     VIEW_CHECK_CASCADED false)
                  st1 st2 1%nat VIEW_CREATE_NEW v v1 v2 cbm true) as H.
  edestruct H as [(st' & Hrun & _ & Hfiles) _];
    [ vm_compute; reflexivity
    | vm_compute; reflexivity
    | vm_compute; reflexivity
    | vm_compute; reflexivity
    | discriminate
    | ].
  by exists st'.
Defined.

Lemma merge_request_downgraded_witness :
  exists ret st' v',
    mysql_register_view (Env := example_env)
      (create_v1_unlinked VIEW_ALGORITHM_MERGE VIEW_CHECK_NONE false)
      1%nat VIEW_CREATE_NEW
    = Some (ret, st')
    /\ heap st' !! 1%nat = Some v'
    /\ algorithm v' = VIEW_ALGORITHM_UNDEFINED
    /\ updatable_view v' = 0.
Proof.
  pose proof (fun st1 =>
                merge_request_downgraded (Env := example_env)
                  (create_v1_unlinked VIEW_ALGORITHM_MERGE VIEW_CHECK_NONE false)
                  st1 1%nat VIEW_CREATE_NEW) as H.
  edestruct H as (ret & st' & v' & Hrun & Hv' & _ & Halg & Hupd & _);
    [ vm_compute; reflexivity
    | vm_compute; reflexivity
    | reflexivity
    | reflexivity
    | ].
  by exists ret, st', v'.
Defined.

(** C9, as stated, fails: the view whose request for MERGE is downgraded
    is created, with the algorithm UNDEFINED, but it is not updatable,
    though its only table is a base table outside any outer join that is
    not used in a subquery. *)
Lemma merge_downgrade_is_not_updatable :
  (exists tbls,
     local_list
       (heap (create_v1_unlinked VIEW_ALGORITHM_MERGE VIEW_CHECK_NONE false))
       (Some 2%nat) = Some tbls
     /\ updatable_tables_loop
          (heap (create_v1_unlinked VIEW_ALGORITHM_MERGE VIEW_CHECK_NONE false))
          tbls = Some true)
  /\ find_table_in_global_list (Environment := example_env)
       (heap (create_v1_unlinked VIEW_ALGORITHM_MERGE VIEW_CHECK_NONE false))
       None "test" "t" = None
  /\ exists st' v',
       mysql_register_view (Env := example_env)
         (create_v1_unlinked VIEW_ALGORITHM_MERGE VIEW_CHECK_NONE false)
         1%nat VIEW_CREATE_NEW
       = Some (0, st')
       /\ heap st' !! 1%nat = Some v'
       /\ algorithm v' = VIEW_ALGORITHM_UNDEFINED
       /\ updatable_view v' = 0.
Proof.
  split; [eexists; split; vm_compute; reflexivity|].
  split; [reflexivity|].
  eexists _, _. split; [vm_compute; reflexivity|].
  split; [vm_compute; reflexivity|]. split; reflexivity.
Qed.



Lemma invalidate_unless_first_revision_witness :
  exists st' v',
    mysql_create_view (Env := example_env)
      (create_v1 VIEW_ALGORITHM_UNDEFINED VIEW_CHECK_NONE true) VIEW_CREATE_NEW
    = Some (false, st')
    /\ heap st' !! 1%nat = Some v'
    /\ query_cache_log st' =
       [] ++ (if revision v' =? 1 then [] else [(db v', table_name v')]).
Proof.
  pose proof (fun st' =>
                proj1 (invalidate_unless_first_revision (Env := example_env))
                  (create_v1 VIEW_ALGORITHM_UNDEFINED VIEW_CHECK_NONE true)
                  st' VIEW_CREATE_NEW) as H.
  edestruct H as (p & lex & link & v' & Hun & Hv' & Hlog);
    [vm_compute; reflexivity|].
  vm_compute in Hun. injection Hun as <- _ _.
  eexists _, v'. split; [vm_compute; reflexivity|]. split; [exact Hv'|exact Hlog].
Defined.

Lemma mysql_make_view_idempotent_witness :
  mysql_make_view (Env := example_env) alter_v1_from_v1 example_parser 3%nat
  = Some (0, alter_v1_from_v1).
Proof.
  eapply (proj1 (mysql_make_view_idempotent (Env := example_env))).
  - vm_compute. reflexivity.
  - vm_compute. by eexists.
Defined.

Lemma view_tables_follow_the_view_witness :
  exists st' t',
    mysql_make_view (Env := example_env) select_from_v1_t example_parser 1%nat
    = Some (0, st')
    /\ heap st' !! 1%nat = Some t'
    /\ effective_algorithm t' = VIEW_ALGORITHM_MERGE
    /\ fmap (M := option) (fmap fst)
         (global_list (heap st') (lex_query_tables (thd_lex st')))
       = Some ([] ++ 1%nat :: [10%nat] ++ [2%nat]).
Proof.
  pose proof (fun st1 t t1 lex =>
                view_tables_follow_the_view (Env := example_env)
                  select_from_v1_t st1 example_parser 1%nat t t1 lex
                  [] [2%nat] [10%nat] [10%nat]) as H.
  eapply H;
    [ vm_compute; reflexivity
    | reflexivity
    | vm_compute; reflexivity
    | vm_compute; reflexivity
    | reflexivity
    | reflexivity
    | reflexivity
    | vm_compute; reflexivity
    | vm_compute; reflexivity
    | discriminate
    | intros a Ha Hb; apply list_elem_of_singleton in Ha as ->;
      repeat (apply elem_of_cons in Hb as [Hb|Hb]; [discriminate|]);
      by apply elem_of_nil in Hb
    | vm_compute; reflexivity ].
Defined.

(** ** Runs *)

Example frm_type_of_a_view_record :
  mysql_frm_type (files select_from_v1_t) "/data/test/v1.frm" = FRMTYPE_VIEW.
Proof. vm_compute. reflexivity. Qed.

Example frm_type_of_a_table_record :
  mysql_frm_type (files (drop_view_t false)) "/data/test/t.frm" = FRMTYPE_TABLE.
Proof. vm_compute. reflexivity. Qed.

Example frm_type_of_a_missing_record :
  mysql_frm_type (files (drop_view_t false)) "/data/test/v1.frm" = FRMTYPE_ERROR.
Proof. vm_compute. reflexivity. Qed.

(** Without IF EXISTS the record of a table stops DROP VIEW. *)
Example drop_view_of_a_table :
  option_map (fun r => (r.1, diagnostics r.2, query_cache_log r.2))
    (mysql_drop_view (Env := example_env) (drop_view_t false) (Some 2%nat))
  = Some (true,
          [Diag LEVEL_ERROR ER_WRONG_OBJECT ["test"; "t"; "VIEW"]],
          []).
Proof. vm_compute. reflexivity. Qed.

(** A view of two tables at the end of the list: the tables follow the
    node, the end of the list moves to the last of them, and both are
    nested under the node. *)
Example merge_of_a_view_of_two_tables :
  option_map
    (fun r =>
       (r.1,
        fmap (M := option) (fmap fst)
          (global_list (heap r.2) (lex_query_tables (thd_lex r.2))),
        lex_query_tables_last (thd_lex r.2),
        (fun t => (effective_algorithm t, updatable t, multitable_view t,
                   where_ t, ancestor t)) <$> heap r.2 !! 1%nat,
        (fun t => (prev_global t, embedding t, belong_to_view t))
          <$> heap r.2 !! 10%nat))
    (make_view_parsed (Env := example_env) select_from_t_v2_parsed 1%nat
       lex_select_from_t1_t2)
  = Some (0,
          Some [2%nat; 1%nat; 10%nat; 11%nat],
          In_next_global 11%nat,
          Some (VIEW_ALGORITHM_MERGE, true, true, Some 7%nat, Some 10%nat),
          Some (Some (In_next_global 1%nat), Some 1%nat, Some 1%nat)).
Proof. vm_compute. reflexivity. Qed.

(** The first creation of a view: revision 1, nothing to invalidate. *)
Example first_creation :
  option_map
    (fun r => (r.1, ok_sent r.2, query_cache_log r.2,
               revision <$> heap r.2 !! 1%nat,
               updatable_view <$> heap r.2 !! 1%nat,
               bool_decide (is_Some (files r.2 !! "/data/test/v1.frm"))))
    (mysql_create_view (Env := example_env)
       (create_v1 VIEW_ALGORITHM_UNDEFINED VIEW_CHECK_NONE true) VIEW_CREATE_NEW)
  = Some (false, true, [], Some 1, Some 1, true).
Proof. vm_compute. reflexivity. Qed.

(** The replacement of a view: the revision read from the record is 1, the
    new revision is 2, and the cached results are invalidated. *)
Example replacement :
  option_map
    (fun r => (r.1, ok_sent r.2, query_cache_log r.2,
               revision <$> heap r.2 !! 1%nat))
    (mysql_create_view (Env := example_env) replace_v1 VIEW_CREATE_OR_REPLACE)
  = Some (false, true, [("test", "v1")], Some 2).
Proof. vm_compute. reflexivity. Qed.

(** CREATE VIEW for a name that exists is refused; the revision of the
    object is still 0, not 1, so the invalidation is called all the
    same. *)
Example creation_of_an_existing_view :
  option_map (fun r => (r.1, diagnostics r.2, query_cache_log r.2))
    (mysql_create_view (Env := example_env) replace_v1 VIEW_CREATE_NEW)
  = Some (true, [Diag LEVEL_ERROR ER_TABLE_EXISTS_ERROR ["v1"]], [("test", "v1")]).
Proof. vm_compute. reflexivity. Qed.

(** * The further properties on the installation *)

Lemma mysql_drop_view_removes_views_only_witness :
  exists res st',
    mysql_drop_view (Env := example_env) (drop_view_v1_t false) (Some 2%nat)
    = Some (res, st')
    /\ forall p,
         files st' !! p = files (drop_view_v1_t false) !! p
         \/ (files st' !! p = None
             /\ exists view,
                  view ∈ names_v1_t.*2
                  /\ frm_path (Env := example_env) view = p
                  /\ mysql_frm_type (files (drop_view_v1_t false)) p
                     = FRMTYPE_VIEW).
Proof.
  apply (mysql_drop_view_removes_views_only (Env := example_env)
           (drop_view_v1_t false) (Some 2%nat) names_v1_t).
  vm_compute. reflexivity.
Defined.

Lemma mysql_drop_view_accounting_witness :
  exists res st' deleted,
    mysql_drop_view (Env := example_env) (drop_view_v1_t false) (Some 2%nat)
    = Some (res, st')
    /\ deleted `sublist_of` names_v1_t.*2
    /\ files st' =
       foldl (fun fs view => delete (frm_path (Env := example_env) view) fs)
         (files (drop_view_v1_t false)) deleted
    /\ query_cache_log st' =
       query_cache_log (drop_view_v1_t false)
       ++ ((fun view => (db view, table_name view)) <$> deleted)
    /\ ok_sent st' = ok_sent (drop_view_v1_t false) || negb res
    /\ (res = false ->
        lex_drop_if_exists (thd_lex (drop_view_v1_t false)) = false ->
        deleted = names_v1_t.*2).
Proof.
  apply (mysql_drop_view_accounting (Env := example_env)
           (drop_view_v1_t false) (Some 2%nat) names_v1_t).
  vm_compute. reflexivity.
Defined.

Lemma mysql_drop_view_if_exists_succeeds_witness :
  exists st',
    mysql_drop_view (Env := example_env) (drop_view_v1_t true) (Some 2%nat)
    = Some (false, st')
    /\ thd_net_report_error st' = thd_net_report_error (drop_view_v1_t true)
    /\ forall view,
         view ∈ names_v1_t.*2 ->
         mysql_frm_type (files st') (frm_path (Env := example_env) view)
         <> FRMTYPE_VIEW.
Proof.
  apply (mysql_drop_view_if_exists_succeeds (Env := example_env)
           (drop_view_v1_t true) (Some 2%nat) names_v1_t).
  - vm_compute. reflexivity.
  - reflexivity.
  - intros view f Hin Hf.
    apply elem_of_cons in Hin as [->|Hin];
      [|apply elem_of_cons in Hin as [->|Hin]; [|by apply elem_of_nil in Hin]];
      vm_compute in Hf; by injection Hf as <-.
Defined.

(** "drop view v1, t" deletes the record of the view, invalidates the
    cached results for it, and then fails on the table: the view stays
    dropped. *)
Example drop_view_of_a_view_and_a_table :
  exists st',
    mysql_drop_view (Env := example_env) (drop_view_v1_t false) (Some 2%nat)
    = Some (true, st')
    /\ files st' !! "/data/test/v1.frm" = None
    /\ is_Some (files st' !! "/data/test/t.frm")
    /\ query_cache_log st' = [("test", "v1")]
    /\ ok_sent st' = false.
Proof.
  eexists. split; [vm_compute; reflexivity|].
  repeat split; try (vm_compute; reflexivity). vm_compute. by eexists.
Qed.

Lemma insert_view_fields_all_or_error_witness :
  exists v vlex,
    heap (update_with_limit SQLCOM_INSERT [item_a; item_b] 0) !! 5%nat = Some v
    /\ view v = Some vlex
    /\ match mapM filed_for_view_update
               (take (length (sl_item_list (lex_select_lex vlex)))
                  [item_a; item_b]) with
       | Some flds =>
           insert_view_fields
             (update_with_limit SQLCOM_INSERT [item_a; item_b] 0) [7%nat] 5%nat
           = Some (false, [7%nat] ++ flds,
                   update_with_limit SQLCOM_INSERT [item_a; item_b] 0)
       | None =>
           exists k item pre,
             (k < length (sl_item_list (lex_select_lex vlex)))%nat
             /\ [item_a; item_b] !! k = Some item
             /\ filed_for_view_update item = None
             /\ mapM filed_for_view_update (take k [item_a; item_b]) = Some pre
             /\ insert_view_fields
                  (update_with_limit SQLCOM_INSERT [item_a; item_b] 0)
                  [7%nat] 5%nat
                = Some (true, [7%nat] ++ pre,
                        my_error ER_NON_UPDATABLE_TABLE [alias v; "INSERT"]
                          (update_with_limit SQLCOM_INSERT [item_a; item_b] 0))
       end.
Proof.
  eexists _, _. split; [vm_compute; reflexivity|]. split; [reflexivity|].
  apply (insert_view_fields_all_or_error
           (update_with_limit SQLCOM_INSERT [item_a; item_b] 0) [7%nat] 5%nat);
    [vm_compute; reflexivity | reflexivity | reflexivity | simpl; lia].
Defined.

(** The view "select a, a + 1, b from t" cannot take an INSERT: the error
    is raised at the second expression, after the column a was added to
    the list. *)
Example insert_into_a_view_with_an_expression :
  let st := update_with_limit SQLCOM_INSERT [item_a; item_a_plus_1; item_b] 0 in
  insert_view_fields st [] 5%nat
  = Some (true, [100%nat], my_error ER_NON_UPDATABLE_TABLE ["v"; "INSERT"] st).
Proof. vm_compute. reflexivity. Qed.

Lemma view_checksum_verifies_witness :
  exists v,
    heap (statement_on_checked_view "0cc175b9c0f1b6a831c399e269772661") !! 5%nat
    = Some v
    /\ (view_checksum (Env := example_env)
          (statement_on_checked_view "0cc175b9c0f1b6a831c399e269772661") 5%nat
        = Some HA_ADMIN_NOT_IMPLEMENTED <->
        view v = None \/ String.length (md5 v) <> 32%nat)
    /\ (zero ∉ list_ascii_of_string (md5 v) ->
        (view_checksum (Env := example_env)
           (statement_on_checked_view "0cc175b9c0f1b6a831c399e269772661") 5%nat
         = Some HA_ADMIN_OK <->
         is_Some (view v)
         /\ String.length (md5 v) = 32%nat
         /\ take 32 (list_ascii_of_string
                       (calc_md5 (Environment := example_env) (query v)))
            = list_ascii_of_string (md5 v)))
    /\ (view_checksum (Env := example_env)
          (statement_on_checked_view "0cc175b9c0f1b6a831c399e269772661") 5%nat
        = Some HA_ADMIN_WRONG_CHECKSUM
        \/ view_checksum (Env := example_env)
             (statement_on_checked_view "0cc175b9c0f1b6a831c399e269772661") 5%nat
           = Some HA_ADMIN_OK
        \/ view_checksum (Env := example_env)
             (statement_on_checked_view "0cc175b9c0f1b6a831c399e269772661") 5%nat
           = Some HA_ADMIN_NOT_IMPLEMENTED).
Proof.
  eexists. split; [vm_compute; reflexivity|].
  apply (view_checksum_verifies (Env := example_env)
           (statement_on_checked_view "0cc175b9c0f1b6a831c399e269772661") 5%nat).
  vm_compute. reflexivity.
Defined.

(** The record of a view that is as it was written passes the check. *)
Example checksum_of_an_intact_record :
  view_checksum (Env := example_env)
    (statement_on_checked_view "0cc175b9c0f1b6a831c399e269772661") 5%nat
  = Some HA_ADMIN_OK.
Proof. vm_compute. reflexivity. Qed.

(** A record whose checksum was altered is reported. *)
Example checksum_of_an_altered_record :
  view_checksum (Env := example_env)
    (statement_on_checked_view "0cc175b9c0f1b6a831c399e269772662") 5%nat
  = Some HA_ADMIN_WRONG_CHECKSUM.
Proof. vm_compute. reflexivity. Qed.

Lemma mysql_register_view_type_test_witness :
  mysql_register_view (Env := example_env) replace_v1_unlinked 1%nat
    VIEW_CREATE_OR_REPLACE
  = Some (-1, my_error ER_WRONG_OBJECT ["test"; "v1"; "VIEW"] replace_v1_unlinked)
  <-> fp_ok example_parser = false
      \/ ~ list_ascii_of_string (fp_type example_parser)
           `prefix_of` list_ascii_of_string "VIEW".
Proof.
  apply (mysql_register_view_type_test (Env := example_env)
           replace_v1_unlinked 1%nat
           (set_next_global (Some 2%nat) (new_table_list "test" "v1"))
           VIEW_CREATE_OR_REPLACE
           (regular_file
              (view_header ++ list_ascii_of_string "query=select a from t"))
           example_parser).
  - vm_compute. reflexivity.
  - discriminate.
  - vm_compute. reflexivity.
  - reflexivity.
  - intros Hz. vm_compute in Hz.
    repeat (apply elem_of_cons in Hz as [Hz|Hz]; [discriminate|]).
    by apply elem_of_nil in Hz.
Defined.

Lemma mysql_register_view_respects_mode_witness :
  exists st',
    mysql_register_view (Env := example_env) replace_v1_unlinked 1%nat
      VIEW_CREATE_OR_REPLACE = Some (0, st')
    /\ files st' <> files replace_v1_unlinked
    /\ 0 = 0
    /\ (VIEW_CREATE_OR_REPLACE = VIEW_CREATE_NEW ->
        files replace_v1_unlinked !! "/data/test/v1.frm" = None)
    /\ (VIEW_CREATE_OR_REPLACE = VIEW_ALTER ->
        is_Some (files replace_v1_unlinked !! "/data/test/v1.frm"))
    /\ forall f,
         files replace_v1_unlinked !! "/data/test/v1.frm" = Some f ->
         exists parser,
           sql_parse_prepare (Environment := example_env) f = Some parser
           /\ fp_ok parser = true
           /\ (zero ∉ list_ascii_of_string (fp_type parser) ->
               list_ascii_of_string (fp_type parser)
                 `prefix_of` list_ascii_of_string "VIEW").
Proof.
  eexists. split; [vm_compute; reflexivity|].
  match goal with
  | |- ?changed /\ _ =>
      assert changed as Hchanged;
      [ intros Heq;
        apply (f_equal (fun fs => f_bytes <$> fs !! "/data/test/v1.frm")) in Heq;
        vm_compute in Heq; discriminate
      | split; [exact Hchanged|] ]
  end.
  eapply (mysql_register_view_respects_mode (Env := example_env)
            replace_v1_unlinked _ 1%nat
            (set_next_global (Some 2%nat) (new_table_list "test" "v1"))
            VIEW_CREATE_OR_REPLACE 0);
    [vm_compute; reflexivity | | exact Hchanged].
  vm_compute. reflexivity.
Defined.

Lemma mysql_create_view_all_or_nothing_witness :
  exists st',
    mysql_create_view (Env := example_env) replace_v1 VIEW_CREATE_NEW
    = Some (true, st')
    /\ files st' = files replace_v1
    /\ ok_sent st' = ok_sent replace_v1.
Proof.
  eexists. split; [vm_compute; reflexivity|].
  apply (mysql_create_view_all_or_nothing (Env := example_env) replace_v1 _
           VIEW_CREATE_NEW true).
  vm_compute. reflexivity.
Defined.


Lemma first_offending_table_decides_witness :
  exists st' pre stop post,
    mysql_create_view (Env := example_env) create_v1_on_temporary
      VIEW_CREATE_NEW = Some (true, st')
    /\ [(2%nat, set_table_in_first_from_clause true temporary_t)].*2 = pre ++ stop :: post
    /\ (forall t,
          t ∈ pre ->
          ~ is_temporary t
          /\ ~ is_the_view (new_table_list "test" "v1") t)
    /\ (is_temporary stop
        /\ diagnostics st' =
           diagnostics create_v1_on_temporary
           ++ [Diag LEVEL_ERROR ER_VIEW_SELECT_TMPTABLE [alias stop]]
        \/ is_the_view (new_table_list "test" "v1") stop
           /\ diagnostics st' =
              diagnostics create_v1_on_temporary
              ++ [Diag LEVEL_ERROR ER_NO_SUCH_TABLE ["test"; "v1"]]).
Proof.
  pose proof (fun st1 lex h =>
                first_offending_table_decides (Env := example_env)
                  create_v1_on_temporary st1 VIEW_CREATE_NEW 1%nat lex true
                  (set_next_global (Some 2%nat) (new_table_list "test" "v1"))
                  h [(2%nat, set_table_in_first_from_clause true temporary_t)]
                  (set_table_in_first_from_clause true temporary_t)) as H.
  edestruct H as (st' & pre & stop & post & Hrun);
    [ vm_compute; reflexivity
    | vm_compute; reflexivity
    | reflexivity
    | reflexivity
    | reflexivity
    | reflexivity
    | reflexivity
    | vm_compute; reflexivity
    | vm_compute; reflexivity
    | vm_compute; reflexivity
    | intros tbl Hin; apply list_elem_of_singleton in Hin as ->; by eexists
    | by left
    | left; eexists; split; [reflexivity|]; split; [discriminate|];
      split; reflexivity
    | ].
  exists st', pre, stop, post. exact Hrun.
Defined.

Lemma view_tables_are_marked_witness :
  exists st1 lex t1 st',
    parse_view (Env := example_env) select_from_v1_t example_parser 1%nat
      (set_next_global (Some 2%nat) (new_table_list "test" "v1"))
    = inr (st1, lex)
    /\ heap st1 !! 1%nat = Some t1
    /\ mysql_make_view (Env := example_env) select_from_v1_t example_parser
         1%nat = Some (0, st')
    /\ forall a,
         a ∈ [(10%nat, table_t)].*1 ->
         exists ta,
           heap st' !! a = Some ta
           /\ belong_to_view ta = Some (default 1%nat (belong_to_view t1))
           /\ skip_temporary ta = true.
Proof.
  eexists _, _, _, _.
  split; [vm_compute; reflexivity|].
  split; [vm_compute; reflexivity|].
  split; [vm_compute; reflexivity|].
  eapply (view_tables_are_marked (Env := example_env) select_from_v1_t _ _
            example_parser 1%nat
            (set_next_global (Some 2%nat) (new_table_list "test" "v1")));
    [ vm_compute; reflexivity
    | reflexivity
    | vm_compute; reflexivity
    | vm_compute; reflexivity
    | vm_compute; reflexivity
    | vm_compute; reflexivity ].
Defined.

Lemma view_options_move_to_the_statement_witness :
  exists st' t' vlex,
    mysql_make_view (Env := example_env) select_from_v1_t example_parser 1%nat
    = Some (0, st')
    /\ heap st' !! 1%nat = Some t'
    /\ view t' = Some vlex
    /\ if prelocking_placeholder t'
       then lex_safe_to_cache_query (thd_lex st')
            = lex_safe_to_cache_query (thd_lex select_from_v1_t)
            /\ lex_derived_tables (thd_lex st')
               = lex_derived_tables (thd_lex select_from_v1_t)
            /\ sl_options (lex_select_lex (thd_lex st'))
               = sl_options (lex_select_lex (thd_lex select_from_v1_t))
       else lex_safe_to_cache_query (thd_lex st')
            = lex_safe_to_cache_query (thd_lex select_from_v1_t)
              && lex_safe_to_cache_query vlex
            /\ lex_derived_tables (thd_lex st')
               = Z.lor (lex_derived_tables (thd_lex select_from_v1_t))
                   (DERIVED_VIEW (Environment := example_env))
            /\ sl_options (lex_select_lex (thd_lex st'))
               = if Z.land (sl_options (lex_select_lex vlex))
                      (OPTION_TO_QUERY_CACHE (Environment := example_env)) =? 0
                 then sl_options (lex_select_lex (thd_lex select_from_v1_t))
                 else Z.lor
                        (sl_options (lex_select_lex (thd_lex select_from_v1_t)))
                        (OPTION_TO_QUERY_CACHE (Environment := example_env)).
Proof.
  pose proof (fun st' =>
                view_options_move_to_the_statement (Env := example_env)
                  select_from_v1_t st' example_parser 1%nat
                  (set_next_global (Some 2%nat) (new_table_list "test" "v1")))
    as H.
  edestruct H as (t' & vlex & Hrest);
    [vm_compute; reflexivity | reflexivity | vm_compute; reflexivity |].
  eexists _, t', vlex. split; [vm_compute; reflexivity|exact Hrest].
Defined.


(** EXPLAIN of a select from a view, for a user who may not see the
    tables behind it: the call returns 1 with ER_VIEW_NO_EXPLAIN, the node
    is left unresolved, and the tables of the view are not put into the
    list of the statement. *)
Example explain_of_a_view_without_privileges :
  option_map
    (fun r =>
       (r.1, diagnostics r.2, view <$> heap r.2 !! 1%nat,
        lex_derived_tables (thd_lex r.2),
        fmap (M := option) (fmap fst)
          (global_list (heap r.2) (lex_query_tables (thd_lex r.2)))))
    (mysql_make_view (Env := env_without_privileges) explain_select_from_v1_t
       example_parser 1%nat)
  = Some (1, [Diag LEVEL_ERROR ER_VIEW_NO_EXPLAIN []], Some None, 0,
          Some [1%nat; 2%nat]).
Proof. vm_compute. reflexivity. Qed.

Lemma temptable_view_is_a_derived_table_witness :
  exists st' t' vlex,
    mysql_make_view (Env := example_env) show_fields_from_v1 example_parser
      1%nat = Some (0, st')
    /\ heap st' !! 1%nat = Some t'
    /\ effective_algorithm t' = VIEW_ALGORITHM_TMPTABLE
    /\ updatable t' = false
    /\ effective_with_check t' = VIEW_CHECK_NONE
    /\ derived t' = Some (S (thd_select_number show_fields_from_v1))
    /\ view t' = Some vlex
    /\ sl_linkage (lex_select_lex vlex) = DERIVED_TABLE_TYPE
    /\ sl_select_number (lex_select_lex vlex)
       = S (thd_select_number show_fields_from_v1)
    /\ lex_subqueries (thd_lex st') = true
    /\ fmap (M := option) (fmap fst)
         (global_list (heap st') (lex_query_tables (thd_lex st')))
       = Some ([] ++ 1%nat :: [10%nat] ++ [2%nat]).
Proof.
  pose proof (fun st1 t1 lex =>
                temptable_view_is_a_derived_table (Env := example_env)
                  show_fields_from_v1 st1 example_parser 1%nat
                  (set_next_global (Some 2%nat) (new_table_list "test" "v1"))
                  t1 lex [] [2%nat] [10%nat] [10%nat]) as H.
  eapply H;
    [ vm_compute; reflexivity
    | reflexivity
    | vm_compute; reflexivity
    | vm_compute; reflexivity
    | reflexivity
    | reflexivity
    | reflexivity
    | vm_compute; reflexivity
    | vm_compute; reflexivity
    | intros a Ha Hb; apply list_elem_of_singleton in Ha as ->;
      repeat (apply elem_of_cons in Hb as [Hb|Hb]; [discriminate|]);
      by apply elem_of_nil in Hb
    | vm_compute; reflexivity ].
Defined.

Lemma unread_revision_is_success_witness :
  mysql_register_view (Env := env_with_unreadable_records) replace_v1_unlinked
    1%nat VIEW_CREATE_OR_REPLACE = Some (0, replace_v1_unlinked)
  /\ (wait_if_global_read_lock (Environment := env_with_unreadable_records)
        (files replace_v1_unlinked) = false ->
      exists st',
        register_and_invalidate (Env := env_with_unreadable_records)
          replace_v1_unlinked 1%nat true VIEW_CREATE_OR_REPLACE
        = Some (false, st')
        /\ files st' = files replace_v1_unlinked
        /\ heap st' = heap replace_v1_unlinked
        /\ ok_sent st' = true).
Proof.
  apply (unread_revision_is_success (Env := env_with_unreadable_records)
           replace_v1_unlinked 1%nat
           (set_next_global (Some 2%nat) (new_table_list "test" "v1"))
           VIEW_CREATE_OR_REPLACE
           (regular_file
              (view_header ++ list_ascii_of_string "query=select a from t"))
           example_parser true).
  - vm_compute. reflexivity.
  - discriminate.
  - vm_compute. reflexivity.
  - reflexivity.
  - reflexivity.
  - reflexivity.
  - reflexivity.
  - reflexivity.
Defined.

(** "create or replace view v1 ..." over a record that cannot be read is
    acknowledged, and the record stays as it was. *)
Example replacement_of_an_unreadable_record :
  option_map
    (fun r => (r.1, ok_sent r.2, diagnostics r.2,
               f_bytes <$> files r.2 !! "/data/test/v1.frm"))
    (mysql_create_view (Env := env_with_unreadable_records) replace_v1
       VIEW_CREATE_OR_REPLACE)
  = Some (false, true, [],
          f_bytes <$> files replace_v1 !! "/data/test/v1.frm").
Proof. vm_compute. reflexivity. Qed.

Lemma merged_view_is_nested_witness :
  exists st1 lex t1 st' t',
    parse_view (Env := example_env) select_from_v1_t example_parser 1%nat
      (set_next_global (Some 2%nat) (new_table_list "test" "v1"))
    = inr (st1, lex)
    /\ heap st1 !! 1%nat = Some t1
    /\ mysql_make_view (Env := example_env) select_from_v1_t example_parser
         1%nat = Some (0, st')
    /\ heap st' !! 1%nat = Some t'
    /\ effective_algorithm t' = VIEW_ALGORITHM_MERGE
    /\ updatable t' = negb (updatable_view t1 =? 0)
    /\ effective_with_check t' = with_check t1
    /\ ancestor t' = lex_query_tables lex
    /\ nested_join t'
       = Some {| nj_join_list := sl_top_join_list (lex_select_lex lex) |}
    /\ where_ t' = sl_where (lex_select_lex lex)
    /\ view t' = Some lex
    /\ (forall a,
          a ∈ sl_top_join_list (lex_select_lex lex) ->
          exists ta,
            heap st' !! a = Some ta
            /\ embedding ta = Some 1%nat
            /\ join_list ta = Some (Join_list_of_nested 1%nat))
    /\ (forall a,
          a ∈ [10%nat] ->
          exists ta,
            heap st' !! a = Some ta
            /\ select_lex ta = select_lex t1
            /\ (lex_next_selects lex = [] -> lock_type ta = lock_type t1)).
Proof.
  eexists _, _, _.
  pose proof (fun st1 t1 lex =>
                merged_view_is_nested (Env := example_env)
                  select_from_v1_t st1 example_parser 1%nat
                  (set_next_global (Some 2%nat) (new_table_list "test" "v1"))
                  t1 lex [] [2%nat] [10%nat] [10%nat]) as H.
  edestruct H as (st' & t' & Hrest);
    [ vm_compute; reflexivity
    | reflexivity
    | vm_compute; reflexivity
    | vm_compute; reflexivity
    | reflexivity
    | reflexivity
    | reflexivity
    | vm_compute; reflexivity
    | vm_compute; reflexivity
    | discriminate
    | intros a Ha Hb; apply list_elem_of_singleton in Ha as ->;
      repeat (apply elem_of_cons in Hb as [Hb|Hb]; [discriminate|]);
      by apply elem_of_nil in Hb
    | vm_compute; reflexivity
    | intros a Ha; apply list_elem_of_singleton in Ha as ->;
      vm_compute; by eexists
    | ].
  exists st', t'.
  split; [vm_compute; reflexivity|]. split; [vm_compute; reflexivity|].
  exact Hrest.
Defined.
